(** * cometjs: the Comet connection and its manager

    A shallow embedding of the two source files of the repository:
    the connection object [Comet] (constructor, [start], [sendMsg],
    [directSend], [echoMsg], [pongMsg], [del] and the internal
    [_send], [_close], [_error], [_remove], [_setTimeOut]) and the
    manager [cometMgr] ([createComet], [getComet], [mapComet], [findComet],
    [getCometsCountLive], [getCometsCountVisit], [getCometsExp],
    [getCometBySendId], [_regSendId], [_unregSendId], [_deleteComet]).

    The two files differ in [_send] only: one pushes the JSON text through
    an optional pack hook ([onPack]), the other through [aes.aesEnc] and adds
    two header lines.  The model is parameterised by which of the two it
    follows ([Impl]).

    Modelling decisions.
    - JavaScript objects used as maps ([eventPool], [comets], [sendIds],
      [keyMap]) are [gmap]s over their own properties; ids are strings that
      do not name a member of [Object.prototype].
    - A string stands for its UTF-8 bytes, so that [String.length] is the
      [length] of the [Buffer] made from it.
    - A caller-supplied callback is an observer: calling it is recorded in
      the trace together with its argument and with the receiver as the
      callee can see it at that moment; it returns normally and does not call
      back into the connection.  The callbacks installed by [createComet]
      are modelled by what they do to the manager.
    - An exception is an outcome of its own ([Thrown]); the state reached
      when it was raised is kept.
    - [uuid.v4()] is an argument of the operation that calls it;
      [JSON.stringify] and [aes.aesEnc] are parameters.
    - [Date.now()] is a field of the environment that only the passing of
      time changes; a timer handle is a positive number.
    - A pending timer carries the delay the runtime arms it for: the delay
      asked for, or 1 ms when that is below 1 or above [2^31 - 1]
      ([timer_delay]).  Intervals and delays are integers. *)

From Stdlib Require Import ZArith Lia DecimalString DecimalNat.
From stdpp Require Import base strings gmap list.

Open Scope string_scope.
Open Scope Z_scope.

(** ** Data *)

(** The frozen table [this.CODE]. *)
Inductive Code := CLOSE_TIMEOUT | CLOSE_PEER | CLOSE_COMPEL.

Definition code_name (c : Code) : string :=
  match c with
  | CLOSE_TIMEOUT => "CLOSE_TIMEOUT"
  | CLOSE_PEER => "CLOSE_PEER"
  | CLOSE_COMPEL => "CLOSE_COMPEL"
  end.

(** A message object.  [sid] and [interval] are the two properties the code
    reads; [None] is [undefined].  [interval] is the number of seconds. *)
Record Msg := mkMsg {
  sid : option string;
  interval : option Z;
  fields : list (string * string)
}.

Definition stamp (s : string) (m : Msg) : Msg :=
  {| sid := Some s; interval := interval m; fields := fields m |}.

(** Property name of a possibly undefined value, as in [pool[sid]]. *)
Definition prop_name (o : option string) : string :=
  match o with Some s => s | None => "undefined" end.

(** Truthiness of a string. *)
Definition truthy (s : string) : bool :=
  match s with EmptyString => false | _ => true end.

(** [interval > 0]; a comparison with [undefined] is false. *)
Definition positive_interval (o : option Z) : bool :=
  match o with Some i => 0 <? i | None => false end.

Definition ref := nat.

(** Which function sits in a callback slot: the caller's, or the one
    [createComet] installs there. *)
Inductive Hook := Observer | Manager.

(** What a pack hook does with the callback [_send] hands it: nothing during
    the call, or a call [cb(err, data)] with or without the connection as
    receiver. *)
Inductive Receiver := Unbound | Bound.
Inductive PackReply :=
| PackSilent
| PackCall (this_is : Receiver) (err : option string) (data : string).

(** The listener [sendMsg] attaches to the emitter of a transaction: the
    closure keeps [echoCb] (present or not) and [sid]. *)
Record Listener := mkListener { l_echoCb : bool; l_sid : string }.

Record Comet := mkComet {
  comet_id : string;                       (* this.id *)
  eventPool : gmap string (list Listener); (* sid -> listeners of its emitter *)
  loopTimeout : Z;
  timeId : nat;                            (* 0, or the handle of setTimeout *)
  closeReason : option Code;
  closeFlag : bool;
  key : option string;                     (* set by mapComet *)
  respListeners : nat;                     (* 'close' listeners put on resp *)
  closeFunc : bool;
  errFunc : bool;
  sendFunc : option Hook;
  echoFunc : option Hook;
  rmFunc : option Hook;
  hbFunc : option Hook;
  pkFunc : option (string -> PackReply)
}.

Definition CONTENT_TYPE := "multipart/x-mixed-replace;boundary=ctalk_boundary".
Definition SEND_CONTENT_TYPE_DEV := "multipart/x-mixed-replace;boundary=ctalk_boundary".
Definition SEND_CONTENT_TYPE_APP := "application/x-cloud-snipd".

(** [new Comet(id, req, resp)], [id] already defaulted. *)
Definition new_Comet (i : string) : Comet :=
  {| comet_id := i; eventPool := ∅; loopTimeout := 5 * 60 * 1000; timeId := 0%nat;
     closeReason := None; closeFlag := false; key := None; respListeners := 0%nat;
     closeFunc := false; errFunc := false; sendFunc := None; echoFunc := None;
     rmFunc := None; hbFunc := None; pkFunc := None |}.

Definition set_eventPool (p : gmap string (list Listener)) (c : Comet) : Comet :=
  mkComet (comet_id c) p (loopTimeout c) (timeId c) (closeReason c) (closeFlag c)
    (key c) (respListeners c) (closeFunc c) (errFunc c) (sendFunc c) (echoFunc c)
    (rmFunc c) (hbFunc c) (pkFunc c).
Definition set_loopTimeout (t : Z) (c : Comet) : Comet :=
  mkComet (comet_id c) (eventPool c) t (timeId c) (closeReason c) (closeFlag c)
    (key c) (respListeners c) (closeFunc c) (errFunc c) (sendFunc c) (echoFunc c)
    (rmFunc c) (hbFunc c) (pkFunc c).
Definition set_timeId (h : nat) (c : Comet) : Comet :=
  mkComet (comet_id c) (eventPool c) (loopTimeout c) h (closeReason c) (closeFlag c)
    (key c) (respListeners c) (closeFunc c) (errFunc c) (sendFunc c) (echoFunc c)
    (rmFunc c) (hbFunc c) (pkFunc c).
Definition set_closeReason (o : option Code) (c : Comet) : Comet :=
  mkComet (comet_id c) (eventPool c) (loopTimeout c) (timeId c) o (closeFlag c)
    (key c) (respListeners c) (closeFunc c) (errFunc c) (sendFunc c) (echoFunc c)
    (rmFunc c) (hbFunc c) (pkFunc c).
Definition set_closeFlag (b : bool) (c : Comet) : Comet :=
  mkComet (comet_id c) (eventPool c) (loopTimeout c) (timeId c) (closeReason c) b
    (key c) (respListeners c) (closeFunc c) (errFunc c) (sendFunc c) (echoFunc c)
    (rmFunc c) (hbFunc c) (pkFunc c).
Definition set_key (k : option string) (c : Comet) : Comet :=
  mkComet (comet_id c) (eventPool c) (loopTimeout c) (timeId c) (closeReason c)
    (closeFlag c) k (respListeners c) (closeFunc c) (errFunc c) (sendFunc c)
    (echoFunc c) (rmFunc c) (hbFunc c) (pkFunc c).
Definition set_respListeners (n : nat) (c : Comet) : Comet :=
  mkComet (comet_id c) (eventPool c) (loopTimeout c) (timeId c) (closeReason c)
    (closeFlag c) (key c) n (closeFunc c) (errFunc c) (sendFunc c) (echoFunc c)
    (rmFunc c) (hbFunc c) (pkFunc c).

(** The registration methods: each stores [cb] in its slot. *)
Definition onClose (cb : bool) (c : Comet) : Comet :=
  mkComet (comet_id c) (eventPool c) (loopTimeout c) (timeId c) (closeReason c)
    (closeFlag c) (key c) (respListeners c) cb (errFunc c) (sendFunc c)
    (echoFunc c) (rmFunc c) (hbFunc c) (pkFunc c).
Definition onError (cb : bool) (c : Comet) : Comet :=
  mkComet (comet_id c) (eventPool c) (loopTimeout c) (timeId c) (closeReason c)
    (closeFlag c) (key c) (respListeners c) (closeFunc c) cb (sendFunc c)
    (echoFunc c) (rmFunc c) (hbFunc c) (pkFunc c).
Definition onSend (cb : option Hook) (c : Comet) : Comet :=
  mkComet (comet_id c) (eventPool c) (loopTimeout c) (timeId c) (closeReason c)
    (closeFlag c) (key c) (respListeners c) (closeFunc c) (errFunc c) cb
    (echoFunc c) (rmFunc c) (hbFunc c) (pkFunc c).
Definition onEcho (cb : option Hook) (c : Comet) : Comet :=
  mkComet (comet_id c) (eventPool c) (loopTimeout c) (timeId c) (closeReason c)
    (closeFlag c) (key c) (respListeners c) (closeFunc c) (errFunc c) (sendFunc c)
    cb (rmFunc c) (hbFunc c) (pkFunc c).
Definition onRemove (cb : option Hook) (c : Comet) : Comet :=
  mkComet (comet_id c) (eventPool c) (loopTimeout c) (timeId c) (closeReason c)
    (closeFlag c) (key c) (respListeners c) (closeFunc c) (errFunc c) (sendFunc c)
    (echoFunc c) cb (hbFunc c) (pkFunc c).
Definition onHeart (cb : option Hook) (c : Comet) : Comet :=
  mkComet (comet_id c) (eventPool c) (loopTimeout c) (timeId c) (closeReason c)
    (closeFlag c) (key c) (respListeners c) (closeFunc c) (errFunc c) (sendFunc c)
    (echoFunc c) (rmFunc c) cb (pkFunc c).
Definition onPack (cb : option (string -> PackReply)) (c : Comet) : Comet :=
  mkComet (comet_id c) (eventPool c) (loopTimeout c) (timeId c) (closeReason c)
    (closeFlag c) (key c) (respListeners c) (closeFunc c) (errFunc c) (sendFunc c)
    (echoFunc c) (rmFunc c) (hbFunc c) cb.

(** ** The manager's tables, timers and the trace *)

Record KeyRec := mkKeyRec {
  k_cid : string; visits : Z; lastVisit : Z; alive : Z
}.

(** A pending timer: the connection whose callback it runs and the delay,
    in ms, the runtime has armed it for. *)
Record Timer := mkTimer { t_self : ref; t_msec : Z }.

(** The largest delay the runtime's timers take, [2^31 - 1] ms. *)
Definition TIMEOUT_MAX : Z := 2147483647.

(** The delay the runtime arms for a requested [msec]: a delay below 1 or
    above [TIMEOUT_MAX] is replaced by 1. *)
Definition timer_delay (msec : Z) : Z :=
  if (1 <=? msec) && (msec <=? TIMEOUT_MAX) then msec else 1.
Arguments timer_delay : simpl never.

Inductive Slot := SClose | SError | SSend | SEcho | SRemove | SHeart | SPack | SEchoCb.

(** The argument a callback receives. *)
Inductive Arg :=
| ACloseEv (code : Code) (message : string)          (* {code, message} *)
| AError (message : string)                          (* an Error, or the hook's err *)
| ATxn (cid : option string) (s : string) (m : Msg)  (* {cid, sid, msg} *)
| ARemove (cid : string)                             (* {cid} *)
| AMsg (m : Msg)
| AText (s : string)
| ANothing.

Inductive Event :=
| Called (r : ref) (slot : Slot) (a : Arg) (seen : Comet)
| ReqSetTimeout (r : ref) (msec : Z)
| RespWriteHead (r : ref) (status : Z) (contentType connection : string)
| RespWrite (r : ref) (bytes : string)
| RespEnd (r : ref)
| ConsoleWarn (text : string) (reason : option Code)
| ConsoleLog (args : list string).

Record Env := mkEnv {
  comets : gmap string ref;
  sendIds : gmap string string;
  keyMap : gmap string KeyRec;
  timers : gmap nat Timer;   (* pending timers of the runtime *)
  last_timer : nat;          (* the last handle setTimeout has given out *)
  now : Z;                   (* Date.now() *)
  trace : list Event
}.

Definition set_comets (m : gmap string ref) (e : Env) : Env :=
  mkEnv m (sendIds e) (keyMap e) (timers e) (last_timer e) (now e) (trace e).
Definition set_sendIds (m : gmap string string) (e : Env) : Env :=
  mkEnv (comets e) m (keyMap e) (timers e) (last_timer e) (now e) (trace e).
Definition set_keyMap (m : gmap string KeyRec) (e : Env) : Env :=
  mkEnv (comets e) (sendIds e) m (timers e) (last_timer e) (now e) (trace e).
Definition set_timers (m : gmap nat Timer) (e : Env) : Env :=
  mkEnv (comets e) (sendIds e) (keyMap e) m (last_timer e) (now e) (trace e).
Definition set_last_timer (n : nat) (e : Env) : Env :=
  mkEnv (comets e) (sendIds e) (keyMap e) (timers e) n (now e) (trace e).
Definition logs (evs : list Event) (e : Env) : Env :=
  mkEnv (comets e) (sendIds e) (keyMap e) (timers e) (last_timer e) (now e)
    (app (trace e) evs).
Definition log (ev : Event) (e : Env) : Env := logs [ev] e.
(** Handles are positive and never given out twice. *)
Definition new_handle (e : Env) : nat := S (last_timer e).
Definition set_now (t : Z) (e : Env) : Env :=
  mkEnv (comets e) (sendIds e) (keyMap e) (timers e) (last_timer e) t (trace e).

(** ** State and exceptions *)

Inductive Outcome (S A : Type) :=
| Normal (a : A) (s : S)
| Thrown (what : string) (s : S).
Arguments Normal {S A} a s.
Arguments Thrown {S A} what s.

Definition SE (S A : Type) := S -> Outcome S A.

Definition ret {S A} (a : A) : SE S A := fun s => Normal a s.
Definition bind {S A B} (m : SE S A) (k : A -> SE S B) : SE S B :=
  fun s => match m s with
           | Normal a s' => k a s'
           | Thrown e s' => Thrown e s'
           end.
Definition throw {S A} (what : string) : SE S A := fun s => Thrown what s.
Definition gets {S A} (f : S -> A) : SE S A := fun s => Normal (f s) s.
Definition modify {S} (f : S -> S) : SE S unit := fun s => Normal tt (f s).

Notation "'do' x <- m ; k" := (bind m (fun x => k))
  (at level 10, x name, m at level 100, k at level 200).
Notation "'run' m ; k" := (bind m (fun _ => k))
  (at level 10, m at level 100, k at level 200).

Definition final {S A} (o : Outcome S A) : S :=
  match o with Normal _ s => s | Thrown _ s => s end.

Definition returns {S A} (o : Outcome S A) : bool :=
  match o with Normal _ _ => true | Thrown _ _ => false end.

(** A method runs on a receiver: its reference, its fields, and the rest. *)
Record Frame := mkFrame { self_ref : ref; this : Comet; env : Env }.

Definition Meth (A : Type) := SE Frame A.

Definition on_this (f : Comet -> Comet) : Meth unit :=
  modify (fun s => mkFrame (self_ref s) (f (this s)) (env s)).
Definition on_env (f : Env -> Env) : Meth unit :=
  modify (fun s => mkFrame (self_ref s) (this s) (f (env s))).
Definition emit (ev : Event) : Meth unit := on_env (log ev).

(** Calling the function in a slot: the call is recorded with the receiver
    as it is at that moment. *)
Definition call (slot : Slot) (a : Arg) : Meth unit :=
  do s <- gets (fun s => s);
  emit (Called (self_ref s) slot a (this s)).

Definition TypeError (what : string) : string := "TypeError: " +:+ what.

(** ** Wire framing *)

Definition CRLF : string :=
  String (Ascii.ascii_of_nat 13) (String (Ascii.ascii_of_nat 10) EmptyString).

(** A number appended to a string: its decimal digits. *)
Definition decimal (n : nat) : string := NilEmpty.string_of_uint (Nat.to_uint n).

Definition fmtTail : string := CRLF +:+ "--ctalk_boundary".

(** [fmtHeader] of the file with the pack hook. *)
Definition fmtHeader (prefix contentType : string) (bufData : string) : string :=
  prefix +:+ "Content-Type: " +:+ contentType +:+
  CRLF +:+ "Content-Length: " +:+ decimal (String.length bufData) +:+ CRLF +:+ CRLF.

(** [fmtHeader] of the file with [aes.aesEnc]. *)
Definition fmtHeader_aes (prefix contentType : string) (bufData : string) : string :=
  prefix +:+ "Content-Type: " +:+ contentType +:+
  CRLF +:+ "Content-Length: " +:+ decimal (String.length bufData) +:+
  CRLF +:+ "X-Address: " +:+ CRLF +:+ "X-Remote-Address: " +:+ CRLF +:+ CRLF.

(** [Buffer.concat([Buffer(fmtHeader), bufData, Buffer(fmtTail)])] *)
Definition bufAll (header bufData : string) : string :=
  header +:+ bufData +:+ fmtTail.

Inductive Impl := WithPackHook | WithAes.

(** ** The connection *)

Section Connection.

Variable impl : Impl.
Variable JSON_stringify : Msg -> string.
Variable aesEnc : string -> string.

Definition me : Meth Comet := gets this.

(** The callback [_send] gives to the pack hook.  Called without a
    receiver, [this] is undefined and the first property access throws. *)
Definition pack_callback (prefix contentType msgStr : string)
    (this_is : Receiver) (err : option string) (data : string) : Meth unit :=
  match err with
  | Some e =>
      match this_is with
      | Unbound => throw (TypeError "Cannot read property errFunc of undefined")
      | Bound =>
          do c <- me;
          if errFunc c then call SError (AError e)
          else throw (TypeError "this.errFunc is not a function")
      end
  | None =>
      run emit (ConsoleLog ["comet push msg :"; msgStr]);
      match this_is with
      | Unbound => throw (TypeError "Cannot read property resp of undefined")
      | Bound =>
          do r <- gets self_ref;
          emit (RespWrite r (bufAll (fmtHeader prefix contentType data) data))
      end
  end.

Definition _send (msg : Msg) (prefix contentType : option string) : Meth unit :=
  let prefix := match prefix with Some p => p | None => "" end in
  let contentType :=
    match contentType with
    | Some t => if truthy t then t else SEND_CONTENT_TYPE_APP
    | None => SEND_CONTENT_TYPE_APP
    end in
  let msgStr := JSON_stringify msg in
  do c <- me;
  do r <- gets self_ref;
  match impl with
  | WithPackHook =>
      match pkFunc c with
      | Some hook =>
          run call SPack (AText msgStr);
          match hook msgStr with
          | PackSilent => ret tt
          | PackCall this_is err data =>
              pack_callback prefix contentType msgStr this_is err data
          end
      | None =>
          run emit (ConsoleLog ["comet push msg :"; msgStr]);
          emit (RespWrite r (bufAll (fmtHeader prefix contentType msgStr) msgStr))
      end
  | WithAes =>
      let msgEnc := aesEnc msgStr in
      run emit (ConsoleLog ["comet push msg :"; msgStr]);
      emit (RespWrite r (bufAll (fmtHeader_aes prefix contentType msgEnc) msgEnc))
  end.

Definition _close (reason : option Code) : Meth unit :=
  let reason := match reason with Some c => c | None => CLOSE_COMPEL end in
  do c <- me;
  do r <- gets self_ref;
  if closeFunc c then
    run call SClose (ACloseEv reason "closed by server");
    emit (RespEnd r)
  else throw (TypeError "this.closeFunc is not a function").

Definition _error (err : string) : Meth unit :=
  do c <- me;
  if errFunc c then call SError (AError err) else ret tt.

Definition clearTimeout (h : nat) : Meth unit :=
  on_env (fun e => set_timers (delete h (timers e)) e).

Definition setTimeout (msec : Z) : Meth nat :=
  do r <- gets self_ref;
  do h <- gets (fun s => new_handle (env s));
  run on_env (fun e =>
    set_last_timer h (set_timers (<[h := mkTimer r (timer_delay msec)]> (timers e)) e));
  ret h.

(** The function [createComet] passes to [onSend]. *)
Definition _regSendId (cid s : string) : Meth unit :=
  run on_env (fun e => set_sendIds (<[s := cid]> (sendIds e)) e);
  emit (ConsoleLog ["comet:"; cid; "add sender"; s]).

(** The function [createComet] passes to [onEcho]. *)
Definition _unregSendId (s : string) : Meth unit :=
  do ids <- gets (fun f => sendIds (env f));
  run emit (ConsoleLog ["comet:"; prop_name (ids !! s); "remove sender"; s]);
  on_env (fun e => set_sendIds (delete s (sendIds e)) e).

(** The function [createComet] passes to [onRemove]. *)
Definition _deleteComet (cid : string) : Meth unit :=
  on_env (fun e =>
    set_sendIds (filter (fun kv => kv.2 <> cid) (sendIds e))
      (set_comets (delete cid (comets e)) e)).

(** The function [createComet] passes to [onHeart]; [this] is the
    connection. *)
Definition refresh_alive : Meth unit :=
  do c <- me;
  match key c with
  | Some k =>
      if truthy k then
        do e <- gets env;
        match keyMap e !! k with
        | Some rec =>
            on_env (set_keyMap
              (<[k := mkKeyRec (k_cid rec) (visits rec) (lastVisit rec) (now e)]> (keyMap e)))
        | None => throw (TypeError "Cannot set property alive of undefined")
        end
      else ret tt
  | None => ret tt
  end.

Definition _remove : Meth unit :=
  do c <- me;
  run (if Nat.eqb (timeId c) 0 then ret tt
       else run clearTimeout (timeId c); on_this (set_timeId 0));
  do c <- me;
  match rmFunc c with
  | Some h =>
      run call SRemove (ARemove (comet_id c));
      match h with Manager => _deleteComet (comet_id c) | Observer => ret tt end
  | None => ret tt
  end.

(** The function given to [setTimeout] by [_setTimeOut]. *)
Definition on_timeout : Meth unit :=
  do c <- me;
  if closeFlag c then
    emit (ConsoleWarn "Timeout close duplicate, last close reason" (closeReason c))
  else
    run on_this (set_closeFlag true);
    run on_this (set_closeReason (Some CLOSE_TIMEOUT));
    run on_this (set_timeId 0);
    run _error "Get next ping timeout.";
    run _close (Some CLOSE_TIMEOUT);
    _remove.

Definition _setTimeOut (msec : Z) : Meth unit :=
  do c <- me;
  run (if Nat.eqb (timeId c) 0 then ret tt
       else run clearTimeout (timeId c); on_this (set_timeId 0));
  do h <- setTimeout msec;
  on_this (set_timeId h).

(** The listener [start] puts on [resp] for ['close']. *)
Definition on_peer_close : Meth unit :=
  do c <- me;
  if closeFlag c then
    emit (ConsoleWarn "peer close duplicate, last close reason" (closeReason c))
  else
    run on_this (set_closeFlag true);
    run on_this (set_closeReason (Some CLOSE_PEER));
    run (if closeFunc c then call SClose (ACloseEv CLOSE_PEER "closed by peer")
         else throw (TypeError "self.closeFunc is not a function"));
    _remove.

Definition connectOK : Msg :=
  {| sid := None; interval := None; fields := [("cmd_echo", "connectOK")] |}.

Definition start : Meth unit :=
  do r <- gets self_ref;
  run emit (ReqSetTimeout r 0);
  run emit (RespWriteHead r 200 CONTENT_TYPE "close");
  run _send connectOK (Some ("--ctalk_boundary" +:+ CRLF)) (Some SEND_CONTENT_TYPE_DEV);
  run on_this (fun c => set_respListeners (S (respListeners c)) c);
  do c <- me;
  _setTimeOut (loopTimeout c).

(** [uuid] is the value [uuid.v4()] yields in this call. *)
Definition sendMsg (msg : Msg) (contentType : option string) (echoCb : bool)
    (uuid : string) : Meth unit :=
  let s := uuid in
  let msg := stamp s msg in
  run on_this (fun c => set_eventPool (<[s := []]> (eventPool c)) c);
  do c <- me;
  run match sendFunc c with
      | Some h =>
          run call SSend (ATxn (Some (comet_id c)) s msg);
          match h with Manager => _regSendId (comet_id c) s | Observer => ret tt end
      | None => ret tt
      end;
  let contentType :=
    match contentType with
    | Some t => if truthy t then Some t else Some SEND_CONTENT_TYPE_APP
    | None => Some SEND_CONTENT_TYPE_APP
    end in
  run _send msg (Some "") contentType;
  on_this (fun c =>
    set_eventPool (alter (fun ls => app ls [mkListener echoCb s]) s (eventPool c)) c).

(** The listener of [sendMsg], run by [emit('echo', echoMsg)]: [this] is
    the emitter, which has no [id]. *)
Definition on_echo (l : Listener) (echoMsg : Msg) : Meth unit :=
  run (if l_echoCb l then call SEchoCb (AMsg echoMsg)
       else throw (TypeError "echoCb is not a function"));
  run on_this (fun c => set_eventPool (delete (prop_name (sid echoMsg)) (eventPool c)) c);
  do c <- me;
  match echoFunc c with
  | Some h =>
      run call SEcho (ATxn None (l_sid l) echoMsg);
      match h with Manager => _unregSendId (l_sid l) | Observer => ret tt end
  | None => ret tt
  end.

Fixpoint emit_echo (ls : list Listener) (echoMsg : Msg) : Meth unit :=
  match ls with
  | [] => ret tt
  | l :: ls' => run on_echo l echoMsg; emit_echo ls' echoMsg
  end.

Definition directSend (msg : Msg) : Meth unit := _send msg None None.

Definition echoMsg (msg : Msg) : Meth unit :=
  let s := prop_name (sid msg) in
  do c <- me;
  match eventPool c !! s with
  | Some echoEvent => emit_echo echoEvent msg
  | None => emit (ConsoleLog ["event for"; s; "not found"])
  end.

Definition pongMsg (msg : Msg) (contentType : option string) : Meth unit :=
  run (if positive_interval (interval msg)
       then on_this (set_loopTimeout (default 0 (interval msg) * 2000))
       else ret tt);
  run _send msg (Some "") contentType;
  do c <- me;
  run _setTimeOut (loopTimeout c);
  do c <- me;
  match hbFunc c with
  | Some h =>
      run call SHeart ANothing;
      match h with Manager => refresh_alive | Observer => ret tt end
  | None => ret tt
  end.

Definition del : Meth unit :=
  do c <- me;
  if closeFlag c then
    emit (ConsoleWarn "Compel close duplicate, last close reason" (closeReason c))
  else
    run on_this (set_closeFlag true);
    run on_this (set_closeReason (Some CLOSE_COMPEL));
    run _close None;
    _remove.

(** ** The object store, the runtime and the manager *)

Record World := mkWorld { heap : gmap ref Comet; wenv : Env }.

Definition empty_env : Env :=
  {| comets := ∅; sendIds := ∅; keyMap := ∅; timers := ∅; last_timer := 0%nat;
     now := 0; trace := [] |}.
Definition empty_world : World := {| heap := ∅; wenv := empty_env |}.

Definition store_back (r : ref) (w : World) (f : Frame) : World :=
  mkWorld (<[r := this f]> (heap w)) (env f).

(** A method call on the object [r]. *)
Definition invoke {A} (r : ref) (m : Meth A) : SE World A := fun w =>
  match heap w !! r with
  | None => Thrown (TypeError "Cannot read property of undefined") w
  | Some c =>
      match m (mkFrame r c (wenv w)) with
      | Normal a f => Normal a (store_back r w f)
      | Thrown e f => Thrown e (store_back r w f)
      end
  end.

(** [new Comet(...)]: a fresh object. *)
Definition new (c : Comet) : SE World ref := fun w =>
  let r := fresh (dom (heap w)) in
  Normal r (mkWorld (<[r := c]> (heap w)) (wenv w)).

(** The runtime lets the pending timer [h] expire. *)
Definition fire (h : nat) : SE World unit := fun w =>
  match timers (wenv w) !! h with
  | None => Normal tt w
  | Some t =>
      invoke (t_self t) on_timeout
        (mkWorld (heap w) (set_timers (delete h (timers (wenv w))) (wenv w)))
  end.

Fixpoint times (n : nat) (m : Meth unit) : Meth unit :=
  match n with
  | O => ret tt
  | S n' => run m; times n' m
  end.

(** The transport reports that the peer went away: [resp] emits ['close']
    to the listeners [start] has put on it. *)
Definition peer_close (r : ref) : SE World unit :=
  invoke r (do c <- me; times (respListeners c) on_peer_close).

Definition wire : Comet -> Comet :=
  fun c => onHeart (Some Manager) (onRemove (Some Manager)
             (onEcho (Some Manager) (onSend (Some Manager) c))).

(** [uuid] is what [uuid.v4()] yields if the constructor asks for it. *)
Definition createComet (cid : option string) (uuid : string) : SE World ref :=
  let given := match cid with Some i => truthy i | None => false end in
  let i := match cid with Some i => if truthy i then i else uuid | None => uuid end in
  run (if given then
         do cs <- gets (fun w => comets (wenv w));
         match cs !! i with
         | Some old => invoke old del
         | None => ret tt
         end
       else ret tt);
  do r <- new (new_Comet i);
  run modify (fun w => mkWorld (heap w) (set_comets (<[i := r]> (comets (wenv w))) (wenv w)));
  run invoke r (on_this wire);
  ret r.

Definition getComet (cid : string) (w : World) : option ref :=
  comets (wenv w) !! cid.

Definition getCometBySendId (s : string) (w : World) : option ref :=
  match sendIds (wenv w) !! s with
  | Some cid => if truthy cid then comets (wenv w) !! cid else None
  | None => None
  end.

Definition mapComet (k cid : string) : SE World unit := fun w =>
  let e := wenv w in
  let elem :=
    match keyMap e !! k with
    | Some rec => mkKeyRec cid (visits rec + 1) (now e) (alive rec)
    | None => mkKeyRec cid (0 + 1) (now e) (now e)
    end in
  let e' := set_keyMap (<[k := elem]> (keyMap e)) e in
  match comets e !! cid with
  | Some r =>
      match invoke r (on_this (set_key (Some k))) (mkWorld (heap w) e') with
      | Normal _ w' => Normal tt w'
      | Thrown x w' => Thrown x w'
      end
  | None => Normal tt (mkWorld (heap w) e')
  end.

(** ** The manager's queries *)

(** What a query hands back: [null], [undefined] or an object. *)
Inductive Found := FoundNull | FoundUndefined | FoundObject (r : ref).

Definition found (o : option ref) : Found :=
  match o with Some r => FoundObject r | None => FoundUndefined end.

(** [findComet] returns its value and what it has written with
    [console.error]. *)
Definition findComet (k : string) (w : World) : Found * list (list string) :=
  match keyMap (wenv w) !! k with
  | None => (FoundNull, [["Can not find comet from key"; k]])
  | Some elem => (found (comets (wenv w) !! k_cid elem), [])
  end.

(** The two counting loops: one [count++] for every property. *)
Definition getCometsCountLive (w : World) : nat :=
  map_fold (fun _ _ count => S count) 0%nat (comets (wenv w)).

Definition getCometsCountVisit (w : World) : nat :=
  map_fold (fun _ _ count => S count) 0%nat (keyMap (wenv w)).

(** An entry of the list [getCometsExp] returns; a property that was not
    set is [None]. *)
Record Exp := mkExp {
  exp_cid : string;
  exp_key : option string;
  exp_idle : option Z;
  exp_info : string
}.

(** The body of the loop of [getCometsExp] for the connection [c] stored
    under [cid]: the entry it pushes, if it pushes one. *)
Definition exp_entry (e : Env) (cid : string) (c : Comet) : option Exp :=
  match key c with
  | Some k =>
      if truthy k then
        match keyMap e !! k with
        | None => Some (mkExp cid (Some k) None "comet object has no key map")
        | Some elem =>
            let idle := now e - alive elem in
            if 60 * 1000 <? idle
            then Some (mkExp cid (Some k) (Some idle)
                         ("comet object idle than " +:+ decimal (Z.to_nat idle) +:+ "ms"))
            else None
        end
      else Some (mkExp cid None None "comet object has no key record")
  | None => Some (mkExp cid None None "comet object has no key record")
  end.

(** [getCometsExp] over the entries [(cid, r)] of [comets]; [None] is the
    TypeError of reading [key] off a missing object.  The list comes in the
    order of [map_to_list], not in the order of insertion of the
    [for ... in] loop. *)
Fixpoint exp_loop (w : World) (entries : list (string * ref)) : option (list Exp) :=
  match entries with
  | [] => Some []
  | (cid, r) :: rest =>
      match heap w !! r with
      | None => None
      | Some c =>
          match exp_loop w rest with
          | None => None
          | Some exps =>
              Some (match exp_entry (wenv w) cid c with
                    | Some x => x :: exps
                    | None => exps
                    end)
          end
      end
  end.

Definition getCometsExp (w : World) : option (list Exp) :=
  exp_loop w (map_to_list (comets (wenv w))).

(** ** Runs

    One operation per turn of the event loop.  A turn that throws ends
    there; the next turn starts from the state it left. *)

Inductive Op :=
| OStart (r : ref)
| OSendMsg (r : ref) (msg : Msg) (contentType : option string) (echoCb : bool) (uuid : string)
| ODirectSend (r : ref) (msg : Msg)
| OEchoMsg (r : ref) (msg : Msg)
| OPongMsg (r : ref) (msg : Msg) (contentType : option string)
| ODel (r : ref)
| OOnClose (r : ref) (cb : bool)
| OOnError (r : ref) (cb : bool)
| OOnSend (r : ref) (cb : option Hook)
| OOnEcho (r : ref) (cb : option Hook)
| OOnRemove (r : ref) (cb : option Hook)
| OOnHeart (r : ref) (cb : option Hook)
| OOnPack (r : ref) (cb : option (string -> PackReply))
| OPeerClose (r : ref)
| OFire (h : nat)
| OCreateComet (cid : option string) (uuid : string)
| OMapComet (k cid : string)
| OTick (d : Z).

Definition step (o : Op) : SE World unit :=
  match o with
  | OStart r => invoke r start
  | OSendMsg r msg ct cb uuid => invoke r (sendMsg msg ct cb uuid)
  | ODirectSend r msg => invoke r (directSend msg)
  | OEchoMsg r msg => invoke r (echoMsg msg)
  | OPongMsg r msg ct => invoke r (pongMsg msg ct)
  | ODel r => invoke r del
  | OOnClose r cb => invoke r (on_this (onClose cb))
  | OOnError r cb => invoke r (on_this (onError cb))
  | OOnSend r cb => invoke r (on_this (onSend cb))
  | OOnEcho r cb => invoke r (on_this (onEcho cb))
  | OOnRemove r cb => invoke r (on_this (onRemove cb))
  | OOnHeart r cb => invoke r (on_this (onHeart cb))
  | OOnPack r cb => invoke r (on_this (onPack cb))
  | OPeerClose r => peer_close r
  | OFire h => fire h
  | OCreateComet cid uuid => run createComet cid uuid; ret tt
  | OMapComet k cid => mapComet k cid
  | OTick d => modify (fun w => mkWorld (heap w) (set_now (now (wenv w) + d) (wenv w)))
  end.

Fixpoint steps (os : list Op) (w : World) : World :=
  match os with
  | [] => w
  | o :: os' => steps os' (final (step o w))
  end.

(** ** The payload transform

    The payload the transform hands back for the JSON text, when it does
    hand one back to a callback that can write it. *)
Definition delivered (c : Comet) (msgStr : string) : option string :=
  match impl with
  | WithAes => Some (aesEnc msgStr)
  | WithPackHook =>
      match pkFunc c with
      | None => Some msgStr
      | Some hook =>
          match hook msgStr with
          | PackCall Bound None data => Some data
          | _ => None
          end
      end
  end.

(** The record of the call of the pack hook, if there is one to call. *)
Definition pack_note (r : ref) (c : Comet) (msgStr : string) : list Event :=
  match impl, pkFunc c with
  | WithPackHook, Some _ => [Called r SPack (AText msgStr) c]
  | _, _ => []
  end.

End Connection.

(** * Vocabulary of the properties *)

(** ** Callback records *)

Definition is_call (r : ref) (slot : Slot) (ev : Event) : bool :=
  match ev with
  | Called r' slot' _ _ =>
      Nat.eqb r r' &&
      match slot, slot' with
      | SClose, SClose | SError, SError | SSend, SSend | SEcho, SEcho
      | SRemove, SRemove | SHeart, SHeart | SPack, SPack | SEchoCb, SEchoCb => true
      | _, _ => false
      end
  | _ => false
  end.

(** How often the callback in [slot] of the object [r] was called. *)
Fixpoint calls (r : ref) (slot : Slot) (evs : list Event) : nat :=
  match evs with
  | [] => 0%nat
  | ev :: evs' => ((if is_call r slot ev then 1 else 0) + calls r slot evs')%nat
  end.

(** Callback records carry the receiver they were made on. *)
Definition own (r : ref) (ev : Event) : Prop :=
  match ev with Called r' _ _ _ => r' = r | _ => True end.

(** The two callbacks of a close. *)
Definition closing (ev : Event) : bool :=
  match ev with
  | Called _ SClose _ _ | Called _ SRemove _ _ => true
  | _ => false
  end.

Definition quiet (r : ref) (ev : Event) : Prop := own r ev /\ closing ev = false.

(** ** Footprints of methods *)

(** [emits P m]: whatever its outcome, [m] keeps the receiver's reference
    and only appends events that satisfy [P]. *)
Definition emits {A} (P : ref -> Event -> Prop) (m : Meth A) : Prop :=
  forall f, exists evs,
    self_ref (final (m f)) = self_ref f /\
    trace (env (final (m f))) = app (trace (env f)) evs /\
    Forall (P (self_ref f)) evs.

(** [keeps g m]: whatever its outcome, [m] leaves the field [g] alone. *)
Definition keeps {A X} (g : Comet -> X) (m : Meth A) : Prop :=
  forall f, g (this (final (m f))) = g (this f).

(** The two fields a close writes, and with them the liveness window. *)
Definition close_state (c : Comet) : bool * option Code := (closeFlag c, closeReason c).

Definition settled (c : Comet) : bool * option Code * Z := (close_state c, loopTimeout c).

(** ** Closed connections and close triggers *)

Definition peer_warning (reason : option Code) : Event :=
  ConsoleWarn "peer close duplicate, last close reason" reason.

Definition timeout_warning (reason : option Code) : Event :=
  ConsoleWarn "Timeout close duplicate, last close reason" reason.

Definition del_warning (reason : option Code) : Event :=
  ConsoleWarn "Compel close duplicate, last close reason" reason.

Definition warned (ev : Event) (f : Frame) : Frame :=
  mkFrame (self_ref f) (this f) (log ev (env f)).

(** A method is harmless on a closed receiver when it leaves [closeFlag]
    and [closeReason] as they are and calls neither the close nor the
    removal callback. *)
Definition harmless {A} (m : Meth A) : Prop :=
  forall f, closeFlag (this f) = true ->
    close_state (this (final (m f))) = close_state (this f) /\
    exists evs, trace (env (final (m f))) = app (trace (env f)) evs /\
                Forall (fun ev => closing ev = false) evs.

(** [preserves I m]: whatever its outcome, [m] takes a world in [I] to a
    world in [I]. *)
Definition preserves {A} (I : World -> Prop) (m : SE World A) : Prop :=
  forall w, I w -> I (final (m w)).

(** The object [r] is closed for [reason], and its close and removal
    callbacks have been called [n1] and [n2] times. *)
Definition closed_as (r : ref) (reason : option Code) (n1 n2 : nat) (w : World) : Prop :=
  exists c, heap w !! r = Some c /\ closeFlag c = true /\ closeReason c = reason /\
            calls r SClose (trace (wenv w)) = n1 /\
            calls r SRemove (trace (wenv w)) = n2.

Inductive Trigger := PeerDisconnect | TimerExpiry | ExplicitDel.

(** What each trigger runs on the connection. *)
Definition trigger (t : Trigger) : Meth unit :=
  match t with
  | PeerDisconnect => on_peer_close
  | TimerExpiry => on_timeout
  | ExplicitDel => del
  end.

Definition reason_of (t : Trigger) : Code :=
  match t with
  | PeerDisconnect => CLOSE_PEER
  | TimerExpiry => CLOSE_TIMEOUT
  | ExplicitDel => CLOSE_COMPEL
  end.

Definition duplicate_warning (t : Trigger) (reason : option Code) : Event :=
  match t with
  | PeerDisconnect => peer_warning reason
  | TimerExpiry => timeout_warning reason
  | ExplicitDel => del_warning reason
  end.

(** ** Frames *)

(** The frame as the specification lays it out, line by line. *)
Definition spec_frame (prefix contentType payload : string) : string :=
  prefix +:+
  ("Content-Type: " +:+ contentType +:+ CRLF) +:+
  ("Content-Length: " +:+ decimal (String.length payload) +:+ CRLF) +:+
  CRLF +:+
  payload +:+
  (CRLF +:+ "--ctalk_boundary").

(** The same with the two further header lines of the file that uses
    [aes.aesEnc]. *)
Definition spec_frame_aes (prefix contentType payload : string) : string :=
  prefix +:+
  ("Content-Type: " +:+ contentType +:+ CRLF) +:+
  ("Content-Length: " +:+ decimal (String.length payload) +:+ CRLF) +:+
  ("X-Address: " +:+ CRLF) +:+
  ("X-Remote-Address: " +:+ CRLF) +:+
  CRLF +:+
  payload +:+
  (CRLF +:+ "--ctalk_boundary").

Definition frame_of (impl : Impl) : string -> string -> string -> string :=
  match impl with WithPackHook => spec_frame | WithAes => spec_frame_aes end.

Definition default_prefix (prefix : option string) : string :=
  match prefix with Some p => p | None => "" end.

Definition default_type (contentType : option string) : string :=
  match contentType with
  | Some t => if truthy t then t else SEND_CONTENT_TYPE_APP
  | None => SEND_CONTENT_TYPE_APP
  end.

(** ** Transactions *)

(** What the function in the [sendFunc] slot does to the manager. *)
Definition registered (c : Comet) (s : string) (e : Env) : Env :=
  match sendFunc c with
  | Some Manager => set_sendIds (<[s := comet_id c]> (sendIds e)) e
  | _ => e
  end.

(** The receiver with the waiter of transaction [s] in place. *)
Definition waiting (cb : bool) (s : string) (c : Comet) : Comet :=
  set_eventPool (<[s := [mkListener cb s]]> (eventPool c)) c.

(** The receiver with the waiter of transaction [s] gone. *)
Definition resolved (s : string) (c : Comet) : Comet :=
  set_eventPool (delete s (eventPool c)) c.

(** What the function in the [echoFunc] slot adds to the trace and does to
    the manager, after the caller's echo callback. *)
Definition echo_notes (r : ref) (s : string) (m : Msg) (c : Comet) (e : Env) : list Event :=
  match echoFunc c with
  | Some Observer => [Called r SEcho (ATxn None s m) (resolved s c)]
  | Some Manager =>
      [Called r SEcho (ATxn None s m) (resolved s c);
       ConsoleLog ["comet:"; prop_name (sendIds e !! s); "remove sender"; s]]
  | None => []
  end.

Definition unregistered (s : string) (c : Comet) (e : Env) : Env :=
  match echoFunc c with
  | Some Manager => set_sendIds (delete s (sendIds e)) e
  | _ => e
  end.

(** ** The liveness timer and heartbeats *)

(** The receiver after the timer callback has closed it. *)
Definition timed_out (c : Comet) : Comet :=
  set_timeId 0 (set_closeReason (Some CLOSE_TIMEOUT) (set_closeFlag true c)).

Definition error_note (r : ref) (c : Comet) : list Event :=
  if errFunc c then [Called r SError (AError "Get next ping timeout.") c] else [].

Definition remove_note (r : ref) (c : Comet) : list Event :=
  match rmFunc c with
  | Some _ => [Called r SRemove (ARemove (comet_id c)) c]
  | None => []
  end.

(** The pending timers once the one recorded in [timeId] is cleared. *)
Definition cleared (c : Comet) (ts : gmap nat Timer) : gmap nat Timer :=
  if Nat.eqb (timeId c) 0 then ts else delete (timeId c) ts.

Definition heart_note (r : ref) (c : Comet) : list Event :=
  match hbFunc c with
  | Some _ => [Called r SHeart ANothing c]
  | None => []
  end.

(** The key [mapComet] has put on the connection has its record. *)
Definition heart_safe (c : Comet) (e : Env) : Prop :=
  match hbFunc c, key c with
  | Some Manager, Some k => truthy k = true -> is_Some (keyMap e !! k)
  | _, _ => True
  end.

(** [pongMsg] from the re-arming of the timer on. *)
Definition pong_tail : Meth unit :=
  do c <- me;
  run _setTimeOut (loopTimeout c);
  do c <- me;
  match hbFunc c with
  | Some h =>
      run call SHeart ANothing;
      match h with Manager => refresh_alive | Observer => ret tt end
  | None => ret tt
  end.

(** The window [pongMsg] leaves in [loopTimeout]. *)
Definition next_window (m : Msg) (prev : Z) : Z :=
  if positive_interval (interval m) then default 0 (interval m) * 2000 else prev.

(** The receiver once [pongMsg] has taken the interval of the ping. *)
Definition paced (m : Msg) (c : Comet) : Comet :=
  if positive_interval (interval m)
  then set_loopTimeout (default 0 (interval m) * 2000) c
  else c.

Definition window_step (r : ref) (T : Z) (o : Op) : Z :=
  match o with
  | OPongMsg r' m _ => if Nat.eqb r' r then next_window m T else T
  | _ => T
  end.

(** The window of [r] after the operations [os], started from [T]. *)
Definition window (r : ref) (os : list Op) (T : Z) : Z := fold_left (window_step r) os T.

(** An operation that is not a heartbeat on [r] with a positive interval. *)
Definition no_positive_ping (r : ref) (o : Op) : Prop :=
  match o with
  | OPongMsg r' m _ => r' = r -> positive_interval (interval m) = false
  | _ => True
  end.

Definition has_window (r : ref) (T : Z) (w : World) : Prop :=
  exists c, heap w !! r = Some c /\ loopTimeout c = T.

(** ** Replacement *)

(** The receiver after [del] has closed it. *)
Definition compelled (c : Comet) : Comet :=
  set_closeReason (Some CLOSE_COMPEL) (set_closeFlag true c).

Definition deleted (cid : string) (e : Env) : Env :=
  set_sendIds (filter (fun kv => kv.2 <> cid) (sendIds e))
    (set_comets (delete cid (comets e)) e).

(** ** Sample runs *)

Definition sample_json : Msg -> string := fun _ => "{}".

Definition sample_enc : string -> string := fun s => s.

(** A manager-made connection [a] with a close callback. *)
Definition sample_world : World :=
  steps WithPackHook sample_json sample_enc
    [OCreateComet (Some "a") "u0"; OOnClose 0%nat true] empty_world.

Definition sample_comet : Comet := onClose true (wire (new_Comet "a")).

(** The same, started. *)
Definition started_world : World :=
  steps WithPackHook sample_json sample_enc [OStart 0%nat] sample_world.

Definition started_comet : Comet :=
  set_timeId 1 (set_respListeners 1 sample_comet).

Definition ping5 : Msg := mkMsg None (Some 5) [].

Definition ponged_world : World :=
  final (step WithPackHook sample_json sample_enc (OPongMsg 0%nat ping5 None) started_world).

Definition plain_msg : Msg := mkMsg None None [("x", "1")].

Definition echo_s1 : Msg := mkMsg (Some "s1") None [("y", "2")].

Definition sent_world : World :=
  final (invoke 0%nat (sendMsg WithPackHook sample_json sample_enc plain_msg None true "s1")
           sample_world).

Definition fresh_frame : Frame := mkFrame 0%nat (new_Comet "a") empty_env.

Definition sent_frame : Frame :=
  final (sendMsg WithPackHook sample_json sample_enc plain_msg None true "s1" fresh_frame).

Definition observed_frame : Frame :=
  mkFrame 0%nat (onEcho (Some Observer) (new_Comet "a")) empty_env.

Definition observed_sent : Frame :=
  final (sendMsg WithPackHook sample_json sample_enc plain_msg None true "s1" observed_frame).

(** The sample connection after [del]. *)
Definition closed_world : World :=
  steps WithPackHook sample_json sample_enc [ODel 0%nat] sample_world.

(** The manager's first connection, as [createComet] leaves it. *)
Definition created_world : World :=
  final (createComet (Some "a") "u0" empty_world).

Definition bare_comet : Comet := wire (new_Comet "a").

(** The same, started. *)
Definition bare_started_world : World :=
  steps WithPackHook sample_json sample_enc [OStart 0%nat] created_world.

Definition bare_started_comet : Comet :=
  set_timeId 1 (set_respListeners 1 bare_comet).

(** The sample connection with the key [k] bound to it. *)
Definition keyed_world : World :=
  steps WithPackHook sample_json sample_enc [OMapComet "k" "a"] sample_world.

Definition keyed_comet : Comet := set_key (Some "k") sample_comet.

(** The same after a heartbeat. *)
Definition beaten_world : World :=
  final (invoke 0%nat (pongMsg WithPackHook sample_json sample_enc ping5 None) keyed_world).

(** The same, 60001 ms after the key was bound, with no heartbeat. *)
Definition stale_world : World :=
  steps WithPackHook sample_json sample_enc [OTick 60001] keyed_world.

(** A pack hook that hands its input back, calling the callback as a plain
    function. *)
Definition plain_hook : string -> PackReply := fun s => PackCall Unbound None s.

Definition hooked_frame : Frame :=
  mkFrame 0%nat (onPack (Some plain_hook) (new_Comet "a")) empty_env.

(** A pack hook that reports an error, calling the callback as a method of
    the connection. *)
Definition failing_hook : string -> PackReply := fun _ => PackCall Bound (Some "no") "".

Definition failing_frame : Frame :=
  mkFrame 0%nat (onPack (Some failing_hook) (new_Comet "a")) empty_env.

(** A transaction sent without an echo callback. *)
Definition unheard_frame : Frame :=
  final (sendMsg WithPackHook sample_json sample_enc plain_msg None false "s1" fresh_frame).

(** ** The key table *)

(** The record [mapComet] leaves under the key [k]. *)
Definition visited (k cid : string) (e : Env) : KeyRec :=
  match keyMap e !! k with
  | Some rec => mkKeyRec cid (visits rec + 1) (now e) (alive rec)
  | None => mkKeyRec cid (0 + 1) (now e) (now e)
  end.

(** The object store once [mapComet] has put the key on the connection
    stored under [cid], if there is one. *)
Definition stamped (k cid : string) (w : World) : gmap ref Comet :=
  match comets (wenv w) !! cid with
  | Some r =>
      match heap w !! r with
      | Some c => <[r := set_key (Some k) c]> (heap w)
      | None => heap w
      end
  | None => heap w
  end.

(** [Date.now()] moves on by [d]. *)
Definition tick (d : Z) (w : World) : World :=
  mkWorld (heap w) (set_now (now (wenv w) + d) (wenv w)).

(** ** Invariants of runs *)

(** The two fields that tie a connection to the manager's tables. *)
Definition ident (c : Comet) : string * option string := (comet_id c, key c).

(** What a method may do to the manager's tables: keys are never removed
    from [keyMap], nothing is added to [comets], the clock is not moved. *)
Definition env_le (e e' : Env) : Prop :=
  (forall k, is_Some (keyMap e !! k) -> is_Some (keyMap e' !! k)) /\
  (forall i r, comets e' !! i = Some r -> comets e !! i = Some r) /\
  now e' = now e.

Definition tends {A} (m : Meth A) : Prop :=
  forall f, env_le (env f) (env (final (m f))).

(** The key on a connection has its record in [keyMap]. *)
Definition well_keyed (w : World) : Prop :=
  forall r c k, heap w !! r = Some c -> key c = Some k -> is_Some (keyMap (wenv w) !! k).

(** An entry of [comets] leads to an object with that id. *)
Definition well_indexed (w : World) : Prop :=
  forall i r, comets (wenv w) !! i = Some r ->
    exists c, heap w !! r = Some c /\ comet_id c = i.

Definition well_formed (w : World) : Prop := well_keyed w /\ well_indexed w.

(** ** Pending timers *)

(** Seen from a method call: no pending timer has the handle 0, and a
    pending timer of the receiver is the one recorded in its [timeId]. *)
Definition tidy (f : Frame) : Prop :=
  forall h t, timers (env f) !! h = Some t ->
    h <> 0%nat /\ (t_self t = self_ref f -> timeId (this f) = h).

(** [minds m]: whatever its outcome, [m] keeps the timers tidy and leaves
    the timers of the other connections alone. *)
Definition minds {A} (m : Meth A) : Prop :=
  forall f, tidy f ->
    self_ref (final (m f)) = self_ref f /\
    tidy (final (m f)) /\
    forall h t, timers (env (final (m f))) !! h = Some t -> t_self t <> self_ref f ->
                timers (env f) !! h = Some t.

(** Every pending timer is the one recorded in [timeId] of its
    connection. *)
Definition well_timed (w : World) : Prop :=
  forall h t, timers (wenv w) !! h = Some t ->
    h <> 0%nat /\ exists c, heap w !! t_self t = Some c /\ timeId c = h.

(** ** The close of a connection, counted *)

(** [once m]: on a live receiver, [m] calls the close callback and the
    removal callback at most once each, and not at all if it leaves the
    receiver live. *)
Definition once {A} (m : Meth A) : Prop :=
  forall f, closeFlag (this f) = false ->
    let r := self_ref f in
    let before := trace (env f) in
    let after := trace (env (final (m f))) in
    (calls r SClose after <= calls r SClose before + 1 /\
     calls r SRemove after <= calls r SRemove before + 1)%nat /\
    (closeFlag (this (final (m f))) = false ->
     calls r SClose after = calls r SClose before /\
     calls r SRemove after = calls r SRemove before).

(** No connection has had its close callback or its removal callback
    called twice, and a live one has had neither called. *)
Definition closes_once (w : World) : Prop :=
  forall r,
    (calls r SClose (trace (wenv w)) <= 1 /\ calls r SRemove (trace (wenv w)) <= 1)%nat /\
    (match heap w !! r with Some c => closeFlag c = false | None => True end ->
     calls r SClose (trace (wenv w)) = 0%nat /\ calls r SRemove (trace (wenv w)) = 0%nat).

(** ** Peer close and removal *)

(** The receiver after the peer-close listener has closed it. *)
Definition peer_closed (c : Comet) : Comet :=
  set_timeId 0 (set_closeReason (Some CLOSE_PEER) (set_closeFlag true c)).

(** What the function in the [rmFunc] slot does to the manager. *)
Definition removed (c : Comet) (e : Env) : Env :=
  match rmFunc c with
  | Some Manager => deleted (comet_id c) e
  | _ => e
  end.

(** * Properties *)

(** ** What a method may do to the trace and to the receiver *)

Lemma logs_logs evs1 evs2 e : logs evs2 (logs evs1 e) = logs (app evs1 evs2) e.
Proof. destruct e; unfold logs; simpl. by rewrite app_assoc. Qed.

Lemma logs_nil e : logs [] e = e.
Proof. destruct e; unfold logs; simpl. by rewrite app_nil_r. Qed.

Lemma emits_weaken {A} (P Q : ref -> Event -> Prop) (m : Meth A) :
  (forall r ev, P r ev -> Q r ev) -> emits P m -> emits Q m.
Proof.
  intros HPQ Hm f. destruct (Hm f) as (evs & ? & ? & Hall).
  exists evs. repeat split; try done.
  eapply Forall_impl; [exact Hall | auto].
Qed.

Lemma emits_bind {A B} P (m : Meth A) (k : A -> Meth B) :
  emits P m -> (forall a, emits P (k a)) -> emits P (bind m k).
Proof.
  intros Hm Hk f. destruct (Hm f) as (evs1 & Hr1 & Ht1 & Hall1).
  unfold bind. destruct (m f) as [a s|x s]; simpl in *.
  - destruct (Hk a s) as (evs2 & Hr2 & Ht2 & Hall2).
    exists (app evs1 evs2). rewrite Hr2, Ht2, Ht1, Hr1, app_assoc.
    repeat split; try done. apply Forall_app; split; [done|].
    by rewrite <- Hr1.
  - by exists evs1.
Qed.

Lemma emits_nothing {A} P (m : Meth A) :
  (forall f, self_ref (final (m f)) = self_ref f /\
             trace (env (final (m f))) = trace (env f)) ->
  emits P m.
Proof.
  intros H f. destruct (H f) as [? Ht]. exists []. rewrite Ht, app_nil_r. by repeat split.
Qed.

Lemma emits_ret {A} P (a : A) : emits P (ret a).
Proof. by apply emits_nothing. Qed.
Lemma emits_throw {A} P x : emits P (@throw Frame A x).
Proof. by apply emits_nothing. Qed.
Lemma emits_gets {A} P (g : Frame -> A) : emits P (gets g).
Proof. by apply emits_nothing. Qed.
Lemma emits_on_this P g : emits P (on_this g).
Proof. by apply emits_nothing. Qed.
Lemma emits_on_env P g :
  (forall e, trace (g e) = trace e) -> emits P (on_env g).
Proof. intros H. apply emits_nothing. intros f; simpl. by rewrite H. Qed.

Lemma emits_emit P ev : (forall r, P r ev) -> emits P (emit ev).
Proof. intros H f. exists [ev]. simpl. repeat split; auto. Qed.

Lemma emits_call P slot a :
  (forall r c, P r (Called r slot a c)) -> emits P (call slot a).
Proof.
  intros H f. exists [Called (self_ref f) slot a (this f)]. simpl.
  repeat split; auto.
Qed.

Lemma keeps_bind {A B X} (g : Comet -> X) (m : Meth A) (k : A -> Meth B) :
  keeps g m -> (forall a, keeps g (k a)) -> keeps g (bind m k).
Proof.
  intros Hm Hk f. specialize (Hm f). unfold bind.
  destruct (m f) as [a s|x s]; simpl in *; [|done].
  by rewrite Hk.
Qed.

Lemma keeps_this {A X} (g : Comet -> X) (m : Meth A) :
  (forall f, this (final (m f)) = this f) -> keeps g m.
Proof. intros H f. by rewrite H. Qed.

Lemma keeps_ret {A X} (g : Comet -> X) (a : A) : keeps g (ret a).
Proof. done. Qed.
Lemma keeps_throw {A X} (g : Comet -> X) x : keeps g (@throw Frame A x).
Proof. done. Qed.
Lemma keeps_gets {A X} (g : Comet -> X) (h : Frame -> A) : keeps g (gets h).
Proof. done. Qed.
Lemma keeps_on_env {X} (g : Comet -> X) h : keeps g (on_env h).
Proof. done. Qed.
Lemma keeps_emit {X} (g : Comet -> X) ev : keeps g (emit ev).
Proof. done. Qed.
Lemma keeps_call {X} (g : Comet -> X) slot a : keeps g (call slot a).
Proof. done. Qed.
Lemma keeps_on_this {X} (g : Comet -> X) h :
  (forall c, g (h c) = g c) -> keeps g (on_this h).
Proof. intros H f. simpl. apply H. Qed.

Create HintDb meth.

Ltac meth_step :=
  first
    [ apply emits_call; intros; (reflexivity || (split; reflexivity))
    | apply keeps_call
    | solve [ auto with meth nocore ]
    | apply emits_bind; [| intros ? ]
    | apply emits_ret | apply emits_throw | apply emits_gets | apply emits_on_this
    | apply emits_on_env; intros []; reflexivity
    | apply emits_emit; intros; (exact I || (split; [exact I | reflexivity]))
    | apply keeps_bind; [| intros ? ]
    | apply keeps_ret | apply keeps_throw | apply keeps_gets | apply keeps_on_env
    | apply keeps_emit
    | apply keeps_on_this; intros; reflexivity
    | lazymatch goal with
      | |- emits _ (match ?x with _ => _ end) => destruct x
      | |- keeps _ (match ?x with _ => _ end) => destruct x
      end ].

Ltac meth_auto := cbv zeta; repeat meth_step.

Ltac open_send := unfold _send, pack_callback.
Ltac open_start := unfold start.
Ltac open_sendMsg := unfold sendMsg.
Ltac open_directSend := unfold directSend.
Ltac open_pongMsg := unfold pongMsg.
Ltac open_delivered := unfold delivered, pack_note.

Section Footprints.

Variable impl : Impl.
Variable JSON_stringify : Msg -> string.
Variable aesEnc : string -> string.

Abbreviation _send := (_send impl JSON_stringify aesEnc).
Abbreviation start := (start impl JSON_stringify aesEnc).
Abbreviation sendMsg := (sendMsg impl JSON_stringify aesEnc).
Abbreviation directSend := (directSend impl JSON_stringify aesEnc).
Abbreviation pongMsg := (pongMsg impl JSON_stringify aesEnc).

Lemma quiet_own {A} (m : Meth A) : emits quiet m -> emits own m.
Proof. apply emits_weaken. by intros r ev [? _]. Qed.

Lemma _send_quiet msg p ct : emits quiet (_send msg p ct).
Proof. open_send. unfold me. meth_auto. Qed.
Hint Resolve _send_quiet : meth.

Lemma _error_quiet err : emits quiet (_error err).
Proof. unfold _error, me. meth_auto. Qed.
Hint Resolve _error_quiet : meth.

Lemma _setTimeOut_quiet msec : emits quiet (_setTimeOut msec).
Proof. unfold _setTimeOut, setTimeout, clearTimeout, me. meth_auto. Qed.
Hint Resolve _setTimeOut_quiet : meth.

Lemma _regSendId_quiet cid s : emits quiet (_regSendId cid s).
Proof. unfold _regSendId. meth_auto. Qed.
Lemma _unregSendId_quiet s : emits quiet (_unregSendId s).
Proof. unfold _unregSendId. meth_auto. Qed.
Lemma refresh_alive_quiet : emits quiet refresh_alive.
Proof. unfold refresh_alive, me. meth_auto. Qed.
Hint Resolve _regSendId_quiet _unregSendId_quiet refresh_alive_quiet : meth.

Lemma start_quiet : emits quiet start.
Proof. open_start. unfold me. meth_auto. Qed.

Lemma sendMsg_quiet msg ct cb uuid : emits quiet (sendMsg msg ct cb uuid).
Proof. open_sendMsg. unfold me. meth_auto. Qed.

Lemma directSend_quiet msg : emits quiet (directSend msg).
Proof. open_directSend. meth_auto. Qed.

Lemma on_echo_quiet l m : emits quiet (on_echo l m).
Proof. unfold on_echo, me. meth_auto. Qed.
Hint Resolve on_echo_quiet : meth.

Lemma emit_echo_quiet ls m : emits quiet (emit_echo ls m).
Proof. induction ls as [|l ls IH]; simpl; meth_auto. Qed.
Hint Resolve emit_echo_quiet : meth.

Lemma echoMsg_quiet m : emits quiet (echoMsg m).
Proof. unfold echoMsg, me. meth_auto. Qed.

Lemma pongMsg_quiet m ct : emits quiet (pongMsg m ct).
Proof. open_pongMsg. unfold me. meth_auto. Qed.

Hint Resolve start_quiet sendMsg_quiet directSend_quiet echoMsg_quiet pongMsg_quiet : meth.

(** The three close paths are not quiet, but they too only make records
    of their own receiver. *)
Lemma _close_own reason : emits own (_close reason).
Proof. unfold _close, me. meth_auto. Qed.
Lemma _deleteComet_own cid : emits own (_deleteComet cid).
Proof. unfold _deleteComet. meth_auto. Qed.
Hint Resolve _close_own _deleteComet_own : meth.
Lemma _remove_own : emits own _remove.
Proof. unfold _remove, clearTimeout, me. meth_auto. Qed.
Hint Resolve _remove_own : meth.
Lemma del_own : emits own del.
Proof. unfold del, me. meth_auto. Qed.
Lemma on_timeout_own : emits own on_timeout.
Proof. unfold on_timeout, me. meth_auto. Qed.
Lemma on_peer_close_own : emits own on_peer_close.
Proof. unfold on_peer_close, me. meth_auto. Qed.
Hint Resolve del_own on_timeout_own on_peer_close_own : meth.
Lemma times_own n (m : Meth unit) : emits own m -> emits own (times n m).
Proof. intros H. induction n; simpl; meth_auto. Qed.

Lemma _send_this msg p ct f : this (final (_send msg p ct f)) = this f.
Proof.
  open_send. unfold me, call, emit, on_env, bind, gets, modify, throw, ret.
  destruct f as [r c e]; simpl.
  destruct impl; [|done].
  destruct (pkFunc c) as [hook|]; [|done]; simpl.
  destruct (hook _) as [|[] [] ?]; simpl; try done.
  by destruct (errFunc c).
Qed.

Lemma _send_keeps {X} (g : Comet -> X) msg p ct : keeps g (_send msg p ct).
Proof. apply keeps_this, _send_this. Qed.
Hint Resolve _send_keeps : meth.

Lemma _setTimeOut_keeps msec : keeps settled (_setTimeOut msec).
Proof. unfold _setTimeOut, setTimeout, clearTimeout, me. meth_auto. Qed.
Hint Resolve _setTimeOut_keeps : meth.

Lemma start_keeps : keeps settled start.
Proof. open_start. unfold me. meth_auto. Qed.
Lemma sendMsg_keeps msg ct cb uuid : keeps settled (sendMsg msg ct cb uuid).
Proof. open_sendMsg. unfold _regSendId, me. meth_auto. Qed.
Lemma directSend_keeps msg : keeps settled (directSend msg).
Proof. open_directSend. meth_auto. Qed.
Lemma on_echo_keeps l m : keeps settled (on_echo l m).
Proof. unfold on_echo, _unregSendId, me. meth_auto. Qed.
Hint Resolve on_echo_keeps : meth.
Lemma emit_echo_keeps ls m : keeps settled (emit_echo ls m).
Proof. induction ls as [|l ls IH]; simpl; meth_auto. Qed.
Hint Resolve emit_echo_keeps : meth.
Lemma echoMsg_keeps m : keeps settled (echoMsg m).
Proof. unfold echoMsg, me. meth_auto. Qed.

Lemma _setTimeOut_keeps_close msec : keeps close_state (_setTimeOut msec).
Proof. unfold _setTimeOut, setTimeout, clearTimeout, me. meth_auto. Qed.
Hint Resolve _setTimeOut_keeps_close : meth.
Lemma pongMsg_keeps m ct : keeps close_state (pongMsg m ct).
Proof. open_pongMsg. unfold refresh_alive, me. meth_auto. Qed.

Lemma _remove_keeps : keeps loopTimeout _remove.
Proof. unfold _remove, _deleteComet, clearTimeout, me. meth_auto. Qed.
Hint Resolve _remove_keeps : meth.
Lemma del_keeps : keeps loopTimeout del.
Proof. unfold del, _close, me. meth_auto. Qed.
Lemma on_timeout_keeps : keeps loopTimeout on_timeout.
Proof. unfold on_timeout, _close, _error, me. meth_auto. Qed.
Lemma on_peer_close_keeps : keeps loopTimeout on_peer_close.
Proof. unfold on_peer_close, me. meth_auto. Qed.
Lemma times_keeps {X} (g : Comet -> X) n (m : Meth unit) : keeps g m -> keeps g (times n m).
Proof. intros H. induction n; simpl; meth_auto. Qed.

End Footprints.

#[export] Hint Resolve _send_quiet _error_quiet _setTimeOut_quiet _regSendId_quiet
  _unregSendId_quiet refresh_alive_quiet start_quiet sendMsg_quiet directSend_quiet
  on_echo_quiet emit_echo_quiet echoMsg_quiet pongMsg_quiet _close_own _deleteComet_own
  _remove_own del_own on_timeout_own on_peer_close_own : meth.

(** ** Counting callback records *)

Lemma calls_app r slot evs1 evs2 :
  calls r slot (app evs1 evs2) = (calls r slot evs1 + calls r slot evs2)%nat.
Proof. induction evs1 as [|ev evs1 IH]; simpl; [done|]. rewrite IH. lia. Qed.

Lemma calls_other r r' slot evs :
  r <> r' -> Forall (own r') evs -> calls r slot evs = 0%nat.
Proof.
  intros Hne. induction 1 as [|ev evs Hev _ IH]; simpl; [done|].
  rewrite IH. destruct ev; simpl in *; try done. subst.
  destruct (Nat.eqb_spec r r'); [done|]. done.
Qed.

Lemma calls_not_closing r evs :
  Forall (fun ev => closing ev = false) evs ->
  calls r SClose evs = 0%nat /\ calls r SRemove evs = 0%nat.
Proof.
  induction 1 as [|ev evs Hev _ [IH1 IH2]]; simpl; [done|].
  rewrite IH1, IH2. destruct ev as [r' [] a c| | | | | |]; simpl in *; try done;
    by rewrite andb_false_r.
Qed.

(** ** Closed connections *)

Lemma del_closed f :
  closeFlag (this f) = true ->
  del f = Normal tt (warned (del_warning (closeReason (this f))) f).
Proof. intros H. unfold del, bind, me, gets. by rewrite H. Qed.

Lemma on_timeout_closed f :
  closeFlag (this f) = true ->
  on_timeout f = Normal tt (warned (timeout_warning (closeReason (this f))) f).
Proof. intros H. unfold on_timeout, bind, me, gets. by rewrite H. Qed.

Lemma on_peer_close_closed f :
  closeFlag (this f) = true ->
  on_peer_close f = Normal tt (warned (peer_warning (closeReason (this f))) f).
Proof. intros H. unfold on_peer_close, bind, me, gets. by rewrite H. Qed.

Lemma times_peer_closed n f :
  closeFlag (this f) = true ->
  times n on_peer_close f =
  Normal tt (mkFrame (self_ref f) (this f)
               (logs (replicate n (peer_warning (closeReason (this f)))) (env f))).
Proof.
  revert f. induction n as [|n IH]; intros f H; simpl.
  - unfold ret. rewrite logs_nil. by destruct f.
  - unfold bind. rewrite on_peer_close_closed by done. rewrite IH by done.
    simpl. unfold log. by rewrite logs_logs.
Qed.

Lemma quiet_harmless {A} (m : Meth A) :
  emits quiet m -> keeps close_state m -> harmless m.
Proof.
  intros He Hk f _. split; [apply Hk|].
  destruct (He f) as (evs & _ & Ht & Hall). exists evs. split; [done|].
  eapply Forall_impl; [exact Hall|]. by intros ev [_ ?].
Qed.

Lemma settled_close_state {A} (m : Meth A) : keeps settled m -> keeps close_state m.
Proof. intros H f. specialize (H f). unfold settled in H. congruence. Qed.

Lemma warned_harmless {A} (m : Meth A) :
  (forall f, closeFlag (this f) = true ->
     exists evs, final (m f) = mkFrame (self_ref f) (this f) (logs evs (env f)) /\
                 Forall (fun ev => closing ev = false) evs) ->
  harmless m.
Proof.
  intros H f Hc. destruct (H f Hc) as (evs & -> & Hall). simpl. split; [done|].
  by exists evs.
Qed.

Lemma del_harmless : harmless del.
Proof.
  apply warned_harmless. intros f Hc. rewrite del_closed by done.
  eexists [_]; split; [reflexivity|]. by repeat constructor.
Qed.

Lemma on_timeout_harmless : harmless on_timeout.
Proof.
  apply warned_harmless. intros f Hc. rewrite on_timeout_closed by done.
  eexists [_]; split; [reflexivity|]. by repeat constructor.
Qed.

Lemma peer_listeners_harmless :
  harmless (do c <- me; times (respListeners c) on_peer_close).
Proof.
  apply warned_harmless. intros f Hc. unfold bind, me, gets.
  rewrite times_peer_closed by done.
  eexists; split; [reflexivity|]. apply Forall_replicate. done.
Qed.

Lemma on_this_harmless g :
  (forall c, close_state (g c) = close_state c) -> harmless (on_this g).
Proof. intros H f _. simpl. split; [apply H|]. exists []. by rewrite app_nil_r. Qed.

(** ** Method calls on the object store *)

Lemma invoke_frame {A} r (m : Meth A) w c :
  heap w !! r = Some c ->
  invoke r m w =
  match m (mkFrame r c (wenv w)) with
  | Normal a f => Normal a (store_back r w f)
  | Thrown x f => Thrown x (store_back r w f)
  end.
Proof. intros H. unfold invoke. by rewrite H. Qed.

Lemma invoke_final {A} r (m : Meth A) w c :
  heap w !! r = Some c ->
  final (invoke r m w) = store_back r w (final (m (mkFrame r c (wenv w)))).
Proof. intros H. rewrite (invoke_frame _ _ _ _ H). by destruct (m _). Qed.

Lemma invoke_missing {A} r (m : Meth A) w :
  heap w !! r = None -> final (invoke r m w) = w.
Proof. intros H. unfold invoke. by rewrite H. Qed.

Lemma preserves_bind {A B} I (m : SE World A) (k : A -> SE World B) :
  preserves I m -> (forall a, preserves I (k a)) -> preserves I (bind m k).
Proof.
  intros Hm Hk w Hw. specialize (Hm w Hw). unfold bind.
  destruct (m w) as [a s|x s]; simpl in *; [by apply Hk|done].
Qed.

Lemma preserves_ret {A} I (a : A) : preserves I (ret a).
Proof. by intros w. Qed.

Lemma preserves_gets {A} I (g : World -> A) : preserves I (gets g).
Proof. by intros w. Qed.

Lemma closed_as_env r reason n1 n2 w e :
  trace e = trace (wenv w) ->
  closed_as r reason n1 n2 w -> closed_as r reason n1 n2 (mkWorld (heap w) e).
Proof. intros He (c & ? & ? & ? & ? & ?). exists c. simpl. by rewrite He. Qed.

Lemma invoke_closed {A} r reason n1 n2 r' (m : Meth A) :
  emits own m -> harmless m -> preserves (closed_as r reason n1 n2) (invoke r' m).
Proof.
  intros Hown Hharm w (c & Hc & Hflag & Hreason & Hn1 & Hn2).
  destruct (heap w !! r') as [c'|] eqn:Hc'; [|by rewrite invoke_missing; [exists c|]].
  rewrite (invoke_final _ _ _ _ Hc').
  destruct (Hown (mkFrame r' c' (wenv w))) as (evs & _ & Ht & Hall). simpl in *.
  destruct (decide (r' = r)) as [->|Hne].
  - assert (c' = c) as -> by congruence.
    destruct (Hharm (mkFrame r c (wenv w)) Hflag) as (Hcs & evs' & Ht' & Hquiet).
    simpl in *. exists (this (final (m (mkFrame r c (wenv w))))).
    unfold close_state in Hcs. injection Hcs as Hf Hr.
    unfold store_back; simpl. rewrite lookup_insert_eq.
    destruct (calls_not_closing r _ Hquiet) as [H1 H2].
    rewrite Ht', !calls_app, H1, H2.
    repeat split; try congruence; lia.
  - exists c. unfold store_back; simpl. rewrite lookup_insert_ne by done.
    rewrite Ht, !calls_app, !(calls_other r r' _ evs) by (done || congruence).
    repeat split; try done; lia.
Qed.

Lemma new_closed r reason n1 n2 c0 : preserves (closed_as r reason n1 n2) (new c0).
Proof.
  intros w (c & Hc & ?). exists c. unfold new; simpl. split; [|done].
  rewrite lookup_insert_ne; [done|]. intros Heq.
  assert (r ∈ dom (heap w)) as Hin by (apply elem_of_dom; eauto).
  rewrite <- Heq in Hin. by apply is_fresh in Hin.
Qed.

Lemma modify_env_closed r reason n1 n2 (g : Env -> Env) :
  (forall e, trace (g e) = trace e) ->
  preserves (closed_as r reason n1 n2) (modify (fun w => mkWorld (heap w) (g (wenv w)))).
Proof. intros Hg w Hw. simpl. by apply closed_as_env. Qed.

Section Forever.

Variable impl : Impl.
Variable JSON_stringify : Msg -> string.
Variable aesEnc : string -> string.

Abbreviation step := (step impl JSON_stringify aesEnc).
Abbreviation steps := (steps impl JSON_stringify aesEnc).

Lemma createComet_closed r reason n1 n2 cid uuid :
  preserves (closed_as r reason n1 n2) (createComet cid uuid).
Proof.
  unfold createComet. cbv zeta.
  apply preserves_bind.
  { destruct (match cid with Some i => truthy i | None => false end);
      [|apply preserves_ret].
    apply preserves_bind; [apply preserves_gets|]. intros cs.
    destruct (cs !! _); [|apply preserves_ret].
    apply invoke_closed; [apply del_own | apply del_harmless]. }
  intros _. apply preserves_bind; [apply new_closed|]. intros r'.
  apply preserves_bind.
  { apply (modify_env_closed _ _ _ _ (fun e => set_comets (<[_ := r']> (comets e)) e)).
    by intros []. }
  intros _.
  apply preserves_bind; [|intros; apply preserves_ret].
  apply invoke_closed; [apply emits_on_this | by apply on_this_harmless].
Qed.

Lemma mapComet_closed r reason n1 n2 k cid :
  preserves (closed_as r reason n1 n2) (mapComet k cid).
Proof.
  intros w Hw. unfold mapComet. cbv zeta.
  set (e' := set_keyMap _ (wenv w)).
  assert (closed_as r reason n1 n2 (mkWorld (heap w) e')) as Hw'.
  { apply closed_as_env; [|done]. subst e'. by destruct (wenv w). }
  destruct (comets (wenv w) !! cid) as [r'|]; [|done].
  pose proof (invoke_closed r reason n1 n2 r' (on_this (set_key (Some k)))
                (emits_on_this _ _) (on_this_harmless _ (fun _ => eq_refl)) _ Hw') as H.
  by destruct (invoke r' _ _).
Qed.

Lemma fire_closed r reason n1 n2 h : preserves (closed_as r reason n1 n2) (fire h).
Proof.
  intros w Hw. unfold fire. destruct (timers (wenv w) !! h) as [t|]; [|done].
  apply invoke_closed; [apply on_timeout_own | apply on_timeout_harmless |].
  apply closed_as_env; [|done]. by destruct (wenv w).
Qed.

(** Once closed, always closed: no operation reopens a connection, changes
    its close reason, or calls its close or removal callback again. *)
Lemma step_closed r reason n1 n2 o : preserves (closed_as r reason n1 n2) (step o).
Proof.
  destruct o; simpl.
  - apply invoke_closed; [apply quiet_own, start_quiet|].
    apply quiet_harmless; [apply start_quiet | apply settled_close_state, start_keeps].
  - apply invoke_closed; [apply quiet_own, sendMsg_quiet|].
    apply quiet_harmless; [apply sendMsg_quiet | apply settled_close_state, sendMsg_keeps].
  - apply invoke_closed; [apply quiet_own, directSend_quiet|].
    apply quiet_harmless; [apply directSend_quiet | apply settled_close_state, directSend_keeps].
  - apply invoke_closed; [apply quiet_own, echoMsg_quiet|].
    apply quiet_harmless; [apply echoMsg_quiet | apply settled_close_state, echoMsg_keeps].
  - apply invoke_closed; [apply quiet_own, pongMsg_quiet|].
    apply quiet_harmless; [apply pongMsg_quiet | apply pongMsg_keeps].
  - apply invoke_closed; [apply del_own | apply del_harmless].
  - apply invoke_closed; [apply emits_on_this | by apply on_this_harmless].
  - apply invoke_closed; [apply emits_on_this | by apply on_this_harmless].
  - apply invoke_closed; [apply emits_on_this | by apply on_this_harmless].
  - apply invoke_closed; [apply emits_on_this | by apply on_this_harmless].
  - apply invoke_closed; [apply emits_on_this | by apply on_this_harmless].
  - apply invoke_closed; [apply emits_on_this | by apply on_this_harmless].
  - apply invoke_closed; [apply emits_on_this | by apply on_this_harmless].
  - apply invoke_closed; [|apply peer_listeners_harmless].
    apply emits_bind; [apply emits_gets|]. intros c. apply times_own, on_peer_close_own.
  - apply fire_closed.
  - apply preserves_bind; [apply createComet_closed | intros; apply preserves_ret].
  - apply mapComet_closed.
  - apply (modify_env_closed _ _ _ _ (fun e => set_now (now e + d) e)). by intros [].
Qed.

Lemma steps_closed r reason n1 n2 os w :
  closed_as r reason n1 n2 w -> closed_as r reason n1 n2 (steps os w).
Proof.
  revert w. induction os as [|o os IH]; intros w Hw; simpl; [done|].
  by apply IH, step_closed.
Qed.

End Forever.

(** ** Close triggers *)

Ltac run_meth :=
  cbv beta iota zeta delta
    [trigger del on_timeout on_peer_close _close _error _remove _setTimeOut clearTimeout
     setTimeout _deleteComet _regSendId _unregSendId refresh_alive call emit on_env on_this
     me bind ret throw gets modify log logs
     set_closeFlag set_closeReason set_timeId set_eventPool set_loopTimeout set_timers
     set_sendIds set_comets set_last_timer set_respListeners set_keyMap
     self_ref this env
     comet_id eventPool loopTimeout timeId closeReason closeFlag key respListeners
     closeFunc errFunc sendFunc echoFunc rmFunc hbFunc pkFunc
     comets sendIds keyMap timers last_timer new_handle now trace].

Lemma calls_self_hit r slot a c evs :
  calls r slot (Called r slot a c :: evs) = S (calls r slot evs).
Proof. simpl. rewrite Nat.eqb_refl. by destruct slot. Qed.

Lemma trigger_first t r c e :
  closeFlag c = false ->
  let f' := final (trigger t (mkFrame r c e)) in
  self_ref f' = r /\
  returns (trigger t (mkFrame r c e)) = closeFunc c /\
  closeFlag (this f') = true /\ closeReason (this f') = Some (reason_of t) /\
  calls r SClose (trace (env f')) =
    (calls r SClose (trace e) + if closeFunc c then 1 else 0)%nat /\
  calls r SRemove (trace (env f')) =
    (calls r SRemove (trace e) + if closeFunc c then length (remove_note r c) else 0)%nat.
Proof.
  intros H1. destruct c, e; simpl in *; subst. cbv zeta.
  destruct t; run_meth;
    destruct closeFunc0; try destruct errFunc0; destruct (Nat.eqb timeId0 0);
    destruct rmFunc0 as [[]|];
    simpl; rewrite ?calls_app; simpl; rewrite ?Nat.eqb_refl, ?andb_false_r; simpl;
    (split; [reflexivity|]); (split; [reflexivity|]); (split; [reflexivity|]);
    (split; [reflexivity|]); split; lia.
Qed.

Lemma trigger_closed t f :
  closeFlag (this f) = true ->
  trigger t f = Normal tt (warned (duplicate_warning t (closeReason (this f))) f).
Proof.
  destruct t; simpl; [apply on_peer_close_closed | apply on_timeout_closed | apply del_closed].
Qed.

Section CloseOnce.

Variable impl : Impl.
Variable JSON_stringify : Msg -> string.
Variable aesEnc : string -> string.

Abbreviation steps := (steps impl JSON_stringify aesEnc).

(** C1, what the code does.  The first close trigger (peer disconnect,
    timer expiry or [del]) on a live connection marks it closed.  If a
    close callback is registered, the trigger returns and has called the
    close callback once and the removal callback, if there is one, once.
    If none is registered, as on every connection that [createComet] has
    made and nobody has called [onClose] on, the trigger throws at the call
    of the close callback: the removal callback is not called.  Either way,
    whatever operations follow, the two counts stay as they are, and every
    later trigger returns after one [console.warn]: no field of any object
    changes and no callback is called. *)
Theorem C1_first_trigger_only (w : World) (r : ref) (c : Comet) (t : Trigger) :
  heap w !! r = Some c ->
  closeFlag c = false ->
  let w1 := final (invoke r (trigger t) w) in
  let closes := if closeFunc c then 1%nat else 0%nat in
  let removes := if closeFunc c then length (remove_note r c) else 0%nat in
  (closeFunc c = true -> invoke r (trigger t) w = Normal tt w1) /\
  (closeFunc c = false -> exists x, invoke r (trigger t) w = Thrown x w1) /\
  forall os,
    let w2 := steps os w1 in
    closed_as r (Some (reason_of t))
      (calls r SClose (trace (wenv w)) + closes)
      (calls r SRemove (trace (wenv w)) + removes) w2 /\
    forall t',
      invoke r (trigger t') w2 =
      Normal tt (mkWorld (heap w2)
                   (log (duplicate_warning t' (Some (reason_of t))) (wenv w2))).
Proof.
  intros Hc Hlive w1 closes removes.
  destruct (trigger_first t r c (wenv w) Hlive)
    as (Hself & Hret & Hflag & Hreason & Hn1 & Hn2).
  assert (w1 = store_back r w (final (trigger t (mkFrame r c (wenv w))))) as Hw1
    by (subst w1; by rewrite (invoke_final _ _ _ _ Hc)).
  split; [|split].
  - intros Hcb. rewrite Hw1, (invoke_frame _ _ _ _ Hc). rewrite Hcb in Hret.
    by destruct (trigger t _) as [[] f|x f].
  - intros Hcb. rewrite Hw1, (invoke_frame _ _ _ _ Hc). rewrite Hcb in Hret.
    destruct (trigger t _) as [[] f|x f]; [done|]. by exists x.
  - intros os w2.
    assert (closed_as r (Some (reason_of t))
              (calls r SClose (trace (wenv w)) + closes)
              (calls r SRemove (trace (wenv w)) + removes) w2)
      as Hclosed.
    { apply steps_closed. rewrite Hw1. eexists. unfold store_back. simpl.
      rewrite lookup_insert_eq. split; [reflexivity|]. by repeat split. }
    split; [done|]. intros t'.
    destruct Hclosed as (c2 & Hc2 & Hflag2 & Hreason2 & _).
    rewrite (invoke_frame _ _ _ _ Hc2), trigger_closed by done.
    unfold store_back, warned; simpl. rewrite insert_id by done. by rewrite Hreason2.
Qed.

End CloseOnce.

(** ** Framing *)

Lemma append_assoc (a b c : string) : (a +:+ b) +:+ c = a +:+ (b +:+ c).
Proof.
  induction a as [|x a IH]; [reflexivity|].
  change (String x ((a +:+ b) +:+ c) = String x (a +:+ (b +:+ c))). by rewrite IH.
Qed.

Lemma bufAll_spec prefix contentType payload :
  bufAll (fmtHeader prefix contentType payload) payload =
  spec_frame prefix contentType payload.
Proof. unfold bufAll, fmtHeader, spec_frame, fmtTail. by rewrite !append_assoc. Qed.

Lemma bufAll_spec_aes prefix contentType payload :
  bufAll (fmtHeader_aes prefix contentType payload) payload =
  spec_frame_aes prefix contentType payload.
Proof. unfold bufAll, fmtHeader_aes, spec_frame_aes, fmtTail. by rewrite !append_assoc. Qed.

Lemma decimal_reads_back n :
  option_map Nat.of_uint (NilEmpty.uint_of_string (decimal n)) = Some n.
Proof. unfold decimal. rewrite NilEmpty.usu. simpl. by rewrite DecimalNat.Unsigned.of_to. Qed.

Section Sending.

Variable impl : Impl.
Variable JSON_stringify : Msg -> string.
Variable aesEnc : string -> string.

Abbreviation _send := (_send impl JSON_stringify aesEnc).
Abbreviation delivered := (delivered impl aesEnc).
Abbreviation pack_note := (pack_note impl).

Lemma _send_delivered msg prefix ct r c e data :
  delivered c (JSON_stringify msg) = Some data ->
  _send msg prefix ct (mkFrame r c e) =
  Normal tt (mkFrame r c
    (logs (app (pack_note r c (JSON_stringify msg))
               [ConsoleLog ["comet push msg :"; JSON_stringify msg];
                RespWrite r (frame_of impl (default_prefix prefix) (default_type ct) data)])
          e)).
Proof.
  open_delivered. unfold frame_of. open_send.
  destruct c, e; simpl.
  destruct impl; [rewrite <- bufAll_spec | rewrite <- bufAll_spec_aes].
  - destruct pkFunc0 as [hook|].
    + destruct (hook _) as [|[] [] ?] eqn:Hh; try done. intros [= ->].
      run_meth. rewrite Hh. simpl. by rewrite <- !app_assoc.
    + intros [= ->]. run_meth. simpl. by rewrite <- !app_assoc.
  - intros [= ->]. run_meth. simpl. by rewrite <- !app_assoc.
Qed.

(** Whatever the outcome of [_send], the receiver is as before and the
    trace has grown by records among which every write is a frame around a
    delivered payload. *)
Lemma _send_outcome msg prefix ct r c e :
  exists evs,
    final (_send msg prefix ct (mkFrame r c e)) = mkFrame r c (logs evs e) /\
    forall r' bytes, In (RespWrite r' bytes) evs ->
      r' = r /\
      exists data, delivered c (JSON_stringify msg) = Some data /\
        bytes = frame_of impl (default_prefix prefix) (default_type ct) data.
Proof.
  destruct (delivered c (JSON_stringify msg)) as [data|] eqn:Hd.
  - rewrite (_send_delivered _ _ _ _ _ _ _ Hd). eexists; split; [reflexivity|].
    intros r' bytes Hin. apply in_app_or in Hin as [Hin|Hin].
    + revert Hin. open_delivered. intros Hin. destruct impl; [|done].
      destruct (pkFunc c); [|done]. by destruct Hin as [?|[]].
    + destruct Hin as [?|[[= <- <-]|[]]]; [done|]. eauto.
  - revert Hd. open_delivered. intros Hd. open_send.
    destruct c, e; simpl in *.
    destruct impl; [|done].
    destruct pkFunc0 as [hook|]; [|done].
    destruct (hook _) as [|[] [err|] data] eqn:Hh; try done;
      run_meth; rewrite Hh; simpl.
    + eexists [_]; split; [reflexivity|]. by intros ? ? [?|[]].
    + eexists [_]; split; [reflexivity|]. by intros ? ? [?|[]].
    + eexists [_; _]; split; [by rewrite <- !app_assoc|]. by intros ? ? [?|[?|[]]].
    + destruct errFunc0.
      * eexists [_; _]; split; [by rewrite <- !app_assoc|]. by intros ? ? [?|[?|[]]].
      * eexists [_]; split; [reflexivity|]. by intros ? ? [?|[]].
Qed.

End Sending.

Section Frames.

Variable impl : Impl.
Variable JSON_stringify : Msg -> string.
Variable aesEnc : string -> string.

Abbreviation _send := (_send impl JSON_stringify aesEnc).
Abbreviation delivered := (delivered impl aesEnc).

(** C5, as amended.  Every frame [_send] writes is, byte for byte, the
    prefix, the Content-Type line, the Content-Length line with the decimal
    byte length of the payload that follows, an empty line, the payload and
    the boundary marker; in the file that encrypts with [aes.aesEnc] the
    lines [X-Address: ] and [X-Remote-Address: ] stand between the
    Content-Length line and the empty line, in the file with the pack hook
    there is no other header line.  The payload is what the transform
    delivered, and when it delivers one the frame is written. *)
Theorem C5_frame_layout (f : Frame) (msg : Msg) (prefix contentType : option string) :
  exists evs,
    trace (env (final (_send msg prefix contentType f))) = app (trace (env f)) evs /\
    (forall r bytes, In (RespWrite r bytes) evs ->
       exists payload,
         delivered (this f) (JSON_stringify msg) = Some payload /\
         bytes =
           match impl with
           | WithPackHook =>
               spec_frame (default_prefix prefix) (default_type contentType) payload
           | WithAes =>
               spec_frame_aes (default_prefix prefix) (default_type contentType) payload
           end /\
         option_map Nat.of_uint (NilEmpty.uint_of_string (decimal (String.length payload)))
           = Some (String.length payload)) /\
    (forall payload,
       delivered (this f) (JSON_stringify msg) = Some payload ->
       In (RespWrite (self_ref f)
             (frame_of impl (default_prefix prefix) (default_type contentType) payload)) evs).
Proof.
  destruct f as [r c e].
  destruct (_send_outcome impl JSON_stringify aesEnc msg prefix contentType r c e)
    as (evs & Hfin & Hw).
  exists evs. rewrite Hfin. simpl. split; [done|]. split.
  - intros r' bytes Hin. destruct (Hw r' bytes Hin) as (_ & data & Hd & ->).
    exists data. split; [done|]. split; [by destruct impl|apply decimal_reads_back].
  - intros payload Hd. rewrite (_send_delivered _ _ _ _ _ _ _ _ _ _ Hd) in Hfin.
    apply (f_equal (fun f => trace (env f))) in Hfin. simpl in Hfin.
    apply app_inv_head in Hfin. rewrite <- Hfin.
    apply in_or_app. right. right. by left.
Qed.

End Frames.

(** C5, counterexample.  In the file that encrypts with [aes.aesEnc], the
    frame pushed for a message is not the layout of the claim: two more
    header lines follow Content-Length. *)
Lemma C5_counterexample :
  let f := mkFrame 0%nat (new_Comet "a") empty_env in
  let stringify := fun _ : Msg => "{}" in
  let enc := fun s : string => s in
  exists bytes,
    trace (env (final (_send WithAes stringify enc (mkMsg None None []) None None f))) =
      [ConsoleLog ["comet push msg :"; "{}"]; RespWrite 0%nat bytes] /\
    bytes <> spec_frame "" SEND_CONTENT_TYPE_APP "{}".
Proof.
  eexists. split; [reflexivity|]. vm_compute. discriminate.
Qed.

(** C9, the failing input.  On a live connection for which [onClose] was
    never called, [del] throws: [_close] calls [this.closeFunc] without the
    test that guards every other callback.  The connection is left marked
    closed, its stream is not ended and its removal callback is not
    called. *)
Theorem C9_del_throws_without_onClose (r : ref) (c : Comet) (e : Env) :
  del (mkFrame r (set_closeFlag false (onClose false c)) e) =
  Thrown (TypeError "this.closeFunc is not a function")
    (mkFrame r (set_closeReason (Some CLOSE_COMPEL)
                  (set_closeFlag true (onClose false c))) e).
Proof. destruct c, e. reflexivity. Qed.

(** ** Transactions *)

Section Transactions.

Variable impl : Impl.
Variable JSON_stringify : Msg -> string.
Variable aesEnc : string -> string.

Abbreviation _send := (_send impl JSON_stringify aesEnc).
Abbreviation sendMsg := (sendMsg impl JSON_stringify aesEnc).

Lemma sendMsg_returns msg ct cb s r c e f1 :
  sendMsg msg ct cb s (mkFrame r c e) = Normal tt f1 ->
  exists evs, f1 = mkFrame r (waiting cb s c) (registered c s (logs evs e)).
Proof.
  open_sendMsg. cbv zeta.
  set (ct' := match ct with Some t => _ | None => _ end).
  set (c1 := set_eventPool (<[s:=[]]> (eventPool c)) c).
  assert (forall e1 evs1, e1 = registered c s (logs evs1 e) ->
    match _send (stamp s msg) (Some "") ct' (mkFrame r c1 e1) with
    | Normal _ f => Normal tt (mkFrame (self_ref f)
          (set_eventPool (alter (fun ls => app ls [mkListener cb s]) s (eventPool (this f)))
             (this f)) (env f))
    | Thrown x f => Thrown x f
    end = Normal tt f1 ->
    exists evs, f1 = mkFrame r (waiting cb s c) (registered c s (logs evs e))) as Hsend.
  { intros e1 evs1 -> Hrun.
    destruct (_send_outcome impl JSON_stringify aesEnc (stamp s msg) (Some "") ct' r c1
                (registered c s (logs evs1 e))) as (evs2 & Hfin & _).
    destruct (_send _ _ _ _) as [[] f|x f]; [|done]. simpl in Hfin. subst f.
    injection Hrun as <-. exists (app evs1 evs2). simpl. f_equal.
    - unfold waiting, c1. destruct c; simpl. by rewrite alter_insert_eq.
    - unfold registered. destruct (sendFunc c) as [[]|]; rewrite ?logs_logs; try done.
      destruct e; unfold logs, set_sendIds; simpl. by rewrite app_assoc. }
  unfold bind, on_this, modify, me, gets. simpl. fold c1.
  destruct (sendFunc c) as [[]|] eqn:Hs; simpl.
  - eapply (Hsend _ [Called _ _ _ _]). unfold registered. by rewrite Hs.
  - unfold call, _regSendId, emit, on_env, bind, modify, gets. simpl.
    eapply (Hsend _ [Called _ _ _ _; ConsoleLog _]). unfold registered. rewrite Hs.
    destruct e; unfold logs, log, logs, set_sendIds; simpl. by rewrite <- app_assoc.
  - apply (Hsend _ []). unfold registered. by rewrite Hs, logs_nil.
Qed.

End Transactions.

Lemma echoMsg_resolves r c e s m :
  eventPool c !! s = Some [mkListener true s] -> sid m = Some s ->
  echoMsg m (mkFrame r c e) =
  Normal tt (mkFrame r (resolved s c)
    (unregistered s c (logs (Called r SEchoCb (AMsg m) c :: echo_notes r s m c e) e))).
Proof.
  intros Hpool Hsid. unfold echoMsg, bind, me, gets. simpl. rewrite Hsid. simpl.
  rewrite Hpool. simpl. unfold on_echo, echo_notes, unregistered, resolved. simpl.
  unfold _unregSendId, call, emit, on_env, on_this, bind, ret, modify, me, gets. simpl.
  rewrite Hsid. simpl.
  destruct c, e; simpl in *. destruct echoFunc0 as [[]|]; simpl.
  - unfold log, logs; simpl. by rewrite <- app_assoc.
  - unfold log, logs, set_sendIds; simpl. by rewrite <- !app_assoc.
  - reflexivity.
Qed.


Lemma invoke_normal {A} r (m : Meth A) w c a w1 :
  heap w !! r = Some c ->
  invoke r m w = Normal a w1 ->
  exists f, m (mkFrame r c (wenv w)) = Normal a f /\ w1 = store_back r w f.
Proof.
  intros Hc. rewrite (invoke_frame _ _ _ _ Hc).
  destruct (m _) as [a' f|x f]; [|done]. intros [= -> <-]. eauto.
Qed.

Section Echo.

Variable impl : Impl.
Variable JSON_stringify : Msg -> string.
Variable aesEnc : string -> string.

Abbreviation sendMsg := (sendMsg impl JSON_stringify aesEnc).


(** C7, as amended.  When an echo resolves a pending transaction, the
    caller's echo callback runs first, with the waiter still in
    [eventPool]; the waiter is deleted right after it returns, so that it
    is gone when the echo observer is called and when [echoMsg] returns. *)
Theorem C7_waiter_removed_after_callback (r : ref) (c : Comet) (e : Env) (f1 : Frame)
    (msg m : Msg) (contentType : option string) (s : string) :
  sid m = Some s ->
  sendMsg msg contentType true s (mkFrame r c e) = Normal tt f1 ->
  exists f2 notes,
    echoMsg m f1 = Normal tt f2 /\
    trace (env f2) = app (trace (env f1)) (Called r SEchoCb (AMsg m) (this f1) :: notes) /\
    eventPool (this f1) !! s = Some [mkListener true s] /\
    (forall r' slot a seen, In (Called r' slot a seen) notes -> eventPool seen !! s = None) /\
    eventPool (this f2) !! s = None.
Proof.
  intros Hsid Hrun.
  destruct (sendMsg_returns _ _ _ _ _ _ _ _ _ _ _ Hrun) as (evs & ->). simpl.
  assert (eventPool (waiting true s c) !! s = Some [mkListener true s]) as Hpool
    by (simpl; by rewrite lookup_insert_eq).
  eexists _, _. split; [by apply echoMsg_resolves|].
  split.
  { unfold unregistered. destruct (echoFunc _) as [[]|]; reflexivity. }
  split; [done|]. split; [|simpl; by rewrite lookup_delete_eq].
  intros r' slot a seen Hin. unfold echo_notes in Hin.
  destruct (echoFunc _) as [[]|]; simpl in Hin.
  - destruct Hin as [[= _ _ _ <-]|[]]. simpl. by rewrite lookup_delete_eq.
  - destruct Hin as [[= _ _ _ <-]|[?|[]]]; [|done]. simpl. by rewrite lookup_delete_eq.
  - done.
Qed.

(** C8, what the code does.  The echo observer is called once per resolved
    echo, with [sid] the transaction id and [msg] the echoed message, but
    with [cid] undefined: inside the listener [this] is the emitter, not
    the connection, and the emitter has no [id]. *)
Theorem C8_echo_event_has_no_cid (r : ref) (c : Comet) (e : Env) (f1 : Frame) (hk : Hook)
    (msg m : Msg) (contentType : option string) (s : string) :
  echoFunc c = Some hk ->
  sid m = Some s ->
  sendMsg msg contentType true s (mkFrame r c e) = Normal tt f1 ->
  exists f2 evs,
    echoMsg m f1 = Normal tt f2 /\
    trace (env f2) = app (trace (env f1)) evs /\
    calls r SEcho evs = 1%nat /\
    forall r' cid s' m' seen,
      In (Called r' SEcho (ATxn cid s' m') seen) evs ->
      cid = None /\ cid <> Some (comet_id c) /\ s' = s /\ m' = m.
Proof.
  intros Hecho Hsid Hrun.
  destruct (sendMsg_returns _ _ _ _ _ _ _ _ _ _ _ Hrun) as (evs & ->). simpl.
  assert (eventPool (waiting true s c) !! s = Some [mkListener true s]) as Hpool
    by (simpl; by rewrite lookup_insert_eq).
  eexists _, _. split; [by apply echoMsg_resolves|].
  split.
  { unfold unregistered. destruct (echoFunc _) as [[]|]; reflexivity. }
  unfold echo_notes. simpl. rewrite Hecho. split.
  - destruct hk; simpl; by rewrite Nat.eqb_refl.
  - intros r' cid s' m' seen Hin. destruct hk; simpl in Hin.
    + by destruct Hin as [?|[[= _ <- <- <- _]|[]]].
    + by destruct Hin as [?|[[= _ <- <- <- _]|[?|[]]]].
Qed.

End Echo.

(** C7, counterexample.  A connection sends with transaction id [s1] and
    the echo arrives: when the caller's echo callback is called, [s1] is
    still in [eventPool]. *)
Lemma C7_counterexample :
  let stringify := fun _ : Msg => "{}" in
  let enc := fun s : string => s in
  let f0 := mkFrame 0%nat (new_Comet "a") empty_env in
  let m := mkMsg (Some "s1") None [] in
  exists f1 f2 seen,
    sendMsg WithPackHook stringify enc (mkMsg None None []) None true "s1" f0 = Normal tt f1 /\
    echoMsg m f1 = Normal tt f2 /\
    In (Called 0%nat SEchoCb (AMsg m) seen) (trace (env f2)) /\
    eventPool seen !! "s1" = Some [mkListener true "s1"].
Proof.
  intros stringify enc f0 m.
  set (f1 := final (sendMsg WithPackHook stringify enc (mkMsg None None []) None true "s1" f0)).
  exists f1, (final (echoMsg m f1)), (this f1).
  split; [by vm_compute|]. split; [by vm_compute|].
  split; [|by vm_compute].
  right; right; left. by vm_compute.
Qed.

(** ** The liveness timer *)

Lemma on_timeout_live r c e :
  closeFlag c = false -> closeFunc c = true ->
  exists e',
    on_timeout (mkFrame r c e) = Normal tt (mkFrame r (timed_out c) e') /\
    trace e' =
      app (trace e)
        (app (error_note r (timed_out c))
           (app [Called r SClose (ACloseEv CLOSE_TIMEOUT "closed by server") (timed_out c);
                 RespEnd r]
                (remove_note r (timed_out c)))) /\
    timers e' = timers e.
Proof.
  intros H1 H2. destruct c, e; simpl in *; subst.
  unfold error_note, remove_note, timed_out. run_meth. simpl.
  destruct errFunc0, rmFunc0 as [[]|];
    (eexists; split; [reflexivity|]; simpl; split; [|reflexivity];
     by rewrite <- ?app_assoc).
Qed.

Lemma on_timeout_unfinished r c e :
  closeFlag c = false -> closeFunc c = false ->
  exists e',
    on_timeout (mkFrame r c e) =
      Thrown (TypeError "this.closeFunc is not a function") (mkFrame r (timed_out c) e') /\
    trace e' = app (trace e) (app (error_note r (timed_out c)) []) /\
    timers e' = timers e.
Proof.
  intros H1 H2. destruct c, e; simpl in *; subst.
  unfold error_note, timed_out. run_meth. simpl.
  destruct errFunc0;
    (eexists; split; [reflexivity|]; simpl; split; [|reflexivity];
     by rewrite ?app_nil_r).
Qed.

Lemma fire_pending h t w :
  timers (wenv w) !! h = Some t ->
  fire h w =
  invoke (t_self t) on_timeout
    (mkWorld (heap w) (set_timers (delete h (timers (wenv w))) (wenv w))).
Proof. intros H. unfold fire. by rewrite H. Qed.

Section Timeout.

Variable impl : Impl.
Variable JSON_stringify : Msg -> string.
Variable aesEnc : string -> string.

Abbreviation steps := (steps impl JSON_stringify aesEnc).

(** C2, what the code does.  When the pending liveness timer of a live
    connection expires, the connection is marked closed with reason
    CLOSE_TIMEOUT and the error observer, if there is one, is called first.
    If a close callback is registered, the close callback is called next,
    then the stream is ended, then the removal callback is called, and the
    timer callback returns.  If none is registered, as on every connection
    that [createComet] has made and nobody has called [onClose] on, the
    timer callback throws at the call of the close callback: the stream is
    not ended and the removal callback is not called.  Either way, whatever
    operations and timer expiries follow, the connection stays closed with
    that reason and its close callback is not called again; a timer of the
    connection that expires later is dropped with one [console.warn]. *)
Theorem C2_timeout_closes_once (w : World) (r : ref) (c : Comet) (h : nat) (t : Timer) :
  heap w !! r = Some c ->
  closeFlag c = false ->
  timers (wenv w) !! h = Some t -> t_self t = r ->
  let w1 := final (fire h w) in
  let finished :=
    if closeFunc c
    then app [Called r SClose (ACloseEv CLOSE_TIMEOUT "closed by server") (timed_out c);
              RespEnd r]
             (remove_note r (timed_out c))
    else [] in
  (closeFunc c = true -> fire h w = Normal tt w1) /\
  (closeFunc c = false ->
     fire h w = Thrown (TypeError "this.closeFunc is not a function") w1) /\
  heap w1 !! r = Some (timed_out c) /\
  closeFlag (timed_out c) = true /\
  closeReason (timed_out c) = Some CLOSE_TIMEOUT /\
  trace (wenv w1) = app (trace (wenv w)) (app (error_note r (timed_out c)) finished) /\
  timers (wenv w1) !! h = None /\
  forall os,
    let w2 := steps os w1 in
    closed_as r (Some CLOSE_TIMEOUT)
      (calls r SClose (trace (wenv w)) + calls r SClose finished)
      (calls r SRemove (trace (wenv w)) + calls r SRemove finished) w2 /\
    forall h2 t2,
      timers (wenv w2) !! h2 = Some t2 -> t_self t2 = r ->
      fire h2 w2 =
      Normal tt (mkWorld (heap w2)
                   (log (timeout_warning (Some CLOSE_TIMEOUT))
                      (set_timers (delete h2 (timers (wenv w2))) (wenv w2)))).
Proof.
  intros Hc Hlive Hh Hself w1 finished.
  set (e0 := set_timers (delete h (timers (wenv w))) (wenv w)).
  assert (trace e0 = trace (wenv w)) as Hsame by (subst e0; by destruct (wenv w)).
  assert (timers e0 !! h = None) as Hgone
    by (subst e0; destruct (wenv w); simpl; by rewrite lookup_delete_eq).
  assert (fire h w = invoke r on_timeout (mkWorld (heap w) e0)) as Hfire
    by (by rewrite (fire_pending _ _ _ Hh), Hself).
  assert (exists e',
            on_timeout (mkFrame r c e0) =
              (if closeFunc c then Normal tt
               else Thrown (TypeError "this.closeFunc is not a function"))
                (mkFrame r (timed_out c) e') /\
            trace e' = app (trace e0) (app (error_note r (timed_out c)) finished) /\
            timers e' = timers e0) as (e' & Hrun & Htrace & Htimers).
  { subst finished. destruct (closeFunc c) eqn:Hcb.
    - apply on_timeout_live; done.
    - apply on_timeout_unfinished; done. }
  rewrite Hsame in Htrace.
  assert (w1 = mkWorld (<[r := timed_out c]> (heap w)) e') as Hw1.
  { subst w1. rewrite Hfire. erewrite invoke_final by (simpl; exact Hc).
    simpl. rewrite Hrun. by destruct (closeFunc c). }
  split; [|split].
  - intros Hcb. rewrite Hfire, Hw1. erewrite invoke_frame by (simpl; exact Hc).
    simpl. by rewrite Hrun, Hcb.
  - intros Hcb. rewrite Hfire, Hw1. erewrite invoke_frame by (simpl; exact Hc).
    simpl. by rewrite Hrun, Hcb.
  - rewrite Hw1. simpl.
    split; [by rewrite lookup_insert_eq|]. split; [done|]. split; [done|].
    split; [done|]. split; [by rewrite Htimers|].
    intros os. set (w2 := steps os _).
    assert (closed_as r (Some CLOSE_TIMEOUT)
              (calls r SClose (trace (wenv w)) + calls r SClose finished)
              (calls r SRemove (trace (wenv w)) + calls r SRemove finished) w2)
      as Hclosed.
    { apply steps_closed. exists (timed_out c). simpl.
      rewrite lookup_insert_eq, Htrace, !calls_app.
      assert (calls r SClose (error_note r (timed_out c)) = 0%nat /\
              calls r SRemove (error_note r (timed_out c)) = 0%nat) as [-> ->].
      { unfold error_note. destruct (errFunc (timed_out c)); simpl;
          by rewrite ?andb_false_r. }
      by repeat split. }
    split; [done|]. intros h2 t2 Hh2 Hself2.
    destruct Hclosed as (c2 & Hc2 & Hflag2 & Hreason2 & _).
    rewrite (fire_pending _ _ _ Hh2), Hself2.
    erewrite invoke_frame by (simpl; exact Hc2).
    rewrite on_timeout_closed by done.
    unfold store_back, warned; simpl. rewrite insert_id by done. by rewrite Hreason2.
Qed.

End Timeout.

(** ** Heartbeats *)

Lemma pong_tail_outcome r c e :
  exists e',
    final (pong_tail (mkFrame r c e)) = mkFrame r (set_timeId (new_handle e) c) e' /\
    timers e' =
      <[new_handle e := mkTimer r (timer_delay (loopTimeout c))]> (cleared c (timers e)) /\
    trace e' = app (trace e) (heart_note r (set_timeId (new_handle e) c)) /\
    sendIds e' = sendIds e /\ comets e' = comets e /\
    (heart_safe c e -> returns (pong_tail (mkFrame r c e)) = true).
Proof.
  unfold heart_safe, heart_note, cleared, pong_tail.
  destruct c, e; simpl. run_meth. simpl.
  destruct (Nat.eqb timeId0 0); simpl;
    destruct hbFunc0 as [[]|]; simpl;
    try (eexists; repeat split; reflexivity || (simpl; by rewrite app_nil_r)).
  all: destruct key0 as [k|]; simpl;
    try (eexists; repeat split; reflexivity).
  all: destruct (truthy k); simpl;
    try (eexists; repeat split; reflexivity).
  all: destruct (keyMap0 !! k) eqn:Hk; simpl;
    eexists; repeat split; try reflexivity.
  all: intros H; by destruct (H eq_refl).
Qed.

Lemma normal_final {S} (o : Outcome S unit) :
  returns o = true -> o = Normal tt (final o).
Proof. by destruct o as [[] s|x s]. Qed.

Lemma paced_loopTimeout m c : loopTimeout (paced m c) = next_window m (loopTimeout c).
Proof. unfold paced, next_window. by destruct (positive_interval _). Qed.

Section Heartbeat.

Variable impl : Impl.
Variable JSON_stringify : Msg -> string.
Variable aesEnc : string -> string.

Abbreviation _send := (_send impl JSON_stringify aesEnc).
Abbreviation start := (start impl JSON_stringify aesEnc).
Abbreviation pongMsg := (pongMsg impl JSON_stringify aesEnc).
Abbreviation delivered := (delivered impl aesEnc).
Abbreviation pack_note := (pack_note impl).

Lemma pongMsg_cases m ct r c e :
  exists evs,
    _send m (Some "") ct (mkFrame r (paced m c) e) =
      match _send m (Some "") ct (mkFrame r (paced m c) e) with
      | Normal _ _ => Normal tt (mkFrame r (paced m c) (logs evs e))
      | Thrown x _ => Thrown x (mkFrame r (paced m c) (logs evs e))
      end /\
    pongMsg m ct (mkFrame r c e) =
      match _send m (Some "") ct (mkFrame r (paced m c) e) with
      | Normal _ _ => pong_tail (mkFrame r (paced m c) (logs evs e))
      | Thrown x _ => Thrown x (mkFrame r (paced m c) (logs evs e))
      end.
Proof.
  destruct (_send_outcome impl JSON_stringify aesEnc m (Some "") ct r (paced m c) e)
    as (evs & Hfin & _).
  exists evs. open_pongMsg. unfold pong_tail, paced in *.
  unfold bind at 1. destruct (positive_interval (interval m)); simpl;
    unfold bind at 1; destruct (_send _ _ _ _) as [[] f|x f]; simpl in Hfin; by subst f.
Qed.

Lemma pongMsg_window m ct f :
  loopTimeout (this (final (pongMsg m ct f))) = next_window m (loopTimeout (this f)).
Proof.
  destruct f as [r c e]. destruct (pongMsg_cases m ct r c e) as (evs & _ & ->).
  destruct (_send _ _ _ _); simpl; [|apply paced_loopTimeout].
  destruct (pong_tail_outcome r (paced m c) (logs evs e)) as (e' & -> & _).
  simpl. apply paced_loopTimeout.
Qed.

(** When [pongMsg] returns, the timer recorded in [timeId] is pending and
    runs for the delay the runtime arms for [loopTimeout]. *)
Lemma pongMsg_arms m ct r c e f' :
  pongMsg m ct (mkFrame r c e) = Normal tt f' ->
  self_ref f' = r /\
  timers (env f') !! timeId (this f') =
    Some (mkTimer r (timer_delay (loopTimeout (this f')))).
Proof.
  destruct (pongMsg_cases m ct r c e) as (evs & _ & ->).
  destruct (_send _ _ _ _); [|done]. intros Hrun.
  destruct (pong_tail_outcome r (paced m c) (logs evs e)) as (e' & Hfin & Ht & _).
  rewrite Hrun in Hfin. simpl in Hfin. subst f'. simpl. split; [done|].
  by rewrite Ht, lookup_insert_eq.
Qed.

(** When [start] returns, one more ['close'] listener is on [resp] and the
    timer recorded in [timeId] is pending for the delay the runtime arms
    for [loopTimeout]. *)
Lemma start_arms r c e f' :
  start (mkFrame r c e) = Normal tt f' ->
  this f' = set_timeId (new_handle e) (set_respListeners (S (respListeners c)) c) /\
  timers (env f') !! timeId (this f') = Some (mkTimer r (timer_delay (loopTimeout c))).
Proof.
  open_start. unfold bind at 1. unfold gets at 1.
  unfold bind at 1. unfold emit at 1, on_env at 1, modify at 1. simpl.
  unfold bind at 1. unfold emit at 1, on_env at 1, modify at 1. simpl.
  unfold bind at 1.
  match goal with |- context [_send ?m ?p ?t (mkFrame r c ?e1)] =>
    destruct (_send_outcome impl JSON_stringify aesEnc m p t r c e1) as (evs & Hfin & _);
    destruct (_send m p t (mkFrame r c e1)) as [[] f|x f]; [|done]
  end.
  simpl in Hfin. subst f. destruct c, e; run_meth. simpl.
  destruct (Nat.eqb timeId0 0); intros [= <-]; simpl; by rewrite lookup_insert_eq.
Qed.

Lemma pongMsg_runs m ct r c e data :
  delivered c (JSON_stringify m) = Some data -> heart_safe c e ->
  exists e',
    pongMsg m ct (mkFrame r c e) =
      Normal tt (mkFrame r (set_timeId (new_handle e) (paced m c)) e') /\
    trace e' =
      app (trace e)
        (app (pack_note r (paced m c) (JSON_stringify m))
           (app [ConsoleLog ["comet push msg :"; JSON_stringify m];
                 RespWrite r (frame_of impl "" (default_type ct) data)]
                (heart_note r (set_timeId (new_handle e) (paced m c))))) /\
    timers e' =
      <[new_handle e := mkTimer r (timer_delay (loopTimeout (paced m c)))]>
        (cleared c (timers e)).
Proof.
  intros Hd Hsafe.
  assert (delivered (paced m c) (JSON_stringify m) = Some data) as Hd'.
  { unfold paced. by destruct (positive_interval _), c. }
  destruct (pongMsg_cases m ct r c e) as (evs & Hsend & ->).
  rewrite (_send_delivered _ _ _ _ _ _ _ _ _ _ Hd') in *.
  injection Hsend as Hsend. apply app_inv_head in Hsend. subst evs.
  match goal with |- context [pong_tail (mkFrame r ?c0 ?e1)] =>
    destruct (pong_tail_outcome r c0 e1) as (e' & Hfin & Ht & Htr & _ & _ & Hret);
    set (o := pong_tail (mkFrame r c0 e1)) in *
  end.
  exists e'. split.
  { rewrite (normal_final o); [by rewrite Hfin|]. apply Hret.
    unfold heart_safe, paced in *.
    destruct (positive_interval _), c, e; simpl in *; done. }
  simpl in *. split.
  - rewrite Htr. destruct e; simpl. by rewrite <- !app_assoc.
  - rewrite Ht. unfold cleared, paced.
    destruct (positive_interval _), c, e; simpl; done.
Qed.

End Heartbeat.

(** ** The liveness window over a run *)

Lemma invoke_window {A} r T r' (m : Meth A) :
  keeps loopTimeout m -> preserves (has_window r T) (invoke r' m).
Proof.
  intros Hk w (c & Hc & HT).
  destruct (heap w !! r') as [c'|] eqn:Hc'; [|by rewrite invoke_missing; [exists c|]].
  rewrite (invoke_final _ _ _ _ Hc'). unfold store_back, has_window; simpl.
  destruct (decide (r' = r)) as [->|Hne].
  - assert (c' = c) as -> by congruence. rewrite lookup_insert_eq.
    eexists; split; [done|]. by rewrite Hk.
  - rewrite lookup_insert_ne by done. by exists c.
Qed.

Lemma settled_loopTimeout {A} (m : Meth A) : keeps settled m -> keeps loopTimeout m.
Proof. intros H f. specialize (H f). unfold settled in H. congruence. Qed.

Lemma window_env r T w e : has_window r T w -> has_window r T (mkWorld (heap w) e).
Proof. by intros (c & ? & ?); exists c. Qed.

Section Window.

Variable impl : Impl.
Variable JSON_stringify : Msg -> string.
Variable aesEnc : string -> string.

Abbreviation step := (step impl JSON_stringify aesEnc).
Abbreviation steps := (steps impl JSON_stringify aesEnc).
Abbreviation pongMsg := (pongMsg impl JSON_stringify aesEnc).

Lemma createComet_window r T cid uuid : preserves (has_window r T) (createComet cid uuid).
Proof.
  unfold createComet. cbv zeta.
  apply preserves_bind.
  { destruct (match cid with Some i => truthy i | None => false end);
      [|apply preserves_ret].
    apply preserves_bind; [apply preserves_gets|]. intros cs.
    destruct (cs !! _); [|apply preserves_ret].
    apply invoke_window, del_keeps. }
  intros _. apply preserves_bind.
  { intros w (c & Hc & HT). exists c. unfold new; simpl. split; [|done].
    rewrite lookup_insert_ne; [done|]. intros Heq.
    assert (r ∈ dom (heap w)) as Hin by (apply elem_of_dom; eauto).
    rewrite <- Heq in Hin. by apply is_fresh in Hin. }
  intros r'. apply preserves_bind; [intros w Hw; by apply window_env|]. intros _.
  apply preserves_bind; [|intros; apply preserves_ret].
  by apply invoke_window, keeps_on_this.
Qed.

Lemma step_window r T o w :
  has_window r T w -> has_window r (window_step r T o) (final (step o w)).
Proof.
  intros Hw. destruct o; simpl.
  - by apply invoke_window; [apply settled_loopTimeout, start_keeps|].
  - by apply invoke_window; [apply settled_loopTimeout, sendMsg_keeps|].
  - by apply invoke_window; [apply settled_loopTimeout, directSend_keeps|].
  - by apply invoke_window; [apply settled_loopTimeout, echoMsg_keeps|].
  - destruct Hw as (c & Hc & HT).
    destruct (heap w !! r0) as [c'|] eqn:Hc'.
    + rewrite (invoke_final _ _ _ _ Hc'). unfold store_back, has_window; simpl.
      destruct (Nat.eqb_spec r0 r) as [->|Hne].
      * assert (c' = c) as -> by congruence. rewrite lookup_insert_eq.
        eexists; split; [done|]. rewrite pongMsg_window. simpl. by rewrite HT.
      * rewrite lookup_insert_ne by done. by exists c.
    + rewrite invoke_missing by done. exists c. split; [done|].
      destruct (Nat.eqb_spec r0 r) as [->|Hne]; [congruence|done].
  - by apply invoke_window; [apply del_keeps|].
  - by apply invoke_window; [by apply keeps_on_this|].
  - by apply invoke_window; [by apply keeps_on_this|].
  - by apply invoke_window; [by apply keeps_on_this|].
  - by apply invoke_window; [by apply keeps_on_this|].
  - by apply invoke_window; [by apply keeps_on_this|].
  - by apply invoke_window; [by apply keeps_on_this|].
  - by apply invoke_window; [by apply keeps_on_this|].
  - apply invoke_window; [|done].
    apply keeps_bind; [apply keeps_gets|]. intros c. apply times_keeps, on_peer_close_keeps.
  - unfold fire. destruct (timers (wenv w) !! h) as [t|]; [|done].
    apply invoke_window; [apply on_timeout_keeps|]. by apply window_env.
  - by apply preserves_bind; [apply createComet_window | intros; apply preserves_ret|].
  - unfold mapComet. cbv zeta. set (e' := set_keyMap _ (wenv w)).
    destruct (comets (wenv w) !! cid) as [r'|]; [|by apply window_env].
    pose proof (invoke_window r T r' (on_this (set_key (Some k)))
                  (keeps_on_this _ _ (fun _ => eq_refl)) _ (window_env r T w e' Hw)) as H.
    by destruct (invoke r' _ _).
  - by apply window_env.
Qed.

Lemma steps_window r os : forall T w,
  has_window r T w -> has_window r (window r os T) (steps os w).
Proof.
  induction os as [|o os IH]; intros T w Hw; simpl; [done|].
  apply IH. by apply step_window.
Qed.

Lemma window_quiet r os : forall T,
  Forall (no_positive_ping r) os -> window r os T = T.
Proof.
  induction os as [|o os IH]; intros T Hall; simpl; [done|].
  inversion Hall as [|? ? Ho Hos]; subst. rewrite IH by done.
  destruct o; simpl in *; try done.
  destruct (Nat.eqb_spec r0 r) as [->|]; [|done].
  unfold next_window. by rewrite Ho.
Qed.

(** C3, as amended.  Take a connection whose [loopTimeout] is the 300000 ms
    the constructor gives it, any run of operations [os], and then a
    heartbeat [pongMsg(m)] on it.  The call returns whenever the payload
    transform delivers the payload and the key of the connection, if it has
    one, has its record.  When it returns, the timer recorded in [timeId]
    is pending: [pongMsg] has asked for [2 * i * 1000] ms when [m] carries a
    positive interval [i], and for 300000 ms when no heartbeat of the run,
    this one included, carried a positive interval.  The runtime arms the
    timer for the delay asked for as long as that is at most
    [TIMEOUT_MAX = 2^31 - 1] ms, and for 1 ms when it is more. *)
Theorem C3_timer_duration (w0 : World) (r : ref) (c0 : Comet) (os : list Op)
    (m : Msg) (contentType : option string) :
  heap w0 !! r = Some c0 ->
  loopTimeout c0 = 300000 ->
  let w := steps os w0 in
  (forall c data,
     heap w !! r = Some c -> delivered impl aesEnc c (JSON_stringify m) = Some data ->
     heart_safe c (wenv w) ->
     returns (step (OPongMsg r m contentType) w) = true) /\
  forall w1,
    step (OPongMsg r m contentType) w = Normal tt w1 ->
    exists c1 D,
      heap w1 !! r = Some c1 /\
      loopTimeout c1 = D /\
      timers (wenv w1) !! timeId c1 = Some (mkTimer r (timer_delay D)) /\
      (forall i, interval m = Some i -> 0 < i ->
         D = 2 * i * 1000 /\
         (2 * i * 1000 <= TIMEOUT_MAX -> timer_delay D = 2 * i * 1000) /\
         (TIMEOUT_MAX < 2 * i * 1000 -> timer_delay D = 1)) /\
      (Forall (no_positive_ping r) (app os [OPongMsg r m contentType]) ->
         D = 300000 /\ timer_delay D = 300000).
Proof.
  intros Hc0 HT w. split.
  { intros c data Hc Hd Hsafe. simpl.
    destruct (pongMsg_runs impl JSON_stringify aesEnc m contentType r c (wenv w) data Hd Hsafe)
      as (e' & Hrun & _).
    by rewrite (invoke_frame _ _ _ _ Hc), Hrun. }
  intros w1 Hrun.
  destruct (steps_window r os 300000 w0) as (c & Hc & Hwin); [by exists c0|].
  fold w in Hc. simpl in Hrun.
  destruct (invoke_normal _ _ _ _ _ _ Hc Hrun) as (f' & Hpong & ->).
  destruct (pongMsg_arms _ _ _ _ _ _ _ _ _ Hpong) as [Hself Harmed].
  pose proof (pongMsg_window impl JSON_stringify aesEnc m contentType
                (mkFrame r c (wenv w))) as Hw.
  rewrite Hpong in Hw. simpl in Hw.
  exists (this f'), (loopTimeout (this f')).
  unfold store_back; simpl. rewrite lookup_insert_eq.
  split; [done|]. split; [done|]. split; [exact Harmed|]. split.
  - intros i Hi Hpos.
    assert (loopTimeout (this f') = 2 * i * 1000) as ->.
    { rewrite Hw. unfold next_window. rewrite Hi. simpl.
      destruct (Z.ltb_spec 0 i); lia. }
    split; [done|]. unfold timer_delay. split; intros Hbound.
    + destruct (Z.leb_spec 1 (2 * i * 1000)); [|lia].
      destruct (Z.leb_spec (2 * i * 1000) TIMEOUT_MAX); [done|lia].
    + destruct (Z.leb_spec 1 (2 * i * 1000)); [|done].
      destruct (Z.leb_spec (2 * i * 1000) TIMEOUT_MAX); [lia|done].
  - intros Hall. apply Forall_app in Hall as [Hos Hm].
    inversion Hm as [|? ? Hm' _]; subst. simpl in Hm'.
    assert (loopTimeout (this f') = 300000) as ->; [|done].
    rewrite Hw, Hwin, window_quiet by done. unfold next_window. by rewrite Hm'.
Qed.

End Window.

(** C3, counterexample.  On the started sample connection, a heartbeat with
    an interval of 1073742 seconds returns and leaves a pending timer of
    1 ms, not of [2 * 1073742 * 1000] ms: the delay asked for is above
    [TIMEOUT_MAX]. *)
Lemma C3_counterexample :
  let big := mkMsg None (Some 1073742) [] in
  let w1 := final (step WithPackHook sample_json sample_enc (OPongMsg 0%nat big None)
                     started_world) in
  let c1 := set_timeId 2 (set_loopTimeout (2 * 1073742 * 1000) started_comet) in
  step WithPackHook sample_json sample_enc (OPongMsg 0%nat big None) started_world
    = Normal tt w1 /\
  heap w1 !! 0%nat = Some c1 /\
  timers (wenv w1) !! timeId c1 = Some (mkTimer 0%nat 1) /\
  mkTimer 0%nat 1 <> mkTimer 0%nat (2 * 1073742 * 1000).
Proof.
  intros big w1 c1.
  split; [by vm_compute|]. split; [by vm_compute|]. split; [by vm_compute|].
  discriminate.
Qed.

Section ClosedHeartbeat.

Variable impl : Impl.
Variable JSON_stringify : Msg -> string.
Variable aesEnc : string -> string.

Abbreviation pongMsg := (pongMsg impl JSON_stringify aesEnc).
Abbreviation delivered := (delivered impl aesEnc).
Abbreviation pack_note := (pack_note impl).

(** C10.  [pongMsg] does not look at [closeFlag].  On a closed connection
    whose transform delivers a payload it returns as on a live one: the pong
    frame is written, [loopTimeout] takes twice the interval of the ping
    when that is positive, a new timer is armed for [loopTimeout] (for the
    delay the runtime arms for it) and the heartbeat observer, if there is one, is called.  [closeFlag] and
    [closeReason] stay as they are and neither the close nor the removal
    callback is called; when the new timer expires it is dropped with one
    [console.warn]. *)
Theorem C10_heartbeat_on_closed (w : World) (r : ref) (c : Comet) (m : Msg)
    (contentType : option string) (data : string) :
  heap w !! r = Some c ->
  closeFlag c = true ->
  delivered c (JSON_stringify m) = Some data ->
  heart_safe c (wenv w) ->
  exists w1 c1,
    invoke r (pongMsg m contentType) w = Normal tt w1 /\
    heap w1 !! r = Some c1 /\
    trace (wenv w1) =
      app (trace (wenv w))
        (app (pack_note r (paced m c) (JSON_stringify m))
           (app [ConsoleLog ["comet push msg :"; JSON_stringify m];
                 RespWrite r (frame_of impl "" (default_type contentType) data)]
                (heart_note r c1))) /\
    (hbFunc c <> None -> heart_note r c1 = [Called r SHeart ANothing c1]) /\
    loopTimeout c1 = next_window m (loopTimeout c) /\
    timeId c1 = new_handle (wenv w) /\
    timers (wenv w1) !! timeId c1 = Some (mkTimer r (timer_delay (loopTimeout c1))) /\
    closeFlag c1 = true /\ closeReason c1 = closeReason c /\
    fire (timeId c1) w1 =
      Normal tt (mkWorld (heap w1)
                   (log (timeout_warning (closeReason c))
                      (set_timers (delete (timeId c1) (timers (wenv w1))) (wenv w1)))).
Proof.
  intros Hc Hclosed Hd Hsafe.
  destruct (pongMsg_runs impl JSON_stringify aesEnc m contentType r c (wenv w) data Hd Hsafe)
    as (e' & Hrun & Htrace & Htimers).
  set (c1 := set_timeId (new_handle (wenv w)) (paced m c)) in *.
  assert (closeFlag c1 = true /\ closeReason c1 = closeReason c /\
          hbFunc c1 = hbFunc c) as (Hflag & Hreason & Hhb).
  { unfold c1, paced. destruct (positive_interval _), c; simpl in *; done. }
  assert (timers e' !! new_handle (wenv w) = Some (mkTimer r (timer_delay (loopTimeout c1))))
    as Harmed.
  { rewrite Htimers, lookup_insert_eq. unfold c1. by destruct (paced m c). }
  exists (mkWorld (<[r := c1]> (heap w)) e'), c1.
  split; [by rewrite (invoke_frame _ _ _ _ Hc), Hrun|]. simpl.
  split; [by rewrite lookup_insert_eq|].
  split; [done|].
  split; [unfold heart_note; rewrite Hhb; by destruct (hbFunc c)|].
  split; [unfold c1; rewrite <- paced_loopTimeout; by destruct (paced m c)|].
  split; [unfold c1; by destruct (paced m c)|].
  split; [done|]. split; [done|]. split; [done|].
  rewrite (fire_pending (new_handle (wenv w)) (mkTimer r (timer_delay (loopTimeout c1)))
             (mkWorld (<[r := c1]> (heap w)) e') Harmed). simpl.
  erewrite invoke_frame by (simpl; by rewrite lookup_insert_eq).
  rewrite on_timeout_closed by done.
  unfold store_back, warned; simpl. rewrite insert_insert_eq.
  unfold c1 in Hreason |- *. simpl in Hreason |- *. by rewrite Hreason.
Qed.

End ClosedHeartbeat.

(** ** Replacing a connection *)

Lemma del_managed r c e :
  closeFlag c = false -> closeFunc c = true -> rmFunc c = Some Manager ->
  del (mkFrame r c e) =
  Normal tt (mkFrame r (set_timeId 0 (compelled c))
    (deleted (comet_id c)
       (logs [Called r SClose (ACloseEv CLOSE_COMPEL "closed by server") (compelled c);
              RespEnd r;
              Called r SRemove (ARemove (comet_id c)) (set_timeId 0 (compelled c))]
          (set_timers (cleared c (timers e)) e)))).
Proof.
  intros H1 H2 H3. destruct c, e; simpl in *; subst.
  unfold compelled, deleted, cleared. run_meth. simpl.
  destruct (Nat.eqb_spec timeId0 0) as [->|_]; simpl; by rewrite <- !app_assoc.
Qed.

(** Whenever [createComet] returns, the object it returns is a new
    connection with the manager's four functions in its slots. *)
Lemma createComet_wired cid uuid w r w' :
  createComet cid uuid w = Normal r w' ->
  exists i, heap w' !! r = Some (wire (new_Comet i)) /\ comets (wenv w') !! i = Some r /\
            sendFunc (wire (new_Comet i)) = Some Manager /\
            echoFunc (wire (new_Comet i)) = Some Manager /\
            rmFunc (wire (new_Comet i)) = Some Manager.
Proof.
  unfold createComet. cbv zeta. unfold bind at 1.
  match goal with |- context [(if ?b then ?m else ret tt) w] =>
    destruct ((if b then m else ret tt) w) as [[] w0|x w0]; [|done]
  end.
  unfold bind, new, modify, ret, invoke. simpl. rewrite lookup_insert_eq. simpl.
  intros [= <- <-]. eexists. unfold store_back. simpl.
  rewrite !lookup_insert_eq. by repeat split.
Qed.

Lemma del_without_onClose r c e :
  closeFlag c = false -> closeFunc c = false ->
  del (mkFrame r c e) =
  Thrown (TypeError "this.closeFunc is not a function") (mkFrame r (compelled c) e).
Proof. intros H1 H2. destruct c, e; simpl in *; subst. reflexivity. Qed.

(** C6, what the code does.  [createComet] with the id of a live connection
    of the index that was wired by an earlier [createComet].  If a close
    callback is registered on the old connection, it is closed first, by
    [del], with reason CLOSE_COMPEL; its close callback and its removal
    callback are called; its entry in [comets] and the entries of [sendIds]
    that point to it are deleted.  At that point the new connection does
    not exist yet.  Then the new connection is made and stored, and
    [comets] maps the id to it, a different object.  If no close callback
    is registered, as on every connection that [createComet] has made and
    nobody has called [onClose] on, [createComet] throws out of the [del]
    of the old connection: no callback is called, no connection is made,
    and [comets] still maps the id to the old connection, now marked
    closed. *)
Theorem C6_replace_closes_old_first (w : World) (cid uuid : string) (r : ref) (c : Comet) :
  truthy cid = true ->
  comets (wenv w) !! cid = Some r -> heap w !! r = Some c -> comet_id c = cid ->
  closeFlag c = false -> rmFunc c = Some Manager ->
  (closeFunc c = true ->
   exists w1 r',
     invoke r del w = Normal tt w1 /\
     heap w1 !! r = Some (set_timeId 0 (compelled c)) /\
     closeFlag (set_timeId 0 (compelled c)) = true /\
     closeReason (set_timeId 0 (compelled c)) = Some CLOSE_COMPEL /\
     trace (wenv w1) =
       app (trace (wenv w))
         [Called r SClose (ACloseEv CLOSE_COMPEL "closed by server") (compelled c);
          RespEnd r;
          Called r SRemove (ARemove cid) (set_timeId 0 (compelled c))] /\
     comets (wenv w1) !! cid = None /\
     (forall s, sendIds (wenv w1) !! s <> Some cid) /\
     heap w1 !! r' = None /\
     r' <> r /\
     createComet (Some cid) uuid w =
       Normal r' (mkWorld (<[r' := wire (new_Comet cid)]> (heap w1))
                    (set_comets (<[cid := r']> (comets (wenv w1))) (wenv w1))) /\
     forall w2, createComet (Some cid) uuid w = Normal r' w2 ->
       comets (wenv w2) !! cid = Some r' /\
       heap w2 !! r' = Some (wire (new_Comet cid)) /\
       heap w2 !! r = Some (set_timeId 0 (compelled c)) /\
       trace (wenv w2) = trace (wenv w1)) /\
  (closeFunc c = false ->
   exists w1,
     createComet (Some cid) uuid w =
       Thrown (TypeError "this.closeFunc is not a function") w1 /\
     heap w1 = <[r := compelled c]> (heap w) /\
     closeFlag (compelled c) = true /\
     wenv w1 = wenv w /\
     comets (wenv w1) !! cid = Some r).
Proof.
  intros Hcid Hidx Hc Hid Hlive Hrm. split; intros Hcb.
  - pose proof (del_managed r c (wenv w) Hlive Hcb Hrm) as Hdel. rewrite Hid in Hdel.
    set (c1 := set_timeId 0 (compelled c)) in *.
    match type of Hdel with _ = Normal tt (mkFrame _ _ ?e) => set (e1 := e) in * end.
    set (w1 := mkWorld (<[r := c1]> (heap w)) e1).
    set (r' := fresh (dom (heap w1))).
    assert (invoke r del w = Normal tt w1) as Hinv
      by (by rewrite (invoke_frame _ _ _ _ Hc), Hdel).
    assert (heap w1 !! r' = None) as Hfresh
      by (apply not_elem_of_dom, is_fresh).
    assert (heap w1 !! r = Some c1) as Hc1 by (simpl; by rewrite lookup_insert_eq).
    assert (r' <> r) as Hne by (intros Heq; rewrite Heq in Hfresh; congruence).
    assert (createComet (Some cid) uuid w =
            Normal r' (mkWorld (<[r' := wire (new_Comet cid)]> (heap w1))
                         (set_comets (<[cid := r']> (comets (wenv w1))) (wenv w1))))
      as Hcreate.
    { unfold createComet. cbv zeta. rewrite Hcid.
      unfold bind at 1. unfold bind at 1. unfold gets at 1. rewrite Hidx, Hinv.
      unfold bind, new, modify, ret. simpl. fold r'.
      unfold invoke. simpl. rewrite lookup_insert_eq. simpl.
      unfold store_back. simpl. by rewrite insert_insert_eq. }
    exists w1, r'.
    split; [done|]. split; [done|]. split; [done|]. split; [done|].
    split; [by destruct (wenv w)|].
    split; [subst w1 e1; destruct (wenv w); simpl; by rewrite lookup_delete_eq|].
    split.
    { intros s Hs. subst w1 e1. destruct (wenv w); simpl in Hs.
      apply map_lookup_filter_Some in Hs as [_ Hs]. by simpl in Hs. }
    split; [done|]. split; [done|]. split; [done|].
    intros w2. rewrite Hcreate. intros [= <-]. simpl.
    rewrite !lookup_insert_eq, lookup_insert_ne by done.
    by destruct e1.
  - exists (mkWorld (<[r := compelled c]> (heap w)) (wenv w)).
    split; [|by repeat split].
    unfold createComet. cbv zeta. rewrite Hcid.
    unfold bind at 1. unfold bind at 1. unfold gets at 1. rewrite Hidx.
    by rewrite (invoke_frame _ _ _ _ Hc), del_without_onClose.
Qed.

(** * The theorems at work

    Each theorem above that has premises is applied here to a small run of
    the program. *)

Lemma C1_witness :
  heap created_world !! 0%nat = Some bare_comet /\
  closeFlag bare_comet = false /\ closeFunc bare_comet = false /\
  exists x,
    invoke 0%nat (trigger ExplicitDel) created_world =
      Thrown x (final (invoke 0%nat (trigger ExplicitDel) created_world)) /\
    forall t',
      let w1 := final (invoke 0%nat (trigger ExplicitDel) created_world) in
      invoke 0%nat (trigger t') w1 =
      Normal tt (mkWorld (heap w1) (log (duplicate_warning t' (Some CLOSE_COMPEL)) (wenv w1))).
Proof.
  assert (heap created_world !! 0%nat = Some bare_comet) as H by (by vm_compute).
  split; [exact H|]. split; [reflexivity|]. split; [reflexivity|].
  destruct (C1_first_trigger_only WithPackHook sample_json sample_enc
              created_world 0%nat bare_comet ExplicitDel H eq_refl)
    as (_ & Hthrown & Hlater).
  destruct (Hthrown eq_refl) as [x Hrun].
  exists x. split; [exact Hrun|]. intros t'. exact (proj2 (Hlater []) t').
Defined.

Lemma C2_witness :
  heap bare_started_world !! 0%nat = Some bare_started_comet /\
  closeFlag bare_started_comet = false /\
  timers (wenv bare_started_world) !! 1%nat = Some (mkTimer 0%nat 300000) /\
  closeFunc bare_started_comet = false /\
  fire 1 bare_started_world =
    Thrown (TypeError "this.closeFunc is not a function") (final (fire 1 bare_started_world)) /\
  heap (final (fire 1 bare_started_world)) !! 0%nat = Some (timed_out bare_started_comet) /\
  trace (wenv (final (fire 1 bare_started_world))) =
    app (trace (wenv bare_started_world)) [].
Proof.
  assert (heap bare_started_world !! 0%nat = Some bare_started_comet) as H by (by vm_compute).
  assert (timers (wenv bare_started_world) !! 1%nat = Some (mkTimer 0%nat 300000)) as Ht
    by (by vm_compute).
  split; [exact H|]. split; [reflexivity|]. split; [exact Ht|]. split; [reflexivity|].
  destruct (C2_timeout_closes_once WithPackHook sample_json sample_enc
              bare_started_world 0%nat bare_started_comet 1%nat (mkTimer 0%nat 300000)
              H eq_refl Ht eq_refl)
    as (_ & Hthrown & Hheap & _ & _ & Htrace & _).
  split; [exact (Hthrown eq_refl)|]. split; [exact Hheap | exact Htrace].
Defined.

Lemma C3_witness :
  heap sample_world !! 0%nat = Some sample_comet /\
  loopTimeout sample_comet = 300000 /\
  step WithPackHook sample_json sample_enc (OPongMsg 0%nat ping5 None)
    (steps WithPackHook sample_json sample_enc [OStart 0%nat] sample_world)
    = Normal tt ponged_world /\
  exists c1,
    heap ponged_world !! 0%nat = Some c1 /\
    timers (wenv ponged_world) !! timeId c1 = Some (mkTimer 0%nat 10000).
Proof.
  assert (heap sample_world !! 0%nat = Some sample_comet) as H by (by vm_compute).
  assert (step WithPackHook sample_json sample_enc (OPongMsg 0%nat ping5 None)
            (steps WithPackHook sample_json sample_enc [OStart 0%nat] sample_world)
          = Normal tt ponged_world) as Hrun by (by vm_compute).
  split; [exact H|]. split; [reflexivity|]. split; [exact Hrun|].
  destruct (proj2 (C3_timer_duration WithPackHook sample_json sample_enc
                     sample_world 0%nat sample_comet [OStart 0%nat] ping5 None
                     H eq_refl) ponged_world Hrun)
    as (c1 & D & Hc1 & _ & Harmed & Hpos & _).
  exists c1. split; [exact Hc1|].
  assert (2 * 5 * 1000 <= TIMEOUT_MAX) as Hle by (by vm_compute).
  destruct (Hpos 5 eq_refl eq_refl) as (HD & Hfits & _).
  rewrite Harmed, (Hfits Hle). reflexivity.
Defined.


Lemma C6_witness :
  truthy "a" = true /\
  comets (wenv created_world) !! "a" = Some 0%nat /\
  heap created_world !! 0%nat = Some bare_comet /\
  comet_id bare_comet = "a" /\
  closeFlag bare_comet = false /\ rmFunc bare_comet = Some Manager /\
  closeFunc bare_comet = false /\
  exists w1,
    createComet (Some "a") "u1" created_world =
      Thrown (TypeError "this.closeFunc is not a function") w1 /\
    comets (wenv w1) !! "a" = Some 0%nat.
Proof.
  assert (heap created_world !! 0%nat = Some bare_comet) as H by (by vm_compute).
  assert (comets (wenv created_world) !! "a" = Some 0%nat) as Hidx by (by vm_compute).
  split; [reflexivity|]. split; [exact Hidx|]. split; [exact H|].
  split; [reflexivity|]. split; [reflexivity|]. split; [reflexivity|]. split; [reflexivity|].
  destruct (C6_replace_closes_old_first created_world "a" "u1" 0%nat bare_comet
              eq_refl Hidx H eq_refl eq_refl eq_refl)
    as [_ Hthrown].
  destruct (Hthrown eq_refl) as (w1 & Hrun & _ & _ & _ & Hstays).
  exists w1. split; [exact Hrun | exact Hstays].
Defined.

Lemma C7_witness :
  sid echo_s1 = Some "s1" /\
  sendMsg WithPackHook sample_json sample_enc plain_msg None true "s1" fresh_frame
    = Normal tt sent_frame /\
  exists f2,
    echoMsg echo_s1 sent_frame = Normal tt f2 /\
    eventPool (this sent_frame) !! "s1" = Some [mkListener true "s1"] /\
    eventPool (this f2) !! "s1" = None.
Proof.
  assert (sendMsg WithPackHook sample_json sample_enc plain_msg None true "s1" fresh_frame
            = Normal tt sent_frame) as Hrun by (by vm_compute).
  split; [reflexivity|]. split; [exact Hrun|].
  destruct (C7_waiter_removed_after_callback WithPackHook sample_json sample_enc
              0%nat (new_Comet "a") empty_env sent_frame plain_msg echo_s1 None "s1"
              eq_refl Hrun)
    as (f2 & notes & Hecho & _ & Hstill & _ & Hgone).
  exists f2. split; [exact Hecho|]. split; [exact Hstill | exact Hgone].
Defined.

Lemma C8_witness :
  echoFunc (onEcho (Some Observer) (new_Comet "a")) = Some Observer /\
  sid echo_s1 = Some "s1" /\
  sendMsg WithPackHook sample_json sample_enc plain_msg None true "s1" observed_frame
    = Normal tt observed_sent /\
  exists f2 evs,
    echoMsg echo_s1 observed_sent = Normal tt f2 /\
    trace (env f2) = app (trace (env observed_sent)) evs /\
    forall r' cid s' m' seen,
      In (Called r' SEcho (ATxn cid s' m') seen) evs -> cid = None.
Proof.
  assert (sendMsg WithPackHook sample_json sample_enc plain_msg None true "s1" observed_frame
            = Normal tt observed_sent) as Hrun by (by vm_compute).
  split; [reflexivity|]. split; [reflexivity|]. split; [exact Hrun|].
  destruct (C8_echo_event_has_no_cid WithPackHook sample_json sample_enc
              0%nat (onEcho (Some Observer) (new_Comet "a")) empty_env observed_sent
              Observer plain_msg echo_s1 None "s1" eq_refl eq_refl Hrun)
    as (f2 & evs & Hecho & Htrace & _ & Hcid).
  exists f2, evs. split; [exact Hecho|]. split; [exact Htrace|].
  intros r' cid s' m' seen Hin. exact (proj1 (Hcid r' cid s' m' seen Hin)).
Defined.

Lemma C10_witness :
  heap closed_world !! 0%nat = Some (compelled sample_comet) /\
  closeFlag (compelled sample_comet) = true /\
  delivered WithPackHook sample_enc (compelled sample_comet) (sample_json ping5) = Some "{}" /\
  heart_safe (compelled sample_comet) (wenv closed_world) /\
  exists w1 c1,
    invoke 0%nat (pongMsg WithPackHook sample_json sample_enc ping5 None) closed_world
      = Normal tt w1 /\
    heap w1 !! 0%nat = Some c1 /\
    loopTimeout c1 = 10000 /\
    closeFlag c1 = true /\ closeReason c1 = Some CLOSE_COMPEL.
Proof.
  assert (heap closed_world !! 0%nat = Some (compelled sample_comet)) as H by (by vm_compute).
  split; [exact H|]. split; [reflexivity|]. split; [reflexivity|]. split; [exact I|].
  destruct (C10_heartbeat_on_closed WithPackHook sample_json sample_enc
              closed_world 0%nat (compelled sample_comet) ping5 None "{}"
              H eq_refl eq_refl I)
    as (w1 & c1 & Hrun & Hheap & _ & _ & Hwin & _ & _ & Hflag & Hreason & _).
  exists w1, c1. split; [exact Hrun|]. split; [exact Hheap|].
  split; [exact Hwin|]. split; [exact Hflag | exact Hreason].
Defined.

(** * Further properties

    The manager's key table and queries, the peer-close listener, [start],
    the failure paths of the payload transform, and the invariants every run
    keeps. *)

(** ** The key table *)

Lemma mapComet_final k cid w :
  final (mapComet k cid w) =
  mkWorld (stamped k cid w) (set_keyMap (<[k := visited k cid (wenv w)]> (keyMap (wenv w))) (wenv w)).
Proof.
  unfold mapComet, stamped, visited. cbv zeta.
  destruct (comets (wenv w) !! cid) as [r|]; [|done].
  unfold invoke. simpl. by destruct (heap w !! r).
Qed.

(** X1.  Two calls of [mapComet] for one key, for whatever connection ids:
    the record of the key holds the id of the second call, [visits] has
    grown by two (from 0 for a key not seen before), [lastVisit] is the time
    of the call, and [alive] is what it was before the first call (the time
    of the first call for a key not seen before): [mapComet] does not
    refresh [alive] of a key it knows.  Other keys are not touched. *)
Theorem X1_mapComet_twice (w : World) (k cid1 cid2 : string) :
  let w2 := final (mapComet k cid2 (final (mapComet k cid1 w))) in
  keyMap (wenv w2) !! k =
    Some (mkKeyRec cid2
            (match keyMap (wenv w) !! k with Some rec => visits rec | None => 0 end + 2)
            (now (wenv w))
            (match keyMap (wenv w) !! k with Some rec => alive rec | None => now (wenv w) end)) /\
  (forall k', k' <> k -> keyMap (wenv w2) !! k' = keyMap (wenv w) !! k') /\
  comets (wenv w2) = comets (wenv w) /\ sendIds (wenv w2) = sendIds (wenv w).
Proof.
  intros w2. subst w2. rewrite !mapComet_final. simpl.
  unfold visited at 1. simpl. rewrite lookup_insert_eq.
  split.
  - rewrite lookup_insert_eq. unfold visited.
    destruct (keyMap (wenv w) !! k) as [rec|]; simpl; do 2 f_equal; lia.
  - split; [|by destruct (wenv w)].
    intros k' Hne. by rewrite !lookup_insert_ne.
Qed.

(** [createComet] when there is no connection to replace. *)
Lemma createComet_new cid uuid w :
  let given := match cid with Some i => truthy i | None => false end in
  let i := match cid with Some i => if truthy i then i else uuid | None => uuid end in
  given = false \/ comets (wenv w) !! i = None ->
  createComet cid uuid w =
  Normal (fresh (dom (heap w)))
    (mkWorld (<[fresh (dom (heap w)) := wire (new_Comet i)]> (heap w))
       (set_comets (<[i := fresh (dom (heap w))]> (comets (wenv w))) (wenv w))).
Proof.
  intros given i H. unfold createComet. cbv zeta. fold given i.
  assert ((if given
           then do cs <- gets (fun w => comets (wenv w));
                match cs !! i with Some old => invoke old del | None => ret tt end
           else ret tt) w = Normal tt w) as Hfirst.
  { destruct given; [|done]. destruct H as [?|H]; [done|].
    unfold bind, gets. by rewrite H. }
  unfold bind at 1. rewrite Hfirst.
  unfold bind, new, modify, ret, invoke. simpl. rewrite lookup_insert_eq. simpl.
  unfold store_back. simpl. by rewrite insert_insert_eq.
Qed.

(** X2.  The order of [mapComet] and [createComet] matters.  With no
    connection stored under [cid]: if the connection is created first and
    the key bound then, the connection carries the key; if the key is bound
    first, [createComet] makes a connection without key, [findComet] finds
    it by the key all the same, and the loop of [getCometsExp] reports it as
    having no key record. *)
Theorem X2_bind_key_after_create (w : World) (k cid uuid : string) :
  truthy cid = true ->
  comets (wenv w) !! cid = None ->
  let r := fresh (dom (heap w)) in
  (exists w1,
     createComet (Some cid) uuid w = Normal r w1 /\
     heap (final (mapComet k cid w1)) !! r = Some (set_key (Some k) (wire (new_Comet cid)))) /\
  (exists w2,
     createComet (Some cid) uuid (final (mapComet k cid w)) = Normal r w2 /\
     heap w2 !! r = Some (wire (new_Comet cid)) /\
     key (wire (new_Comet cid)) = None /\
     findComet k w2 = (FoundObject r, []) /\
     exp_entry (wenv w2) cid (wire (new_Comet cid)) =
       Some (mkExp cid None None "comet object has no key record")).
Proof.
  intros Hcid Hnew r. split.
  - eexists. split.
    + rewrite (createComet_new (Some cid) uuid w); simpl; rewrite Hcid; [reflexivity|by right].
    + rewrite mapComet_final. unfold stamped. simpl.
      by rewrite !lookup_insert_eq.
  - pose proof (mapComet_final k cid w) as Hm.
    assert (stamped k cid w = heap w) as Hst by (unfold stamped; by rewrite Hnew).
    rewrite Hst in Hm. rewrite Hm.
    eexists. split.
    + rewrite createComet_new; simpl; rewrite Hcid; [reflexivity|].
      right. by destruct (wenv w).
    + simpl. rewrite lookup_insert_eq. split; [done|]. split; [done|]. split; [|done].
      unfold findComet. simpl. rewrite lookup_insert_eq.
      assert (k_cid (visited k cid (wenv w)) = cid) as ->
        by (unfold visited; by destruct (keyMap (wenv w) !! k)).
      by rewrite lookup_insert_eq.
Qed.

(** ** What the methods do to the manager's tables *)

Lemma env_le_refl e : env_le e e.
Proof. by repeat split. Qed.

Lemma env_le_trans e1 e2 e3 : env_le e1 e2 -> env_le e2 e3 -> env_le e1 e3.
Proof.
  intros (Ha & Hb & Hc) (Ha' & Hb' & Hc'). repeat split; [auto | auto | congruence].
Qed.

Lemma tends_bind {A B} (m : Meth A) (k : A -> Meth B) :
  tends m -> (forall a, tends (k a)) -> tends (bind m k).
Proof.
  intros Hm Hk f. specialize (Hm f). unfold bind.
  destruct (m f) as [a s|x s]; simpl in *; [|done].
  eapply env_le_trans; [exact Hm | apply Hk].
Qed.

Lemma tends_still {A} (m : Meth A) :
  (forall f, exists evs, env (final (m f)) = logs evs (env f)) -> tends m.
Proof. intros H f. destruct (H f) as (evs & ->). by repeat split. Qed.

Lemma tends_ret {A} (a : A) : tends (ret a).
Proof. apply tends_still. intros f. exists []. simpl. by rewrite logs_nil. Qed.
Lemma tends_throw {A} x : tends (@throw Frame A x).
Proof. apply tends_still. intros f. exists []. simpl. by rewrite logs_nil. Qed.
Lemma tends_gets {A} (g : Frame -> A) : tends (gets g).
Proof. apply tends_still. intros f. exists []. simpl. by rewrite logs_nil. Qed.
Lemma tends_on_this g : tends (on_this g).
Proof. apply tends_still. intros f. exists []. simpl. by rewrite logs_nil. Qed.
Lemma tends_emit ev : tends (emit ev).
Proof. apply tends_still. intros f. by exists [ev]. Qed.
Lemma tends_call slot a : tends (call slot a).
Proof. apply tends_still. intros f. by eexists [_]. Qed.
Lemma tends_on_env g : (forall e, env_le e (g e)) -> tends (on_env g).
Proof. intros H f. apply H. Qed.

Ltac tends_step :=
  first
    [ apply tends_call
    | apply tends_ret | apply tends_throw | apply tends_gets | apply tends_on_this
    | apply tends_emit
    | solve [ auto 2 ]
    | apply tends_bind; [| intros ? ]
    | lazymatch goal with
      | |- tends (match ?x with _ => _ end) => destruct x
      end ].

Ltac tends_auto := cbv zeta; repeat tends_step.

Lemma clearTimeout_tends h : tends (clearTimeout h).
Proof. apply tends_on_env. intros []. by repeat split. Qed.

Lemma _setTimeOut_tends msec : tends (_setTimeOut msec).
Proof.
  pose proof clearTimeout_tends.
  unfold _setTimeOut, setTimeout, me. tends_auto.
  all: apply tends_on_env; intros []; by repeat split.
Qed.

Lemma _regSendId_tends cid s : tends (_regSendId cid s).
Proof. unfold _regSendId. tends_auto. all: apply tends_on_env; intros []; by repeat split. Qed.

Lemma _unregSendId_tends s : tends (_unregSendId s).
Proof. unfold _unregSendId. tends_auto. all: apply tends_on_env; intros []; by repeat split. Qed.

Lemma _deleteComet_tends cid : tends (_deleteComet cid).
Proof.
  apply tends_on_env. intros []. repeat split; simpl; try done.
  intros i r H. apply lookup_delete_Some in H. tauto.
Qed.

Lemma refresh_alive_tends : tends refresh_alive.
Proof.
  intros [r c e]. unfold refresh_alive, bind, me, gets, on_env, modify, throw, ret. simpl.
  destruct (key c) as [k|]; [|apply env_le_refl].
  destruct (truthy k); [|apply env_le_refl].
  cbn [env this self_ref].
  destruct (keyMap e !! k) as [rec|] eqn:Hk; simpl; [|apply env_le_refl].
  destruct e; simpl in *. repeat split; simpl; try done.
  intros k' Hk'. destruct (decide (k = k')) as [->|Hne].
  - rewrite lookup_insert_eq. eauto.
  - by rewrite lookup_insert_ne.
Qed.

Lemma _remove_tends : tends _remove.
Proof.
  pose proof clearTimeout_tends. pose proof _deleteComet_tends.
  unfold _remove, me. tends_auto.
Qed.

Lemma _close_tends reason : tends (_close reason).
Proof. unfold _close, me. tends_auto. Qed.

Lemma del_tends : tends del.
Proof. pose proof _remove_tends. pose proof _close_tends. unfold del, me. tends_auto. Qed.

Lemma on_timeout_tends : tends on_timeout.
Proof.
  pose proof _remove_tends. pose proof _close_tends.
  unfold on_timeout, _error, me. tends_auto.
Qed.

Lemma on_peer_close_tends : tends on_peer_close.
Proof. pose proof _remove_tends. unfold on_peer_close, me. tends_auto. Qed.

Lemma times_tends n (m : Meth unit) : tends m -> tends (times n m).
Proof. intros H. induction n; simpl; tends_auto. Qed.

Lemma emit_echo_tends ls m : tends (emit_echo ls m).
Proof.
  pose proof _unregSendId_tends.
  induction ls as [|l ls IH]; simpl; [apply tends_ret|].
  unfold on_echo, me. tends_auto.
Qed.

Lemma echoMsg_tends m : tends (echoMsg m).
Proof. pose proof emit_echo_tends. unfold echoMsg, me. tends_auto. Qed.

Section Tables.

Variable impl : Impl.
Variable JSON_stringify : Msg -> string.
Variable aesEnc : string -> string.

Abbreviation _send := (_send impl JSON_stringify aesEnc).
Abbreviation start := (start impl JSON_stringify aesEnc).
Abbreviation sendMsg := (sendMsg impl JSON_stringify aesEnc).
Abbreviation directSend := (directSend impl JSON_stringify aesEnc).
Abbreviation pongMsg := (pongMsg impl JSON_stringify aesEnc).

Lemma _send_tends msg p ct : tends (_send msg p ct).
Proof.
  apply tends_still. intros [r c e].
  destruct (_send_outcome impl JSON_stringify aesEnc msg p ct r c e) as (evs & -> & _).
  by exists evs.
Qed.

Lemma start_tends : tends start.
Proof.
  pose proof _send_tends. pose proof _setTimeOut_tends.
  open_start. unfold me. tends_auto.
Qed.

Lemma sendMsg_tends msg ct cb uuid : tends (sendMsg msg ct cb uuid).
Proof.
  pose proof _send_tends. pose proof _regSendId_tends.
  open_sendMsg. unfold me. tends_auto.
Qed.

Lemma directSend_tends msg : tends (directSend msg).
Proof. open_directSend. apply _send_tends. Qed.

Lemma pongMsg_tends m ct : tends (pongMsg m ct).
Proof.
  pose proof _send_tends. pose proof _setTimeOut_tends. pose proof refresh_alive_tends.
  open_pongMsg. unfold me. tends_auto.
Qed.

End Tables.

(** ** What the methods do to the id and the key *)

Section Identity.

Variable impl : Impl.
Variable JSON_stringify : Msg -> string.
Variable aesEnc : string -> string.

Abbreviation _send := (_send impl JSON_stringify aesEnc).
Abbreviation start := (start impl JSON_stringify aesEnc).
Abbreviation sendMsg := (sendMsg impl JSON_stringify aesEnc).
Abbreviation directSend := (directSend impl JSON_stringify aesEnc).
Abbreviation pongMsg := (pongMsg impl JSON_stringify aesEnc).

Lemma _setTimeOut_ident msec : keeps ident (_setTimeOut msec).
Proof. unfold _setTimeOut, setTimeout, clearTimeout, me. meth_auto. Qed.

Lemma _remove_ident : keeps ident _remove.
Proof. unfold _remove, _deleteComet, clearTimeout, me. meth_auto. Qed.

Lemma del_ident : keeps ident del.
Proof. pose proof _remove_ident. unfold del, _close, me. meth_auto. Qed.

Lemma on_timeout_ident : keeps ident on_timeout.
Proof. pose proof _remove_ident. unfold on_timeout, _close, _error, me. meth_auto. Qed.

Lemma on_peer_close_ident : keeps ident on_peer_close.
Proof. pose proof _remove_ident. unfold on_peer_close, me. meth_auto. Qed.

Lemma start_ident : keeps ident start.
Proof.
  pose proof (_send_keeps impl JSON_stringify aesEnc ident).
  pose proof _setTimeOut_ident. open_start. unfold me. meth_auto.
Qed.

Lemma sendMsg_ident msg ct cb uuid : keeps ident (sendMsg msg ct cb uuid).
Proof.
  pose proof (_send_keeps impl JSON_stringify aesEnc ident).
  open_sendMsg. unfold _regSendId, me. meth_auto.
Qed.

Lemma directSend_ident msg : keeps ident (directSend msg).
Proof. open_directSend. apply _send_keeps. Qed.

Lemma emit_echo_ident ls m : keeps ident (emit_echo ls m).
Proof.
  induction ls as [|l ls IH]; simpl; [apply keeps_ret|].
  unfold on_echo, _unregSendId, me. meth_auto.
Qed.

Lemma echoMsg_ident m : keeps ident (echoMsg m).
Proof. pose proof emit_echo_ident. unfold echoMsg, me. meth_auto. Qed.

Lemma pongMsg_ident m ct : keeps ident (pongMsg m ct).
Proof.
  pose proof (_send_keeps impl JSON_stringify aesEnc ident).
  pose proof _setTimeOut_ident. open_pongMsg. unfold refresh_alive, me. meth_auto.
Qed.

End Identity.

(** ** Well-formed worlds *)

Lemma invoke_well_formed {A} r (m : Meth A) :
  keeps ident m -> tends m -> preserves well_formed (invoke r m).
Proof.
  intros Hk Ht w [Hkeyed Hindexed].
  destruct (heap w !! r) as [c|] eqn:Hc; [|by rewrite invoke_missing].
  rewrite (invoke_final _ _ _ _ Hc).
  specialize (Hk (mkFrame r c (wenv w))). specialize (Ht (mkFrame r c (wenv w))).
  simpl in *. destruct Ht as (Hkeys & Hcomets & _).
  unfold ident in Hk. injection Hk as Hid Hkey.
  split.
  - intros r2 c2 k. unfold store_back; simpl.
    destruct (decide (r = r2)) as [<-|Hne].
    + rewrite lookup_insert_eq. intros [= <-] Hk2. apply Hkeys.
      apply (Hkeyed r c k Hc). congruence.
    + rewrite lookup_insert_ne by done. intros H2 Hk2. apply Hkeys. eauto.
  - intros i r2 Hi. unfold store_back in *; simpl in *.
    destruct (Hindexed i r2 (Hcomets i r2 Hi)) as (c2 & Hc2 & Hid2).
    destruct (decide (r = r2)) as [<-|Hne].
    + rewrite lookup_insert_eq. eexists; split; [done|]. congruence.
    + rewrite lookup_insert_ne by done. eauto.
Qed.

Lemma well_formed_env w e :
  keyMap e = keyMap (wenv w) -> comets e = comets (wenv w) ->
  well_formed w -> well_formed (mkWorld (heap w) e).
Proof.
  intros Hk Hc [H1 H2]. split.
  - intros r c k. simpl. rewrite Hk. apply H1.
  - intros i r. simpl. rewrite Hc. apply H2.
Qed.

Lemma mapComet_well_formed k cid : preserves well_formed (mapComet k cid).
Proof.
  intros w [Hkeyed Hindexed]. rewrite mapComet_final. unfold stamped.
  assert (forall k', is_Some (keyMap (wenv w) !! k') ->
            is_Some (<[k := visited k cid (wenv w)]> (keyMap (wenv w)) !! k')) as Hgrow.
  { intros k' Hk'. destruct (decide (k = k')) as [->|Hne].
    - rewrite lookup_insert_eq. eauto.
    - by rewrite lookup_insert_ne. }
  split.
  - intros r c k'. simpl.
    destruct (comets (wenv w) !! cid) as [r0|]; [|intros; apply Hgrow; eauto].
    destruct (heap w !! r0) as [c0|] eqn:Hc0; [|intros; apply Hgrow; eauto].
    destruct (decide (r0 = r)) as [<-|Hne].
    + rewrite lookup_insert_eq. intros [= <-]. simpl. intros [= <-].
      rewrite lookup_insert_eq. eauto.
    + rewrite lookup_insert_ne by done. intros; apply Hgrow; eauto.
  - intros i r. simpl. intros Hi. destruct (Hindexed i r) as (c & Hc & Hid).
    { by destruct (wenv w). }
    destruct (comets (wenv w) !! cid) as [r0|]; [|eauto].
    destruct (heap w !! r0) as [c0|] eqn:Hc0; [|eauto].
    destruct (decide (r0 = r)) as [<-|Hne].
    + rewrite lookup_insert_eq. assert (c0 = c) as -> by congruence. eauto.
    + rewrite lookup_insert_ne by done. eauto.
Qed.

Lemma createComet_well_formed cid uuid : preserves well_formed (createComet cid uuid).
Proof.
  unfold createComet. cbv zeta.
  apply preserves_bind.
  { destruct (match cid with Some i => truthy i | None => false end);
      [|apply preserves_ret].
    apply preserves_bind; [apply preserves_gets|]. intros cs.
    destruct (cs !! _); [|apply preserves_ret].
    apply invoke_well_formed; [apply del_ident | apply del_tends]. }
  intros _. intros w [Hkeyed Hindexed].
  set (i := match cid with Some i => if truthy i then i else uuid | None => uuid end).
  unfold bind, new, modify, ret, invoke. simpl. rewrite lookup_insert_eq. simpl.
  unfold store_back. simpl. rewrite insert_insert_eq.
  assert (heap w !! fresh (dom (heap w)) = None) as Hfresh
    by (apply not_elem_of_dom, is_fresh).
  split.
  - intros r c k. simpl.
    destruct (decide (fresh (dom (heap w)) = r)) as [<-|Hne].
    + rewrite lookup_insert_eq. by intros [= <-].
    + rewrite lookup_insert_ne by done. intros Hc Hk. by apply (Hkeyed r c k).
  - intros j r. simpl. destruct (decide (i = j)) as [<-|Hne].
    + rewrite lookup_insert_eq. intros [= <-]. rewrite lookup_insert_eq. eauto.
    + rewrite lookup_insert_ne by done.
      intros Hj. destruct (Hindexed j r Hj) as (c & Hc & Hid).
      rewrite lookup_insert_ne by congruence. eauto.
Qed.

Section WellFormed.

Variable impl : Impl.
Variable JSON_stringify : Msg -> string.
Variable aesEnc : string -> string.

Abbreviation step := (step impl JSON_stringify aesEnc).
Abbreviation steps := (steps impl JSON_stringify aesEnc).

Lemma step_well_formed o : preserves well_formed (step o).
Proof.
  destruct o; simpl.
  - apply invoke_well_formed; [apply start_ident | apply start_tends].
  - apply invoke_well_formed; [apply sendMsg_ident | apply sendMsg_tends].
  - apply invoke_well_formed; [apply directSend_ident | apply directSend_tends].
  - apply invoke_well_formed; [apply echoMsg_ident | apply echoMsg_tends].
  - apply invoke_well_formed; [apply pongMsg_ident | apply pongMsg_tends].
  - apply invoke_well_formed; [apply del_ident | apply del_tends].
  - apply invoke_well_formed; [by apply keeps_on_this | apply tends_on_this].
  - apply invoke_well_formed; [by apply keeps_on_this | apply tends_on_this].
  - apply invoke_well_formed; [by apply keeps_on_this | apply tends_on_this].
  - apply invoke_well_formed; [by apply keeps_on_this | apply tends_on_this].
  - apply invoke_well_formed; [by apply keeps_on_this | apply tends_on_this].
  - apply invoke_well_formed; [by apply keeps_on_this | apply tends_on_this].
  - apply invoke_well_formed; [by apply keeps_on_this | apply tends_on_this].
  - apply invoke_well_formed.
    + apply keeps_bind; [apply keeps_gets|]. intros c. apply times_keeps, on_peer_close_ident.
    + apply tends_bind; [apply tends_gets|]. intros c. apply times_tends, on_peer_close_tends.
  - intros w Hw. unfold fire. destruct (timers (wenv w) !! h) as [t|]; [|done].
    apply invoke_well_formed; [apply on_timeout_ident | apply on_timeout_tends |].
    apply well_formed_env; [by destruct (wenv w) | by destruct (wenv w) | done].
  - apply preserves_bind; [apply createComet_well_formed | intros; apply preserves_ret].
  - apply mapComet_well_formed.
  - intros w Hw. simpl. apply well_formed_env; [by destruct (wenv w) | by destruct (wenv w) | done].
Qed.

Lemma steps_well_formed os w : well_formed w -> well_formed (steps os w).
Proof.
  revert w. induction os as [|o os IH]; intros w Hw; simpl; [done|].
  by apply IH, step_well_formed.
Qed.

Lemma empty_well_formed : well_formed empty_world.
Proof. split; intros ? ?; simpl; by rewrite ?lookup_empty. Qed.

End WellFormed.

(** ** The stale list *)

Lemma exp_loop_spec w entries :
  (forall cid r, (cid, r) ∈ entries -> is_Some (heap w !! r)) ->
  exists exps,
    exp_loop w entries = Some exps /\
    forall x, x ∈ exps <->
      exists cid r c, (cid, r) ∈ entries /\ heap w !! r = Some c /\
                      exp_entry (wenv w) cid c = Some x.
Proof.
  induction entries as [|[cid r] rest IH]; intros Hall; simpl.
  - exists []. split; [done|]. intros x. split; [by intros ?%elem_of_nil|].
    by intros (? & ? & ? & ?%elem_of_nil & _).
  - destruct (Hall cid r) as [c Hc]; [by left|]. rewrite Hc.
    destruct IH as (exps & -> & Hexps).
    { intros cid' r' Hin. apply (Hall cid' r'). by right. }
    eexists. split; [reflexivity|]. intros x.
    destruct (exp_entry (wenv w) cid c) as [x0|] eqn:Hx0.
    + rewrite elem_of_cons, Hexps. split.
      * intros [->|(cid' & r' & c' & Hin & Hc' & Hx)].
        -- exists cid, r, c. split; [by left|done].
        -- exists cid', r', c'. split; [by right|done].
      * intros (cid' & r' & c' & Hin & Hc' & Hx).
        apply elem_of_cons in Hin as [[= -> ->]|Hin].
        -- left. congruence.
        -- right. eauto 6.
    + rewrite Hexps. split.
      * intros (cid' & r' & c' & Hin & Hc' & Hx).
        exists cid', r', c'. split; [by right|done].
      * intros (cid' & r' & c' & Hin & Hc' & Hx).
        apply elem_of_cons in Hin as [[= -> ->]|Hin]; [congruence|eauto 6].
Qed.

Lemma getCometsExp_members w :
  well_indexed w ->
  exists exps,
    getCometsExp w = Some exps /\
    forall x, x ∈ exps <->
      exists cid r c, comets (wenv w) !! cid = Some r /\ heap w !! r = Some c /\
                      exp_entry (wenv w) cid c = Some x.
Proof.
  intros Hidx.
  destruct (exp_loop_spec w (map_to_list (comets (wenv w)))) as (exps & Hrun & Hexps).
  { intros cid r Hin. apply elem_of_map_to_list in Hin.
    destruct (Hidx cid r Hin) as (c & Hc & _). eauto. }
  exists exps. split; [done|].
  intros x. rewrite Hexps. split; intros (cid & r & c & Hin & H);
    exists cid, r, c; (split; [by apply elem_of_map_to_list|done]).
Qed.

Lemma exp_entry_cid e cid c x : exp_entry e cid c = Some x -> exp_cid x = cid.
Proof.
  unfold exp_entry.
  destruct (key c) as [k|]; [|by intros [= <-]].
  destruct (truthy k); [|by intros [= <-]].
  destruct (keyMap e !! k); [|by intros [= <-]].
  simpl. destruct (_ <? _); [by intros [= <-]|done].
Qed.

(** X3.  In a world where every entry of [comets] leads to an object,
    [getCometsExp] returns, and its list holds exactly the entries its loop
    body makes for the connections of [comets]: for a connection without
    key, for one whose key has no record in [keyMap], and for one whose
    record has [alive] more than 60000 ms back; not for one whose [alive] is
    exactly 60000 ms back or less. *)
Theorem X3_getCometsExp_lists_the_flagged (w : World) :
  well_indexed w ->
  exists exps,
    getCometsExp w = Some exps /\
    (forall x, x ∈ exps <->
       exists cid r c, comets (wenv w) !! cid = Some r /\ heap w !! r = Some c /\
                       exp_entry (wenv w) cid c = Some x) /\
    (forall cid r c k elem,
       comets (wenv w) !! cid = Some r -> heap w !! r = Some c ->
       key c = Some k -> truthy k = true -> keyMap (wenv w) !! k = Some elem ->
       ((exists x, x ∈ exps /\ exp_cid x = cid) <-> 60000 < now (wenv w) - alive elem) /\
       (forall x, x ∈ exps -> exp_cid x = cid ->
          exp_key x = Some k /\ exp_idle x = Some (now (wenv w) - alive elem))).
Proof.
  intros Hidx.
  destruct (getCometsExp_members w Hidx) as (exps & Hrun & Hmem).
  pose proof (exp_entry_cid (wenv w)) as Hcid.
  exists exps. split; [done|]. split; [done|].
  intros cid r c k elem Hcomet Hc Hkey Htruthy Helem.
  assert (exp_entry (wenv w) cid c =
          if 60 * 1000 <? now (wenv w) - alive elem
          then Some (mkExp cid (Some k) (Some (now (wenv w) - alive elem))
                 ("comet object idle than " +:+
                  decimal (Z.to_nat (now (wenv w) - alive elem)) +:+ "ms"))
          else None) as Hentry.
  { unfold exp_entry. by rewrite Hkey, Htruthy, Helem. }
  split.
  - split.
    + intros (x & Hx & Hxcid). apply Hmem in Hx as (cid' & r' & c' & Hcomet' & Hc' & Hx).
      assert (cid' = cid) as -> by (apply Hcid in Hx; congruence).
      assert (c' = c) as -> by congruence.
      rewrite Hentry in Hx. destruct (Z.ltb_spec (60 * 1000) (now (wenv w) - alive elem)); [lia|done].
    + intros Hidle. eexists. split.
      * apply Hmem. exists cid, r, c. split; [done|]. split; [done|].
        rewrite Hentry. destruct (Z.ltb_spec (60 * 1000) (now (wenv w) - alive elem)); [done|lia].
      * done.
  - intros x Hx Hxcid. apply Hmem in Hx as (cid' & r' & c' & Hcomet' & Hc' & Hx).
    assert (cid' = cid) as -> by (apply Hcid in Hx; congruence).
    assert (c' = c) as -> by congruence.
    rewrite Hentry in Hx. destruct (_ <? _); [|done]. by injection Hx as <-.
Qed.

(** ** Runs of the manager from its initial state *)

Lemma exp_entry_keyed e cid c x :
  (forall k, key c = Some k -> is_Some (keyMap e !! k)) ->
  exp_entry e cid c = Some x -> exp_info x <> "comet object has no key map".
Proof.
  intros Hkey. unfold exp_entry.
  destruct (key c) as [k|]; [|by intros [= <-]].
  destruct (truthy k); [|by intros [= <-]].
  destruct (Hkey k eq_refl) as [elem ->]. simpl.
  destruct (_ <? _); [|done]. intros [= <-]. simpl.
  intros H. by apply (f_equal (fun s => String.get 13 s)) in H.
Qed.

Section Reachable.

Variable impl : Impl.
Variable JSON_stringify : Msg -> string.
Variable aesEnc : string -> string.

Abbreviation steps := (steps impl JSON_stringify aesEnc).
Abbreviation pongMsg := (pongMsg impl JSON_stringify aesEnc).
Abbreviation delivered := (delivered impl aesEnc).

(** X4.  In every state the manager reaches from its initial state, by
    whatever operations (turns that throw included), the key that
    [mapComet] has put on a connection has its record in [keyMap].  So the
    function [createComet] gives to [onHeart] always finds the record whose
    [alive] it sets: a [pongMsg] whose payload the transform delivers
    returns.  And no entry of [getCometsExp] ever says
    [comet object has no key map]. *)
Theorem X4_key_has_its_record (os : list Op) :
  let w := steps os empty_world in
  (forall r c k, heap w !! r = Some c -> key c = Some k ->
     is_Some (keyMap (wenv w) !! k)) /\
  (forall r c m ct data,
     heap w !! r = Some c -> delivered c (JSON_stringify m) = Some data ->
     returns (invoke r (pongMsg m ct) w) = true) /\
  (exists exps, getCometsExp w = Some exps /\
     forall x, x ∈ exps -> exp_info x <> "comet object has no key map").
Proof.
  intros w.
  destruct (steps_well_formed impl JSON_stringify aesEnc os empty_world empty_well_formed)
    as [Hkeyed Hindexed].
  fold w in Hkeyed, Hindexed.
  split; [exact Hkeyed|]. split.
  - intros r c m ct data Hc Hd.
    destruct (pongMsg_runs impl JSON_stringify aesEnc m ct r c (wenv w) data Hd)
      as (e' & Hrun & _).
    { unfold heart_safe. destruct (hbFunc c) as [[]|]; try done.
      destruct (key c) as [k|] eqn:Hk; [|done]. intros _. by apply (Hkeyed r c k). }
    by rewrite (invoke_frame _ _ _ _ Hc), Hrun.
  - destruct (getCometsExp_members w Hindexed) as (exps & Hrun & Hexps).
    exists exps. split; [done|].
    intros x Hx. apply Hexps in Hx as (cid & r & c & _ & Hc & Hx).
    apply (exp_entry_keyed _ _ _ _ (fun k => Hkeyed r c k Hc) Hx).
Qed.

(** X5.  In every state the manager reaches from its initial state, the
    connection stored in [comets] under an id has that id.  So [getComet]
    hands back a connection with the id asked for, [findComet] one with the
    id recorded for the key, and [getCometBySendId] one with the id
    recorded for the transaction. *)
Theorem X5_index_holds_the_id (os : list Op) :
  let w := steps os empty_world in
  (forall cid r, getComet cid w = Some r ->
     exists c, heap w !! r = Some c /\ comet_id c = cid) /\
  (forall k r, (findComet k w).1 = FoundObject r ->
     exists c elem, heap w !! r = Some c /\ keyMap (wenv w) !! k = Some elem /\
                    comet_id c = k_cid elem) /\
  (forall s r, getCometBySendId s w = Some r ->
     exists c, heap w !! r = Some c /\ sendIds (wenv w) !! s = Some (comet_id c)).
Proof.
  intros w.
  destruct (steps_well_formed impl JSON_stringify aesEnc os empty_world empty_well_formed)
    as [_ Hindexed].
  fold w in Hindexed.
  split; [exact Hindexed|]. split.
  - intros k r. unfold findComet.
    destruct (keyMap (wenv w) !! k) as [elem|]; [|done]. simpl.
    destruct (comets (wenv w) !! k_cid elem) as [r'|] eqn:Hr; [|done].
    intros [= ->]. destruct (Hindexed _ _ Hr) as (c & Hc & Hid). eauto.
  - intros s r. unfold getCometBySendId.
    destruct (sendIds (wenv w) !! s) as [cid|]; [|done].
    destruct (truthy cid); [|done]. intros Hr.
    destruct (Hindexed _ _ Hr) as (c & Hc & Hid). exists c. by rewrite Hid.
Qed.

End Reachable.

(** ** Keys are kept *)

Lemma invoke_tends {A} r (m : Meth A) w :
  tends m -> env_le (wenv w) (wenv (final (invoke r m w))).
Proof.
  intros Ht. destruct (heap w !! r) as [c|] eqn:Hc.
  - rewrite (invoke_final _ _ _ _ Hc). apply (Ht (mkFrame r c (wenv w))).
  - rewrite invoke_missing by done. apply env_le_refl.
Qed.

Lemma invoke_known {A} k r (m : Meth A) :
  tends m -> preserves (fun w => is_Some (keyMap (wenv w) !! k)) (invoke r m).
Proof. intros Ht w Hk. destruct (invoke_tends r m w Ht) as (Hkeys & _). by apply Hkeys. Qed.

Lemma mapComet_known k k' cid :
  preserves (fun w => is_Some (keyMap (wenv w) !! k)) (mapComet k' cid).
Proof.
  intros w Hk. rewrite mapComet_final. simpl.
  destruct (decide (k' = k)) as [->|Hne].
  - rewrite lookup_insert_eq. eauto.
  - by rewrite lookup_insert_ne.
Qed.

Lemma createComet_known k cid uuid :
  preserves (fun w => is_Some (keyMap (wenv w) !! k)) (createComet cid uuid).
Proof.
  unfold createComet. cbv zeta.
  apply preserves_bind.
  { destruct (match cid with Some i => truthy i | None => false end);
      [|apply preserves_ret].
    apply preserves_bind; [apply preserves_gets|]. intros cs.
    destruct (cs !! _); [|apply preserves_ret].
    apply invoke_known, del_tends. }
  intros _. apply preserves_bind; [by intros w|]. intros r.
  apply preserves_bind; [intros w; simpl; by destruct (wenv w)|]. intros _.
  apply preserves_bind; [|intros; apply preserves_ret].
  apply invoke_known, tends_on_this.
Qed.

Lemma count_visit_size w : getCometsCountVisit w = size (keyMap (wenv w)).
Proof. reflexivity. Qed.

Lemma count_live_size w : getCometsCountLive w = size (comets (wenv w)).
Proof. reflexivity. Qed.

Section Keys.

Variable impl : Impl.
Variable JSON_stringify : Msg -> string.
Variable aesEnc : string -> string.

Abbreviation step := (step impl JSON_stringify aesEnc).
Abbreviation steps := (steps impl JSON_stringify aesEnc).

Lemma step_known k o : preserves (fun w => is_Some (keyMap (wenv w) !! k)) (step o).
Proof.
  destruct o; simpl.
  - apply invoke_known, start_tends.
  - apply invoke_known, sendMsg_tends.
  - apply invoke_known, directSend_tends.
  - apply invoke_known, echoMsg_tends.
  - apply invoke_known, pongMsg_tends.
  - apply invoke_known, del_tends.
  - apply invoke_known, tends_on_this.
  - apply invoke_known, tends_on_this.
  - apply invoke_known, tends_on_this.
  - apply invoke_known, tends_on_this.
  - apply invoke_known, tends_on_this.
  - apply invoke_known, tends_on_this.
  - apply invoke_known, tends_on_this.
  - apply invoke_known.
    apply tends_bind; [apply tends_gets|]. intros c. apply times_tends, on_peer_close_tends.
  - intros w Hk. unfold fire. destruct (timers (wenv w) !! h) as [t|]; [|done].
    apply (invoke_known k); [apply on_timeout_tends|]. simpl. by destruct (wenv w).
  - apply preserves_bind; [apply createComet_known | intros; apply preserves_ret].
  - apply mapComet_known.
  - intros w Hk. simpl. by destruct (wenv w).
Qed.

Lemma steps_known k os w :
  is_Some (keyMap (wenv w) !! k) -> is_Some (keyMap (wenv (steps os w)) !! k).
Proof.
  revert w. induction os as [|o os IH]; intros w Hw; simpl; [done|].
  by apply IH, (step_known k o).
Qed.

(** X6.  No operation takes a key out of [keyMap].  Over any run,
    [getCometsCountVisit] does not go down; and once [mapComet] has been
    called for a key, [findComet] for that key never returns [null] and
    never writes to [console.error] again, whatever has become of the
    connection: it returns what [comets] holds under the id recorded for
    the key, or [undefined]. *)
Theorem X6_keys_are_never_forgotten (w : World) (os : list Op) :
  (getCometsCountVisit w <= getCometsCountVisit (steps os w))%nat /\
  forall k cid os',
    let w2 := steps os' (final (mapComet k cid (steps os w))) in
    exists elem,
      keyMap (wenv w2) !! k = Some elem /\
      findComet k w2 = (found (getComet (k_cid elem) w2), []).
Proof.
  split.
  - rewrite !count_visit_size, <- !(size_dom (D := gset string)).
    apply subseteq_size. intros k Hk. apply elem_of_dom. apply steps_known.
    by apply elem_of_dom.
  - intros k cid os' w2.
    assert (is_Some (keyMap (wenv w2) !! k)) as [elem Helem].
    { apply steps_known. rewrite mapComet_final. simpl. rewrite lookup_insert_eq. eauto. }
    exists elem. split; [done|]. unfold findComet. by rewrite Helem.
Qed.

End Keys.

(** ** Creating and looking up *)

Lemma invoke_keeps_objects {A} r (m : Meth A) w r' :
  is_Some (heap w !! r') -> is_Some (heap (final (invoke r m w)) !! r').
Proof.
  intros Hr'. destruct (heap w !! r) as [c|] eqn:Hc.
  - rewrite (invoke_final _ _ _ _ Hc). unfold store_back. simpl.
    destruct (decide (r = r')) as [->|Hne].
    + rewrite lookup_insert_eq. eauto.
    + by rewrite lookup_insert_ne.
  - by rewrite invoke_missing.
Qed.

(** X7.  When [createComet] returns, it returns a new object, different
    from every object there was: a connection with the manager's functions
    in its slots, no key, no pending transaction, not closed, and
    [getComet] finds it under its id, which is [cid], or what [uuid.v4()]
    gave when [cid] is missing or empty.  When no connection was stored
    under that id, nothing else happens: [getCometsCountLive] is one more,
    the other ids lead where they led, every other object is as it was and
    no callback is called. *)
Theorem X7_createComet_then_getComet (w w' : World) (cid : option string) (uuid : string)
    (r : ref) :
  createComet cid uuid w = Normal r w' ->
  let i := match cid with Some i => if truthy i then i else uuid | None => uuid end in
  heap w !! r = None /\
  heap w' !! r = Some (wire (new_Comet i)) /\
  getComet i w' = Some r /\
  (getComet i w = None ->
     getCometsCountLive w' = S (getCometsCountLive w) /\
     (forall j, j <> i -> getComet j w' = getComet j w) /\
     (forall r0 c0, heap w !! r0 = Some c0 -> heap w' !! r0 = Some c0) /\
     trace (wenv w') = trace (wenv w) /\
     sendIds (wenv w') = sendIds (wenv w) /\ keyMap (wenv w') = keyMap (wenv w)).
Proof.
  intros Hrun i.
  assert (heap w !! r = None /\ heap w' !! r = Some (wire (new_Comet i)) /\
          getComet i w' = Some r) as (H1 & H2 & H3).
  { revert Hrun. unfold createComet. cbv zeta. fold i. unfold bind at 1.
    match goal with |- context [(if ?b then ?m else ret tt) w] =>
      assert (forall r', is_Some (heap w !! r') ->
                is_Some (heap (final ((if b then m else ret tt) w)) !! r')) as Hdom;
      [|destruct ((if b then m else ret tt) w) as [[] w0|x w0]; [|done]]
    end.
    { intros r' Hr'. destruct (match cid with Some i0 => truthy i0 | None => false end);
        [|done].
      unfold bind, gets. destruct (comets (wenv w) !! i) as [old|]; [|done].
      by apply invoke_keeps_objects. }
    simpl in Hdom.
    unfold bind, new, modify, ret, invoke. simpl. rewrite lookup_insert_eq. simpl.
    intros [= <- <-]. unfold store_back, getComet. simpl. rewrite !lookup_insert_eq.
    split; [|done].
    destruct (heap w !! fresh (dom (heap w0))) as [c0|] eqn:Hold; [|done].
    destruct (Hdom (fresh (dom (heap w0)))) as [c1 Hc1]; [eauto|].
    assert (heap w0 !! fresh (dom (heap w0)) = None) as Hfresh
      by (apply not_elem_of_dom, is_fresh).
    congruence. }
  split; [done|]. split; [done|]. split; [done|].
  intros Hnew. unfold getComet in Hnew.
  rewrite (createComet_new cid uuid w) in Hrun by (by right).
  fold i in Hrun. injection Hrun as <- <-.
  rewrite !count_live_size. unfold getComet. simpl.
  split; [rewrite <- (map_size_insert_None i (fresh (dom (heap w))) _ Hnew); by destruct (wenv w)|].
  split; [intros j Hne; rewrite <- (lookup_insert_ne (comets (wenv w)) i j (fresh (dom (heap w)))) by done; by destruct (wenv w)|].
  split; [|by destruct (wenv w)].
  intros r0 c0 Hc0. rewrite lookup_insert_ne; [done|]. intros <-.
  assert (heap w !! fresh (dom (heap w)) = None) by (apply not_elem_of_dom, is_fresh).
  congruence.
Qed.

(** ** Closing a connection of the manager *)

Lemma trigger_managed t r c e :
  closeFlag c = false -> closeFunc c = true -> rmFunc c = Some Manager ->
  exists c' e',
    trigger t (mkFrame r c e) = Normal tt (mkFrame r c' e') /\
    comets e' = delete (comet_id c) (comets e) /\
    sendIds e' = filter (fun kv => kv.2 <> comet_id c) (sendIds e) /\
    keyMap e' = keyMap e /\
    timeId c' = 0%nat /\
    timers e' = match t with TimerExpiry => timers e | _ => cleared c (timers e) end.
Proof.
  intros H1 H2 H3. destruct c, e; simpl in *; subst. unfold cleared.
  destruct t; run_meth; try destruct errFunc0; simpl;
    destruct (Nat.eqb_spec timeId0 0) as [->|_]; by eexists _, _.
Qed.

(** X8.  The first close trigger (peer disconnect, timer callback or
    [del]) on a live connection that [comets] holds under its id, with a
    close callback and the manager's removal function: [getComet] no
    longer finds it and [getCometsCountLive] is one less; the other ids
    lead where they led.  [getCometBySendId] returns [null] for every
    transaction that was registered for it, and what it returned before
    for every other transaction.  [keyMap] is left as it is, so for a key
    whose record names the connection [findComet] now returns [undefined],
    without writing to [console.error]. *)
Theorem X8_close_leaves_the_key_behind (w : World) (r : ref) (c : Comet) (t : Trigger) :
  heap w !! r = Some c ->
  closeFlag c = false -> closeFunc c = true -> rmFunc c = Some Manager ->
  getComet (comet_id c) w = Some r ->
  exists w1,
    invoke r (trigger t) w = Normal tt w1 /\
    getComet (comet_id c) w1 = None /\
    getCometsCountLive w = S (getCometsCountLive w1) /\
    (forall j, j <> comet_id c -> getComet j w1 = getComet j w) /\
    (forall s, sendIds (wenv w) !! s = Some (comet_id c) -> getCometBySendId s w1 = None) /\
    (forall s, sendIds (wenv w) !! s <> Some (comet_id c) ->
       getCometBySendId s w1 = getCometBySendId s w) /\
    keyMap (wenv w1) = keyMap (wenv w) /\
    (forall k elem, keyMap (wenv w) !! k = Some elem -> k_cid elem = comet_id c ->
       findComet k w1 = (FoundUndefined, [])).
Proof.
  intros Hc Hlive Hcb Hrm Hidx. unfold getComet in Hidx.
  destruct (trigger_managed t r c (wenv w) Hlive Hcb Hrm)
    as (c' & e' & Hrun & Hcs & Hids & Hkm & _ & _).
  exists (mkWorld (<[r := c']> (heap w)) e'). split.
  { by rewrite (invoke_frame _ _ _ _ Hc), Hrun. }
  unfold getComet, getCometBySendId, findComet.
  rewrite !count_live_size. cbn [wenv]. rewrite Hcs, Hids, Hkm.
  split; [by rewrite lookup_delete_eq|].
  split.
  { rewrite map_size_delete_Some by eauto.
    assert (size (comets (wenv w)) <> 0%nat); [|lia].
    intros H0. apply map_size_empty_inv in H0. rewrite H0 in Hidx.
    by rewrite lookup_empty in Hidx. }
  split; [intros j Hne; by rewrite lookup_delete_ne|].
  split.
  { intros s Hs. destruct (filter _ (sendIds (wenv w)) !! s) as [cid'|] eqn:Hf; [|done].
    apply map_lookup_filter_Some in Hf as [Hs' Hne]. simpl in Hne. congruence. }
  split.
  { intros s Hs. destruct (sendIds (wenv w) !! s) as [cid'|] eqn:Hs'.
    - assert (filter (fun kv : string * string => kv.2 <> comet_id c) (sendIds (wenv w)) !! s
              = Some cid') as ->.
      { apply map_lookup_filter_Some. split; [done|]. simpl. congruence. }
      destruct (truthy cid'); [|done]. rewrite lookup_delete_ne; [done|congruence].
    - assert (filter (fun kv : string * string => kv.2 <> comet_id c) (sendIds (wenv w)) !! s
              = None) as ->; [|done].
      apply map_lookup_filter_None. by left. }
  split; [done|].
  intros k elem Hk Hcid. rewrite Hk, Hcid. by rewrite lookup_delete_eq.
Qed.

(** ** The peer goes away *)

Lemma on_peer_close_live r c e :
  closeFlag c = false -> closeFunc c = true ->
  on_peer_close (mkFrame r c e) =
  Normal tt (mkFrame r (peer_closed c)
    (removed c
       (logs (Called r SClose (ACloseEv CLOSE_PEER "closed by peer")
                (set_closeReason (Some CLOSE_PEER) (set_closeFlag true c))
              :: remove_note r (peer_closed c))
          (set_timers (cleared c (timers e)) e)))).
Proof.
  intros H1 H2. destruct c, e; simpl in *; subst.
  unfold peer_closed, removed, deleted, cleared, remove_note. run_meth. simpl.
  destruct (Nat.eqb_spec timeId0 0) as [->|_]; destruct rmFunc0 as [[]|]; simpl;
    by rewrite <- ?app_assoc.
Qed.

(** X9.  The transport reports that the peer has gone away, on a live
    connection with a close callback.  If [start] was never called there is
    no listener and nothing happens.  Otherwise the first listener closes
    the connection: the close callback is called once, with CLOSE_PEER and
    [closed by peer], the pending timer is cleared, the removal callback is
    called if there is one (the manager's takes the connection out of its
    tables), and [resp.end] is not called; every further listener, one for
    each further call of [start], writes one warning. *)
Theorem X9_peer_close_runs_every_listener (w : World) (r : ref) (c : Comet) :
  heap w !! r = Some c ->
  closeFlag c = false -> closeFunc c = true ->
  (respListeners c = 0%nat -> peer_close r w = Normal tt w) /\
  (forall n, respListeners c = S n ->
     peer_close r w =
     Normal tt
       (mkWorld (<[r := peer_closed c]> (heap w))
          (logs (replicate n (peer_warning (Some CLOSE_PEER)))
             (removed c
                (logs (Called r SClose (ACloseEv CLOSE_PEER "closed by peer")
                         (set_closeReason (Some CLOSE_PEER) (set_closeFlag true c))
                       :: remove_note r (peer_closed c))
                   (set_timers (cleared c (timers (wenv w))) (wenv w))))))).
Proof.
  intros Hc Hlive Hcb. unfold peer_close. rewrite (invoke_frame _ _ _ _ Hc).
  split.
  - intros Hn. unfold bind, me, gets. cbn [this]. rewrite Hn. simpl.
    unfold store_back. simpl. rewrite insert_id by done. by destruct w.
  - intros n Hn. unfold bind at 1. unfold me, gets. cbn [this]. rewrite Hn. simpl.
    unfold bind. rewrite on_peer_close_live by done.
    rewrite times_peer_closed by done. reflexivity.
Qed.

(** ** Opening the stream *)

Section Start.

Variable impl : Impl.
Variable JSON_stringify : Msg -> string.
Variable aesEnc : string -> string.

Abbreviation _send := (_send impl JSON_stringify aesEnc).
Abbreviation start := (start impl JSON_stringify aesEnc).
Abbreviation delivered := (delivered impl aesEnc).
Abbreviation pack_note := (pack_note impl).

(** X10.  [start] on a connection whose payload transform delivers the
    payload of the greeting: the socket timeout of the request is switched
    off, the response head is written with status 200, the multipart
    content type and [Connection: close], and the greeting
    [{cmd_echo: connectOK}] is pushed as the first part, behind the opening
    boundary line and with the multipart content type; one more ['close']
    listener is put on [resp]; the timer that was pending is cleared and a
    new one runs for [loopTimeout] (for the delay the runtime arms for it).  The manager's tables are not touched.
    [start] does not look at [closeFlag].  When [start] throws, it has put
    no listener on [resp] and has armed no timer. *)
Theorem X10_start_opens_the_stream (r : ref) (c : Comet) (e : Env) :
  (forall data, delivered c (JSON_stringify connectOK) = Some data ->
     exists e',
       start (mkFrame r c e) =
         Normal tt (mkFrame r (set_timeId (new_handle e)
                                 (set_respListeners (S (respListeners c)) c)) e') /\
       trace e' =
         app (trace e)
           (app [ReqSetTimeout r 0; RespWriteHead r 200 CONTENT_TYPE "close"]
              (app (pack_note r c (JSON_stringify connectOK))
                 [ConsoleLog ["comet push msg :"; JSON_stringify connectOK];
                  RespWrite r (frame_of impl ("--ctalk_boundary" +:+ CRLF)
                                 SEND_CONTENT_TYPE_DEV data)])) /\
       timers e' =
         <[new_handle e := mkTimer r (timer_delay (loopTimeout c))]> (cleared c (timers e)) /\
       comets e' = comets e /\ sendIds e' = sendIds e /\ keyMap e' = keyMap e) /\
  (returns (start (mkFrame r c e)) = false ->
     this (final (start (mkFrame r c e))) = c /\
     timers (env (final (start (mkFrame r c e)))) = timers e).
Proof.
  split.
  - intros data Hd. open_start. unfold bind at 1. unfold gets at 1.
    unfold bind at 1. unfold emit at 1, on_env at 1, modify at 1. simpl.
    unfold bind at 1. unfold emit at 1, on_env at 1, modify at 1. simpl.
    unfold bind at 1. rewrite (_send_delivered _ _ _ _ _ _ _ _ _ _ Hd).
    assert (default_type (Some SEND_CONTENT_TYPE_DEV) = SEND_CONTENT_TYPE_DEV) as ->
      by reflexivity.
    unfold default_prefix, cleared.
    destruct c, e; run_meth. simpl.
    destruct (Nat.eqb timeId0 0); (eexists; split; [reflexivity|]); simpl;
      (split; [by rewrite <- !app_assoc|done]).
  - set (e1 := log (RespWriteHead r 200 CONTENT_TYPE "close") (log (ReqSetTimeout r 0) e)).
    assert (start (mkFrame r c e) =
            match _send connectOK (Some ("--ctalk_boundary" +:+ CRLF))
                    (Some SEND_CONTENT_TYPE_DEV) (mkFrame r c e1) with
            | Normal _ f =>
                (run on_this (fun c0 => set_respListeners (S (respListeners c0)) c0);
                 do c0 <- me; _setTimeOut (loopTimeout c0)) f
            | Thrown x f => Thrown x f
            end) as -> by reflexivity.
    destruct (_send_outcome impl JSON_stringify aesEnc connectOK
                (Some ("--ctalk_boundary" +:+ CRLF)) (Some SEND_CONTENT_TYPE_DEV) r c e1)
      as (evs & Hfin & _).
    destruct (_send _ _ _ _) as [[] f|x f]; simpl in Hfin; subst f.
    + subst e1. destruct c, e; run_meth. simpl. by destruct (Nat.eqb timeId0 0).
    + intros _. simpl. split; [done|]. subst e1. by destruct e.
Qed.

End Start.

(** ** A pack hook that calls back without a receiver *)

Section PackHook.

Variable JSON_stringify : Msg -> string.
Variable aesEnc : string -> string.

Abbreviation sendMsg := (sendMsg WithPackHook JSON_stringify aesEnc).

(** X11.  In the file with the pack hook, the function [_send] gives to
    the hook reads [this.errFunc] and [this.resp].  When the hook calls it
    as a plain function, [this] is undefined: [sendMsg] throws a TypeError
    out of [_send] and writes nothing to the response, whether the hook
    reports an error or hands its data over.  By then the emitter of the
    transaction is in [eventPool] and the send callback has been called
    (the manager's has put the transaction into [sendIds]), but the echo
    listener was never put on the emitter: an [echoMsg] for the transaction
    returns without calling anything and leaves everything as it is, the
    entries of the transaction included. *)
Theorem X11_unbound_pack_callback (r : ref) (c : Comet) (e : Env) (msg : Msg)
    (contentType : option string) (echoCb : bool) (s : string)
    (hook : string -> PackReply) (err : option string) (data : string) :
  pkFunc c = Some hook ->
  hook (JSON_stringify (stamp s msg)) = PackCall Unbound err data ->
  exists f1,
    sendMsg msg contentType echoCb s (mkFrame r c e) =
      Thrown (TypeError (match err with
                         | Some _ => "Cannot read property errFunc of undefined"
                         | None => "Cannot read property resp of undefined"
                         end)) f1 /\
    this f1 = set_eventPool (<[s := []]> (eventPool c)) c /\
    sendIds (env f1) = sendIds (registered c s e) /\
    (forall r' bytes, In (RespWrite r' bytes) (trace (env f1)) ->
                      In (RespWrite r' bytes) (trace e)) /\
    (calls r SSend (trace (env f1)) =
       calls r SSend (trace e) + match sendFunc c with Some _ => 1 | None => 0 end)%nat /\
    forall m, sid m = Some s -> echoMsg m f1 = Normal tt f1.
Proof.
  intros Hpk Hh. destruct c, e; simpl in *; subst.
  open_sendMsg. open_send. unfold registered.
  destruct sendFunc0 as [[]|]; run_meth; rewrite Hh; destruct err; simpl;
    (eexists; split; [reflexivity|]); simpl;
    (split; [done|]); (split; [done|]);
    (split; [intros r' bytes; rewrite ?in_app_iff; simpl; intuition discriminate|]);
    (split; [rewrite ?calls_app; simpl; rewrite ?Nat.eqb_refl; simpl; lia|]);
    intros m Hm; unfold echoMsg, bind, me, gets; simpl; rewrite Hm; simpl;
    by rewrite lookup_insert_eq.
Qed.

End PackHook.

(** ** A transaction sent without an echo callback *)

Section NoEchoCallback.

Variable impl : Impl.
Variable JSON_stringify : Msg -> string.
Variable aesEnc : string -> string.

Abbreviation sendMsg := (sendMsg impl JSON_stringify aesEnc).

(** X12.  [sendMsg] does not look at [echoCb].  When it was called without
    one and returns, the transaction waits like any other; the echo then
    makes [echoMsg] throw a TypeError, before the waiter is deleted and
    before the echo observer is called.  Nothing has changed, so the
    transaction stays in [eventPool] (and in [sendIds]) and every further
    echo for it throws again. *)
Theorem X12_echo_without_callback (r : ref) (c : Comet) (e : Env) (f1 : Frame)
    (msg m : Msg) (contentType : option string) (s : string) :
  sid m = Some s ->
  sendMsg msg contentType false s (mkFrame r c e) = Normal tt f1 ->
  eventPool (this f1) !! s = Some [mkListener false s] /\
  sendIds (env f1) = sendIds (registered c s e) /\
  echoMsg m f1 = Thrown (TypeError "echoCb is not a function") f1.
Proof.
  intros Hsid Hrun.
  destruct (sendMsg_returns _ _ _ _ _ _ _ _ _ _ _ Hrun) as (evs & ->). simpl.
  split; [by rewrite lookup_insert_eq|]. split.
  { unfold registered. destruct (sendFunc c) as [[]|]; by destruct e. }
  unfold echoMsg, bind, me, gets. simpl. rewrite Hsid. simpl.
  by rewrite lookup_insert_eq.
Qed.

End NoEchoCallback.

(** ** Heartbeats and the stale list *)

Lemma invoke_well_indexed {A} r (m : Meth A) :
  keeps ident m -> tends m -> preserves well_indexed (invoke r m).
Proof.
  intros Hk Ht w Hindexed.
  destruct (heap w !! r) as [c|] eqn:Hc; [|by rewrite invoke_missing].
  rewrite (invoke_final _ _ _ _ Hc).
  specialize (Hk (mkFrame r c (wenv w))). specialize (Ht (mkFrame r c (wenv w))).
  simpl in *. destruct Ht as (_ & Hcomets & _).
  unfold ident in Hk. injection Hk as Hid Hkey.
  intros i r2 Hi. unfold store_back in *; simpl in *.
  destruct (Hindexed i r2 (Hcomets i r2 Hi)) as (c2 & Hc2 & Hid2).
  destruct (decide (r = r2)) as [<-|Hne].
  - rewrite lookup_insert_eq. eexists; split; [done|]. congruence.
  - rewrite lookup_insert_ne by done. eauto.
Qed.

Lemma pong_tail_refreshes r c e k f :
  hbFunc c = Some Manager -> key c = Some k -> truthy k = true ->
  pong_tail (mkFrame r c e) = Normal tt f ->
  exists rec,
    keyMap e !! k = Some rec /\
    keyMap (env f) = <[k := mkKeyRec (k_cid rec) (visits rec) (lastVisit rec) (now e)]> (keyMap e) /\
    now (env f) = now e /\ comets (env f) = comets e /\ key (this f) = Some k.
Proof.
  intros H1 H2 H3. destruct c, e; cbn [hbFunc key] in H1, H2; subst.
  unfold pong_tail. run_meth.
  destruct (Nat.eqb timeId0 0); run_meth; rewrite H3; simpl;
    (destruct (keyMap0 !! k) as [rec|] eqn:Hk; simpl; [|done]);
    intros [= <-]; exists rec; by repeat split.
Qed.

Section Stale.

Variable impl : Impl.
Variable JSON_stringify : Msg -> string.
Variable aesEnc : string -> string.

Abbreviation _send := (_send impl JSON_stringify aesEnc).
Abbreviation pongMsg := (pongMsg impl JSON_stringify aesEnc).

(** X13.  A heartbeat on a connection of the manager that carries a key:
    when [pongMsg] returns, the record of the key has [alive] at the time
    of the heartbeat, and its other fields as before.  When [Date.now()]
    has moved on by [d] since, with no heartbeat in between,
    [getCometsExp] lists the connection exactly if [d] is more than 60000:
    at 60000 ms it is not listed. *)
Theorem X13_heartbeat_postpones_expiry (w w1 : World) (r : ref) (c : Comet)
    (k cid : string) (m : Msg) (contentType : option string) (d : Z) :
  well_indexed w ->
  getComet cid w = Some r -> heap w !! r = Some c ->
  hbFunc c = Some Manager -> key c = Some k -> truthy k = true ->
  invoke r (pongMsg m contentType) w = Normal tt w1 ->
  exists rec exps,
    keyMap (wenv w) !! k = Some rec /\
    keyMap (wenv w1) !! k =
      Some (mkKeyRec (k_cid rec) (visits rec) (lastVisit rec) (now (wenv w))) /\
    getCometsExp (tick d w1) = Some exps /\
    ((exists x, x ∈ exps /\ exp_cid x = cid) <-> 60000 < d) /\
    (forall x, x ∈ exps -> exp_cid x = cid -> exp_key x = Some k /\ exp_idle x = Some d).
Proof.
  intros Hidx Hcid Hc Hhb Hkey Htruthy Hrun. unfold getComet in Hcid.
  assert (well_indexed w1) as Hidx1.
  { pose proof (invoke_well_indexed r (pongMsg m contentType)
                  (pongMsg_ident impl JSON_stringify aesEnc m contentType)
                  (pongMsg_tends impl JSON_stringify aesEnc m contentType) w Hidx) as H.
    by rewrite Hrun in H. }
  destruct (invoke_normal _ _ _ _ _ _ Hc Hrun) as (f & Hf & ->).
  destruct (pongMsg_cases impl JSON_stringify aesEnc m contentType r c (wenv w))
    as (evs & _ & Hcases).
  rewrite Hcases in Hf. destruct (_send _ _ _ _) as [[] f0|x f0]; [|done].
  destruct (pong_tail_refreshes r (paced m c) (logs evs (wenv w)) k f)
    as (rec & Hrec & Hmap & Hnow & Hcomets & Hkeyf); try done.
  { unfold paced. by destruct (positive_interval _), c. }
  { unfold paced. by destruct (positive_interval _), c. }
  assert (keyMap (logs evs (wenv w)) = keyMap (wenv w)) as Hk0 by (by destruct (wenv w)).
  assert (now (logs evs (wenv w)) = now (wenv w)) as Hn0 by (by destruct (wenv w)).
  assert (comets (logs evs (wenv w)) = comets (wenv w)) as Hc0 by (by destruct (wenv w)).
  rewrite Hk0 in Hrec, Hmap. rewrite Hn0 in Hmap, Hnow. rewrite Hc0 in Hcomets.
  set (w1 := store_back r w f) in *.
  set (rec1 := mkKeyRec (k_cid rec) (visits rec) (lastVisit rec) (now (wenv w))).
  assert (keyMap (wenv w1) !! k = Some rec1) as Hrec1
    by (subst w1; unfold store_back; simpl; by rewrite Hmap, lookup_insert_eq).
  assert (comets (wenv (tick d w1)) = comets (wenv w1)) as Htc
    by (unfold tick; cbn [wenv]; by destruct (wenv w1)).
  assert (keyMap (wenv (tick d w1)) = keyMap (wenv w1)) as Htk
    by (unfold tick; cbn [wenv]; by destruct (wenv w1)).
  assert (now (wenv (tick d w1)) = now (wenv w1) + d) as Htn
    by (unfold tick; cbn [wenv]; by destruct (wenv w1)).
  assert (heap (tick d w1) = heap w1) as Hth by reflexivity.
  assert (well_indexed (tick d w1)) as Hidx2.
  { intros i r2. rewrite Htc, Hth. apply (Hidx1 i r2). }
  destruct (getCometsExp_members (tick d w1) Hidx2) as (exps & Hexps & Hmem).
  assert (comets (wenv (tick d w1)) !! cid = Some r) as Hcid2.
  { rewrite Htc. subst w1. unfold store_back. cbn [wenv]. by rewrite Hcomets. }
  assert (heap (tick d w1) !! r = Some (this f)) as Hc2
    by (rewrite Hth; subst w1; unfold store_back; cbn [heap]; by rewrite lookup_insert_eq).
  assert (exp_entry (wenv (tick d w1)) cid (this f) =
          if 60 * 1000 <? d
          then Some (mkExp cid (Some k) (Some d)
                 ("comet object idle than " +:+ decimal (Z.to_nat d) +:+ "ms"))
          else None) as Hentry.
  { unfold exp_entry. rewrite Hkeyf, Htruthy, Htk, Hrec1.
    assert (now (wenv (tick d w1)) - alive rec1 = d) as ->; [|done].
    rewrite Htn. subst w1 rec1. unfold store_back. cbn [wenv alive].
    rewrite Hnow. lia. }
  exists rec, exps. split; [done|]. split; [done|]. split; [done|]. split.
  - split.
    + intros (x & Hx & Hxcid). apply Hmem in Hx as (cid' & r' & c' & Hcomet' & Hc' & Hx).
      assert (cid' = cid) as -> by (apply exp_entry_cid in Hx; congruence).
      assert (r' = r) as -> by congruence.
      assert (c' = this f) as -> by congruence.
      rewrite Hentry in Hx. destruct (Z.ltb_spec (60 * 1000) d); [lia|done].
    + intros Hidle. eexists. split.
      * apply Hmem. exists cid, r, (this f). split; [done|]. split; [done|].
        rewrite Hentry. destruct (Z.ltb_spec (60 * 1000) d); [done|lia].
      * done.
  - intros x Hx Hxcid. apply Hmem in Hx as (cid' & r' & c' & Hcomet' & Hc' & Hx).
    assert (cid' = cid) as -> by (apply exp_entry_cid in Hx; congruence).
    assert (r' = r) as -> by congruence.
    assert (c' = this f) as -> by congruence.
    rewrite Hentry in Hx. destruct (_ <? _); [|done]. by injection Hx as <-.
Qed.

End Stale.

(** ** One timer for each connection *)

Lemma minds_bind {A B} (m : Meth A) (k : A -> Meth B) :
  minds m -> (forall a, minds (k a)) -> minds (bind m k).
Proof.
  intros Hm Hk f Hf. destruct (Hm f Hf) as (Hr & Ht & Ho). unfold bind.
  destruct (m f) as [a f1|x f1]; simpl in *; [|done].
  destruct (Hk a f1 Ht) as (Hr' & Ht' & Ho').
  split; [congruence|]. split; [done|].
  intros h t H1 H2. apply Ho; [|done]. apply Ho'; [done|congruence].
Qed.

Lemma minds_still {A} (m : Meth A) :
  (forall f, self_ref (final (m f)) = self_ref f /\
             timeId (this (final (m f))) = timeId (this f) /\
             timers (env (final (m f))) = timers (env f)) ->
  minds m.
Proof.
  intros H f Hf. destruct (H f) as (Hr & Hi & Ht).
  split; [done|]. split; [|by rewrite Ht].
  intros h t. rewrite Ht, Hr, Hi. apply Hf.
Qed.

Lemma minds_ret {A} (a : A) : minds (ret a).
Proof. by apply minds_still. Qed.
Lemma minds_throw {A} x : minds (@throw Frame A x).
Proof. by apply minds_still. Qed.
Lemma minds_gets {A} (g : Frame -> A) : minds (gets g).
Proof. by apply minds_still. Qed.
Lemma minds_on_this g : (forall c, timeId (g c) = timeId c) -> minds (on_this g).
Proof. intros H. apply minds_still. intros f. simpl. by rewrite H. Qed.
Lemma minds_on_env g : (forall e, timers (g e) = timers e) -> minds (on_env g).
Proof. intros H. apply minds_still. intros f. simpl. by rewrite H. Qed.
Lemma minds_emit ev : minds (emit ev).
Proof. apply minds_on_env. by intros []. Qed.
Lemma minds_call slot a : minds (call slot a).
Proof. apply minds_still. intros f. simpl. by destruct (env f). Qed.

Ltac minds_step :=
  first
    [ apply minds_call
    | apply minds_ret | apply minds_throw | apply minds_gets | apply minds_emit
    | solve [ auto 2 ]
    | apply minds_on_this; solve [ intros []; reflexivity ]
    | apply minds_on_env; solve [ intros []; reflexivity ]
    | apply minds_bind; [| intros ? ]
    | lazymatch goal with
      | |- minds (match ?x with _ => _ end) => destruct x
      end ].

Ltac minds_auto := cbv zeta; repeat minds_step.

Lemma cleared_lookup c ts h t :
  cleared c ts !! h = Some t -> ts !! h = Some t /\ (timeId c <> 0%nat -> h <> timeId c).
Proof.
  unfold cleared. destruct (Nat.eqb_spec (timeId c) 0) as [->|Hne]; [done|].
  intros H. apply lookup_delete_Some in H as [? ?]. by split.
Qed.

Lemma _setTimeOut_final msec r c e :
  exists e',
    final (_setTimeOut msec (mkFrame r c e)) = mkFrame r (set_timeId (new_handle e) c) e' /\
    timers e' = <[new_handle e := mkTimer r (timer_delay msec)]> (cleared c (timers e)).
Proof.
  unfold cleared. destruct c, e; run_meth. simpl.
  destruct (Nat.eqb timeId0 0); simpl; by eexists.
Qed.

Lemma _setTimeOut_minds msec : minds (_setTimeOut msec).
Proof.
  intros [r c e] Hf. destruct (_setTimeOut_final msec r c e) as (e' & -> & Ht).
  simpl. split; [done|]. split.
  - intros h t. simpl. rewrite Ht.
    destruct (decide (new_handle e = h)) as [<-|Hne].
    + rewrite lookup_insert_eq. intros [= <-]. split; [done|]. by destruct c.
    + rewrite lookup_insert_ne by done. intros H.
      apply cleared_lookup in H as [H Hc]. destruct (Hf h t H) as [H0 Hid].
      split; [done|]. intros Hr. simpl in *. specialize (Hid Hr). subst h.
      by destruct Hc.
  - intros h t. rewrite Ht. simpl.
    destruct (decide (new_handle e = h)) as [<-|Hne].
    + rewrite lookup_insert_eq. by intros [= <-].
    + rewrite lookup_insert_ne by done. intros H _. by apply cleared_lookup in H as [H _].
Qed.

Lemma _remove_final r c e :
  exists e',
    final (_remove (mkFrame r c e)) = mkFrame r (set_timeId 0 c) e' /\
    timers e' = cleared c (timers e).
Proof.
  unfold cleared. destruct c, e; run_meth. simpl.
  destruct (Nat.eqb_spec timeId0 0) as [->|_]; destruct rmFunc0 as [[]|]; simpl; by eexists.
Qed.

Lemma _remove_minds : minds _remove.
Proof.
  intros [r c e] Hf. destruct (_remove_final r c e) as (e' & -> & Ht).
  simpl. split; [done|]. split.
  - intros h t. simpl. rewrite Ht. intros H.
    apply cleared_lookup in H as [H Hc]. destruct (Hf h t H) as [H0 Hid].
    split; [done|]. intros Hr. simpl in *. specialize (Hid Hr). subst h.
    destruct c; simpl in *. by destruct Hc.
  - intros h t. rewrite Ht. simpl. intros H _. by apply cleared_lookup in H as [H _].
Qed.

Lemma _close_minds reason : minds (_close reason).
Proof. unfold _close, me. minds_auto. Qed.

Lemma del_minds : minds del.
Proof. pose proof _remove_minds. pose proof _close_minds. unfold del, me. minds_auto. Qed.

Lemma on_peer_close_minds : minds on_peer_close.
Proof. pose proof _remove_minds. unfold on_peer_close, me. minds_auto. Qed.

Lemma times_minds n (m : Meth unit) : minds m -> minds (times n m).
Proof. intros H. induction n; simpl; minds_auto. Qed.

Lemma _regSendId_minds cid s : minds (_regSendId cid s).
Proof. unfold _regSendId. minds_auto. Qed.

Lemma _unregSendId_minds s : minds (_unregSendId s).
Proof. unfold _unregSendId. minds_auto. Qed.

Lemma refresh_alive_minds : minds refresh_alive.
Proof.
  apply minds_still. intros [r c e]. unfold refresh_alive, bind, me, gets, on_env, modify, throw, ret.
  simpl. destruct (key c) as [k|]; [|done]. destruct (truthy k); [|done].
  cbn [env this self_ref]. destruct (keyMap e !! k); simpl; [|done]. by destruct e.
Qed.

Lemma emit_echo_minds ls m : minds (emit_echo ls m).
Proof.
  pose proof _unregSendId_minds.
  induction ls as [|l ls IH]; simpl; [apply minds_ret|].
  unfold on_echo, me. minds_auto.
Qed.

Lemma echoMsg_minds m : minds (echoMsg m).
Proof. pose proof emit_echo_minds. unfold echoMsg, me. minds_auto. Qed.

Lemma on_timeout_timers r c e :
  self_ref (final (on_timeout (mkFrame r c e))) = r /\
  timers (env (final (on_timeout (mkFrame r c e)))) = timers e.
Proof.
  destruct c, e; run_meth. simpl.
  destruct closeFlag0; [done|]. destruct errFunc0, closeFunc0; simpl; try done;
    destruct rmFunc0 as [[]|]; done.
Qed.

Section Timers.

Variable impl : Impl.
Variable JSON_stringify : Msg -> string.
Variable aesEnc : string -> string.

Abbreviation _send := (_send impl JSON_stringify aesEnc).
Abbreviation start := (start impl JSON_stringify aesEnc).
Abbreviation sendMsg := (sendMsg impl JSON_stringify aesEnc).
Abbreviation directSend := (directSend impl JSON_stringify aesEnc).
Abbreviation pongMsg := (pongMsg impl JSON_stringify aesEnc).

Lemma _send_minds msg p ct : minds (_send msg p ct).
Proof.
  apply minds_still. intros [r c e].
  destruct (_send_outcome impl JSON_stringify aesEnc msg p ct r c e) as (evs & -> & _).
  simpl. by destruct e.
Qed.

Lemma start_minds : minds start.
Proof.
  pose proof _send_minds. pose proof _setTimeOut_minds.
  open_start. unfold me. minds_auto.
Qed.

Lemma sendMsg_minds msg ct cb uuid : minds (sendMsg msg ct cb uuid).
Proof.
  pose proof _send_minds. pose proof _regSendId_minds.
  open_sendMsg. unfold me. minds_auto.
Qed.

Lemma directSend_minds msg : minds (directSend msg).
Proof. open_directSend. apply _send_minds. Qed.

Lemma pongMsg_minds m ct : minds (pongMsg m ct).
Proof.
  pose proof _send_minds. pose proof _setTimeOut_minds. pose proof refresh_alive_minds.
  open_pongMsg. unfold me. minds_auto.
Qed.

End Timers.

Lemma invoke_well_timed {A} r (m : Meth A) :
  minds m -> preserves well_timed (invoke r m).
Proof.
  intros Hm w Hw.
  destruct (heap w !! r) as [c|] eqn:Hc; [|by rewrite invoke_missing].
  rewrite (invoke_final _ _ _ _ Hc).
  destruct (Hm (mkFrame r c (wenv w))) as (Hr & Ht & Ho).
  { intros h t H. destruct (Hw h t H) as (H0 & c' & Hc' & Hid). split; [done|].
    simpl. intros Heq. rewrite Heq in Hc'. congruence. }
  simpl in *. intros h t. unfold store_back. simpl. intros H.
  destruct (Ht h t H) as [H0 Hid]. split; [done|].
  destruct (decide (t_self t = r)) as [Heq|Hne].
  - rewrite Heq, lookup_insert_eq. eexists. split; [done|]. apply Hid. congruence.
  - rewrite lookup_insert_ne by done.
    destruct (Hw h t (Ho h t H Hne)) as (_ & c' & Hc' & Hid'). eauto.
Qed.

Lemma well_timed_env w e :
  timers e = timers (wenv w) -> well_timed w -> well_timed (mkWorld (heap w) e).
Proof. intros He Hw h t. simpl. rewrite He. apply Hw. Qed.

Lemma fire_well_timed h : preserves well_timed (fire h).
Proof.
  intros w Hw. unfold fire. destruct (timers (wenv w) !! h) as [t|] eqn:Hh; [|done].
  destruct (Hw h t Hh) as (Hh0 & c & Hc & Hid).
  set (w0 := mkWorld (heap w) (set_timers (delete h (timers (wenv w))) (wenv w))).
  assert (heap w0 !! t_self t = Some c) as Hc0 by done.
  rewrite (invoke_final _ _ _ _ Hc0).
  destruct (on_timeout_timers (t_self t) c (wenv w0)) as [Hr Ht].
  intros h' t'. unfold store_back. cbn [wenv heap]. rewrite Ht.
  assert (timers (wenv w0) = delete h (timers (wenv w))) as -> by (subst w0; by destruct (wenv w)).
  intros H. apply lookup_delete_Some in H as [Hne H].
  destruct (Hw h' t' H) as (Hh0' & c' & Hc' & Hid'). split; [done|].
  destruct (decide (t_self t' = t_self t)) as [Heq|Hne'].
  - rewrite Heq in Hc'. congruence.
  - rewrite lookup_insert_ne by done. eauto.
Qed.

Lemma mapComet_well_timed k cid : preserves well_timed (mapComet k cid).
Proof.
  intros w Hw. rewrite mapComet_final. unfold stamped. intros h t. cbn [wenv heap].
  assert (timers (set_keyMap (<[k:=visited k cid (wenv w)]> (keyMap (wenv w))) (wenv w)) =
          timers (wenv w)) as -> by (by destruct (wenv w)).
  intros H. destruct (Hw h t H) as (H0 & c & Hc & Hid). split; [done|].
  destruct (comets (wenv w) !! cid) as [r0|]; [|eauto].
  destruct (heap w !! r0) as [c0|] eqn:Hc0; [|eauto].
  destruct (decide (r0 = t_self t)) as [->|Hne].
  - rewrite lookup_insert_eq. eexists. split; [done|]. simpl.
    assert (c0 = c) as -> by congruence. by destruct c.
  - rewrite lookup_insert_ne by done. eauto.
Qed.

Lemma createComet_well_timed cid uuid : preserves well_timed (createComet cid uuid).
Proof.
  unfold createComet. cbv zeta.
  apply preserves_bind.
  { destruct (match cid with Some i => truthy i | None => false end);
      [|apply preserves_ret].
    apply preserves_bind; [apply preserves_gets|]. intros cs.
    destruct (cs !! _); [|apply preserves_ret].
    apply invoke_well_timed, del_minds. }
  intros _. intros w Hw.
  unfold bind, new, modify, ret, invoke. simpl. rewrite lookup_insert_eq. simpl.
  unfold store_back. simpl. rewrite insert_insert_eq.
  assert (heap w !! fresh (dom (heap w)) = None) as Hfresh
    by (apply not_elem_of_dom, is_fresh).
  intros h t. simpl.
  intros H. destruct (Hw h t H) as (H0 & c & Hc & Hid). split; [done|].
  rewrite lookup_insert_ne by congruence. eauto.
Qed.

Section WellTimed.

Variable impl : Impl.
Variable JSON_stringify : Msg -> string.
Variable aesEnc : string -> string.

Abbreviation step := (step impl JSON_stringify aesEnc).
Abbreviation steps := (steps impl JSON_stringify aesEnc).

Lemma step_well_timed o : preserves well_timed (step o).
Proof.
  destruct o; simpl.
  - apply invoke_well_timed, start_minds.
  - apply invoke_well_timed, sendMsg_minds.
  - apply invoke_well_timed, directSend_minds.
  - apply invoke_well_timed, echoMsg_minds.
  - apply invoke_well_timed, pongMsg_minds.
  - apply invoke_well_timed, del_minds.
  - by apply invoke_well_timed, minds_on_this.
  - by apply invoke_well_timed, minds_on_this.
  - by apply invoke_well_timed, minds_on_this.
  - by apply invoke_well_timed, minds_on_this.
  - by apply invoke_well_timed, minds_on_this.
  - by apply invoke_well_timed, minds_on_this.
  - by apply invoke_well_timed, minds_on_this.
  - apply invoke_well_timed.
    apply minds_bind; [apply minds_gets|]. intros c. apply times_minds, on_peer_close_minds.
  - apply fire_well_timed.
  - apply preserves_bind; [apply createComet_well_timed | intros; apply preserves_ret].
  - apply mapComet_well_timed.
  - intros w Hw. simpl. apply well_timed_env; [by destruct (wenv w) | done].
Qed.

Lemma steps_well_timed os w : well_timed w -> well_timed (steps os w).
Proof.
  revert w. induction os as [|o os IH]; intros w Hw; simpl; [done|].
  by apply IH, step_well_timed.
Qed.

(** X14.  In every state the manager reaches from its initial state, by
    whatever operations (turns that throw included), every pending timer is
    the one its connection has recorded in [timeId].  So no connection has
    two pending timers, and a connection whose [timeId] is 0 (never
    started, or removed by [_remove]) has none: once [del], the peer-close
    listener or the timer callback has run [_remove], no timer of the
    connection is left to expire. *)
Theorem X14_one_timer_for_each_connection (os : list Op) :
  let w := steps os empty_world in
  (forall h t, timers (wenv w) !! h = Some t ->
     h <> 0%nat /\ exists c, heap w !! t_self t = Some c /\ timeId c = h) /\
  (forall h1 h2 t1 t2,
     timers (wenv w) !! h1 = Some t1 -> timers (wenv w) !! h2 = Some t2 ->
     t_self t1 = t_self t2 -> h1 = h2) /\
  (forall r c, heap w !! r = Some c -> timeId c = 0%nat ->
     forall h t, timers (wenv w) !! h = Some t -> t_self t <> r).
Proof.
  intros w.
  assert (well_timed w) as Hw.
  { apply steps_well_timed. intros h t. simpl. by rewrite lookup_empty. }
  split; [exact Hw|]. split.
  - intros h1 h2 t1 t2 H1 H2 Heq.
    destruct (Hw h1 t1 H1) as (_ & c1 & Hc1 & <-).
    destruct (Hw h2 t2 H2) as (_ & c2 & Hc2 & <-).
    rewrite Heq in Hc1. congruence.
  - intros r c Hc Hzero h t H Heq.
    destruct (Hw h t H) as (Hne & c' & Hc' & Hid).
    rewrite Heq in Hc'. congruence.
Qed.

End WellTimed.

(** ** Looking a connection up by a transaction *)

Section BySendId.

Variable impl : Impl.
Variable JSON_stringify : Msg -> string.
Variable aesEnc : string -> string.

Abbreviation sendMsg := (sendMsg impl JSON_stringify aesEnc).

(** X15.  On a connection that [comets] holds under its id, with the
    manager's send and echo functions: from the return of [sendMsg] to the
    echo, [getCometBySendId] leads from the transaction id to the
    connection; after the echo it returns [null] again.  Neither step
    changes what it returns for any other transaction id. *)
Theorem X15_getCometBySendId_follows_the_transaction (w w1 : World) (r : ref) (c : Comet)
    (msg m : Msg) (contentType : option string) (s : string) :
  heap w !! r = Some c ->
  sendFunc c = Some Manager -> echoFunc c = Some Manager ->
  getComet (comet_id c) w = Some r -> truthy (comet_id c) = true ->
  sid m = Some s ->
  invoke r (sendMsg msg contentType true s) w = Normal tt w1 ->
  getCometBySendId s w1 = Some r /\
  (forall s', s' <> s -> getCometBySendId s' w1 = getCometBySendId s' w) /\
  exists w2,
    invoke r (echoMsg m) w1 = Normal tt w2 /\
    getCometBySendId s w2 = None /\
    (forall s', s' <> s -> getCometBySendId s' w2 = getCometBySendId s' w).
Proof.
  intros Hc Hsend Hecho Hidx Htruthy Hsid Hrun. unfold getComet in Hidx.
  destruct (invoke_normal _ _ _ _ _ _ Hc Hrun) as (f1 & Hrun1 & ->).
  destruct (sendMsg_returns _ _ _ _ _ _ _ _ _ _ _ Hrun1) as (evs & ->).
  unfold store_back. cbn [this env].
  set (e1 := registered c s (logs evs (wenv w))).
  assert (sendIds e1 = <[s := comet_id c]> (sendIds (wenv w))) as Hids
    by (subst e1; unfold registered; rewrite Hsend; by destruct (wenv w)).
  assert (comets e1 = comets (wenv w)) as Hcs
    by (subst e1; unfold registered; rewrite Hsend; by destruct (wenv w)).
  set (w1 := mkWorld (<[r := waiting true s c]> (heap w)) e1).
  assert (heap w1 !! r = Some (waiting true s c)) as Hc1
    by (simpl; by rewrite lookup_insert_eq).
  assert (eventPool (waiting true s c) !! s = Some [mkListener true s]) as Hpool
    by (simpl; by rewrite lookup_insert_eq).
  split; [|split].
  - unfold getCometBySendId. cbn [wenv w1]. by rewrite Hids, lookup_insert_eq, Htruthy, Hcs.
  - intros s' Hne. unfold getCometBySendId. cbn [wenv w1].
    by rewrite Hids, lookup_insert_ne, Hcs.
  - eexists. split.
    { rewrite (invoke_frame _ _ _ _ Hc1), (echoMsg_resolves _ _ _ s) by done. reflexivity. }
    assert (echoFunc (waiting true s c) = Some Manager) as Hecho' by done.
    unfold store_back, unregistered. cbn [this env wenv w1]. rewrite Hecho'.
    assert (forall evs' e0, sendIds (set_sendIds (delete s (sendIds (logs evs' e0))) (logs evs' e0))
                            = delete s (sendIds e0)) as Hd by (by intros ? []).
    assert (forall evs' e0 X, comets (set_sendIds X (logs evs' e0)) = comets e0) as Hk
      by (by intros ? [] ?).
    split.
    + unfold getCometBySendId. cbn [wenv]. by rewrite Hd, lookup_delete_eq.
    + intros s' Hne. unfold getCometBySendId. cbn [wenv].
      by rewrite Hd, Hk, lookup_delete_ne, Hids, lookup_insert_ne, Hcs.
Qed.

End BySendId.

(** ** A close that finds no close callback *)

Lemma trigger_unfinished t r c e :
  closeFlag c = false -> closeFunc c = false ->
  exists x c' e' evs,
    trigger t (mkFrame r c e) = Thrown x (mkFrame r c' e') /\
    closeFlag c' = true /\ closeReason c' = Some (reason_of t) /\
    trace e' = app (trace e) evs /\
    calls r SClose evs = 0%nat /\ calls r SRemove evs = 0%nat /\
    Forall (fun ev => forall r', ev <> RespEnd r') evs /\
    timers e' = timers e /\ comets e' = comets e /\ sendIds e' = sendIds e.
Proof.
  intros H1 H2. destruct c, e; simpl in *; subst.
  destruct t; run_meth; try destruct errFunc0; simpl;
    first
      [ eexists _, _, _, []; split; [reflexivity|]; simpl; rewrite ?app_nil_r;
        by repeat split
      | eexists _, _, _, [_]; split; [reflexivity|]; simpl; unfold is_call;
        repeat split; try done; rewrite ?andb_false_r; try done; by repeat constructor ].
Qed.

Section Unfinished.

Variable impl : Impl.
Variable JSON_stringify : Msg -> string.
Variable aesEnc : string -> string.

Abbreviation steps := (steps impl JSON_stringify aesEnc).

(** X16.  A close trigger (peer disconnect, timer expiry or [del]) on a
    live connection without close callback throws, and the close is never
    finished.  The connection is marked closed, so no later trigger does
    anything but warn: over any run that follows, its close callback and
    its removal callback are never called.  The trigger itself has not
    called [resp.end], has cleared no timer and has left [comets] and
    [sendIds] as they were. *)
Theorem X16_close_without_callback_is_never_finished (w : World) (r : ref) (c : Comet)
    (t : Trigger) :
  heap w !! r = Some c ->
  closeFlag c = false -> closeFunc c = false ->
  exists x w1 evs,
    invoke r (trigger t) w = Thrown x w1 /\
    trace (wenv w1) = app (trace (wenv w)) evs /\
    (forall r', ~ In (RespEnd r') evs) /\
    timers (wenv w1) = timers (wenv w) /\
    comets (wenv w1) = comets (wenv w) /\ sendIds (wenv w1) = sendIds (wenv w) /\
    forall os,
      closed_as r (Some (reason_of t))
        (calls r SClose (trace (wenv w))) (calls r SRemove (trace (wenv w))) (steps os w1).
Proof.
  intros Hc Hlive Hcb.
  destruct (trigger_unfinished t r c (wenv w) Hlive Hcb)
    as (x & c' & e' & evs & Hrun & Hflag & Hreason & Htrace & Hn1 & Hn2 & Hends & Ht & Hcs & Hids).
  exists x, (mkWorld (<[r := c']> (heap w)) e'), evs.
  split; [by rewrite (invoke_frame _ _ _ _ Hc), Hrun|].
  split; [done|].
  split.
  { intros r' Hin. rewrite Forall_forall in Hends. apply list_elem_of_In in Hin.
    by apply (Hends _ Hin r'). }
  split; [done|]. split; [done|]. split; [done|].
  intros os. apply steps_closed. exists c'. simpl. rewrite lookup_insert_eq, Htrace.
  rewrite !calls_app, Hn1, Hn2. repeat split; try done; lia.
Qed.

End Unfinished.

(** X17.  [createComet] with the id of a live connection of [comets] that
    has no close callback throws out of the [del] of the old connection:
    no new connection is made, and the old one stays in [comets], marked
    closed.  A second [createComet] with the id then returns: the [del] of
    the old connection only warns, and the new connection takes its place.
    The old connection's [resp.end] and removal callback were never called
    and its timer was not cleared. *)
Theorem X17_replacing_without_close_callback (w : World) (cid uuid : string) (r : ref)
    (c : Comet) :
  truthy cid = true ->
  getComet cid w = Some r -> heap w !! r = Some c ->
  closeFlag c = false -> closeFunc c = false ->
  let w1 := mkWorld (<[r := compelled c]> (heap w)) (wenv w) in
  createComet (Some cid) uuid w =
    Thrown (TypeError "this.closeFunc is not a function") w1 /\
  forall uuid',
    let r' := fresh (dom (heap w1)) in
    r' <> r /\
    createComet (Some cid) uuid' w1 =
      Normal r'
        (mkWorld (<[r' := wire (new_Comet cid)]> (heap w1))
           (set_comets (<[cid := r']> (comets (wenv w)))
              (log (del_warning (Some CLOSE_COMPEL)) (wenv w)))).
Proof.
  intros Hcid Hidx Hc Hlive Hcb w1. unfold getComet in Hidx. split.
  - unfold createComet. cbv zeta. rewrite Hcid.
    unfold bind at 1. unfold bind at 1. unfold gets at 1. rewrite Hidx.
    by rewrite (invoke_frame _ _ _ _ Hc), del_without_onClose.
  - intros uuid' r'.
    assert (heap w1 !! r = Some (compelled c)) as Hc1
      by (simpl; by rewrite lookup_insert_eq).
    assert (heap w1 !! r' = None) as Hfresh by (apply not_elem_of_dom, is_fresh).
    split; [intros Heq; rewrite Heq in Hfresh; congruence|].
    unfold createComet. cbv zeta. rewrite Hcid.
    unfold bind at 1. unfold bind at 1. unfold gets at 1.
    assert (comets (wenv w1) !! cid = Some r) as -> by done.
    rewrite (invoke_frame _ _ _ _ Hc1), del_closed by done.
    unfold bind, new, modify, ret, warned, store_back. simpl.
    rewrite insert_insert_eq. fold w1. 
    unfold invoke. simpl. rewrite lookup_insert_eq. simpl.
    unfold store_back. simpl. rewrite !insert_insert_eq.
    by destruct (wenv w).
Qed.

(** ** Each connection is closed at most once *)

Lemma quiet_once {A} (m : Meth A) :
  emits quiet m -> keeps close_state m -> once m.
Proof.
  intros He Hk f _. destruct (He f) as (evs & _ & Ht & Hall). cbv zeta.
  assert (Forall (fun ev => closing ev = false) evs) as Hq
    by (eapply Forall_impl; [exact Hall|]; by intros ev [_ ?]).
  destruct (calls_not_closing (self_ref f) evs Hq) as [H1 H2].
  rewrite Ht, !calls_app, H1, H2. split; [lia|]. intros _. lia.
Qed.

Lemma on_this_once g : once (on_this g).
Proof. intros f _. simpl. split; [lia|done]. Qed.

Lemma trigger_once t : once (trigger t).
Proof.
  intros [r c e] Hlive. destruct c, e; simpl in Hlive; subst. cbv zeta.
  destruct t; run_meth;
    destruct closeFunc0; try destruct errFunc0; destruct (Nat.eqb timeId0 0);
    destruct rmFunc0 as [[]|]; simpl;
    rewrite ?calls_app; simpl; rewrite ?Nat.eqb_refl, ?andb_false_r; simpl;
    (split; [lia|done]).
Qed.

Lemma trigger_closes t f : closeFlag (this (final (trigger t f))) = true.
Proof.
  destruct (closeFlag (this f)) eqn:Hflag; [by rewrite trigger_closed|].
  destruct f as [r c e]. destruct c, e; simpl in Hflag; subst.
  destruct t; run_meth;
    destruct closeFunc0; try destruct errFunc0; destruct (Nat.eqb timeId0 0);
    destruct rmFunc0 as [[]|]; reflexivity.
Qed.

Lemma calls_warnings r slot n s reason :
  calls r slot (replicate n (ConsoleWarn s reason)) = 0%nat.
Proof. induction n; simpl; [done|]. by rewrite IHn. Qed.

Lemma peer_listeners_once : once (do c <- me; times (respListeners c) on_peer_close).
Proof.
  intros f Hlive. cbv zeta.
  assert ((do c <- me; times (respListeners c) on_peer_close) f =
          times (respListeners (this f)) on_peer_close f) as -> by reflexivity.
  destruct (respListeners (this f)) as [|n]; simpl; [split; [lia|done]|].
  pose proof (trigger_once PeerDisconnect f Hlive) as Honce. cbv zeta in Honce.
  pose proof (trigger_closes PeerDisconnect f) as Hclosed. simpl in Honce, Hclosed.
  unfold bind. destruct (on_peer_close f) as [[] f1|x f1]; simpl in *.
  - rewrite times_peer_closed by done. cbn [final env this].
    assert (forall evs e0, trace (logs evs e0) = app (trace e0) evs) as Hl by (by intros ? []).
    rewrite Hl, !calls_app. unfold peer_warning. rewrite !calls_warnings.
    rewrite !Nat.add_0_r. split; [tauto|]. congruence.
  - split; [tauto|]. congruence.
Qed.

Lemma invoke_closes_once {A} r (m : Meth A) :
  emits own m -> harmless m -> once m -> preserves closes_once (invoke r m).
Proof.
  intros Hown Hharm Honce w Hw.
  destruct (heap w !! r) as [c|] eqn:Hc; [|by rewrite invoke_missing].
  rewrite (invoke_final _ _ _ _ Hc).
  destruct (Hown (mkFrame r c (wenv w))) as (evs & _ & Ht & Hall). simpl in Ht, Hall.
  intros r0. destruct (Hw r0) as [Hle Hzero].
  unfold store_back. cbn [wenv heap].
  destruct (decide (r = r0)) as [<-|Hne].
  - rewrite lookup_insert_eq, Hc in *.
    destruct (closeFlag c) eqn:Hflag.
    + destruct (Hharm (mkFrame r c (wenv w)) Hflag) as (Hcs & evs' & Ht' & Hquiet).
      simpl in Hcs, Ht'. unfold close_state in Hcs. injection Hcs as Hf _.
      destruct (calls_not_closing r evs' Hquiet) as [H1 H2].
      rewrite Ht', !calls_app, H1, H2, !Nat.add_0_r. split; [done|]. congruence.
    + destruct (Honce (mkFrame r c (wenv w)) Hflag) as [Hmost Hnone]. simpl in Hmost, Hnone.
      destruct (Hzero eq_refl) as [H1 H2]. rewrite H1, H2 in *. split; [lia|done].
  - rewrite lookup_insert_ne by done.
    rewrite Ht, !calls_app, !(calls_other r0 r _ evs) by (done || congruence).
    by rewrite !Nat.add_0_r.
Qed.

Lemma closes_once_env w e :
  trace e = trace (wenv w) -> closes_once w -> closes_once (mkWorld (heap w) e).
Proof. intros He Hw r. simpl. rewrite He. apply Hw. Qed.

Lemma createComet_closes_once cid uuid : preserves closes_once (createComet cid uuid).
Proof.
  unfold createComet. cbv zeta.
  apply preserves_bind.
  { destruct (match cid with Some i => truthy i | None => false end);
      [|apply preserves_ret].
    apply preserves_bind; [apply preserves_gets|]. intros cs.
    destruct (cs !! _); [|apply preserves_ret].
    apply invoke_closes_once; [apply del_own | apply del_harmless |].
    apply (trigger_once ExplicitDel). }
  intros _. apply preserves_bind.
  { intros w Hw r. unfold new. simpl. destruct (Hw r) as [Hle Hzero]. split; [done|].
    destruct (decide (fresh (dom (heap w)) = r)) as [<-|Hne].
    - intros _. apply Hzero.
      assert (heap w !! fresh (dom (heap w)) = None) as ->
        by (apply not_elem_of_dom, is_fresh).
      done.
    - by rewrite lookup_insert_ne. }
  intros r. apply preserves_bind.
  { intros w Hw. simpl. apply closes_once_env; [by destruct (wenv w) | done]. }
  intros _. apply preserves_bind; [|intros; apply preserves_ret].
  apply invoke_closes_once;
    [apply emits_on_this | by apply on_this_harmless | apply on_this_once].
Qed.

Lemma mapComet_closes_once k cid : preserves closes_once (mapComet k cid).
Proof.
  intros w Hw. unfold mapComet. cbv zeta.
  set (e' := set_keyMap _ (wenv w)).
  assert (closes_once (mkWorld (heap w) e')) as Hw'.
  { apply closes_once_env; [|done]. subst e'. by destruct (wenv w). }
  destruct (comets (wenv w) !! cid) as [r'|]; [|done].
  pose proof (invoke_closes_once r' (on_this (set_key (Some k)))
                (emits_on_this _ _) (on_this_harmless _ (fun _ => eq_refl))
                (on_this_once _) _ Hw') as H.
  by destruct (invoke r' _ _).
Qed.

Lemma fire_closes_once h : preserves closes_once (fire h).
Proof.
  intros w Hw. unfold fire. destruct (timers (wenv w) !! h) as [t|]; [|done].
  apply invoke_closes_once;
    [apply on_timeout_own | apply on_timeout_harmless | apply (trigger_once TimerExpiry) |].
  apply closes_once_env; [|done]. by destruct (wenv w).
Qed.

Section ClosedOnce.

Variable impl : Impl.
Variable JSON_stringify : Msg -> string.
Variable aesEnc : string -> string.

Abbreviation step := (step impl JSON_stringify aesEnc).
Abbreviation steps := (steps impl JSON_stringify aesEnc).

Lemma step_closes_once o : preserves closes_once (step o).
Proof.
  destruct o; simpl.
  - apply invoke_closes_once; [apply quiet_own, start_quiet| |].
    + apply quiet_harmless; [apply start_quiet | apply settled_close_state, start_keeps].
    + apply quiet_once; [apply start_quiet | apply settled_close_state, start_keeps].
  - apply invoke_closes_once; [apply quiet_own, sendMsg_quiet| |].
    + apply quiet_harmless; [apply sendMsg_quiet | apply settled_close_state, sendMsg_keeps].
    + apply quiet_once; [apply sendMsg_quiet | apply settled_close_state, sendMsg_keeps].
  - apply invoke_closes_once; [apply quiet_own, directSend_quiet| |].
    + apply quiet_harmless;
        [apply directSend_quiet | apply settled_close_state, directSend_keeps].
    + apply quiet_once; [apply directSend_quiet | apply settled_close_state, directSend_keeps].
  - apply invoke_closes_once; [apply quiet_own, echoMsg_quiet| |].
    + apply quiet_harmless; [apply echoMsg_quiet | apply settled_close_state, echoMsg_keeps].
    + apply quiet_once; [apply echoMsg_quiet | apply settled_close_state, echoMsg_keeps].
  - apply invoke_closes_once; [apply quiet_own, pongMsg_quiet| |].
    + apply quiet_harmless; [apply pongMsg_quiet | apply pongMsg_keeps].
    + apply quiet_once; [apply pongMsg_quiet | apply pongMsg_keeps].
  - apply invoke_closes_once;
      [apply del_own | apply del_harmless | apply (trigger_once ExplicitDel)].
  - apply invoke_closes_once;
      [apply emits_on_this | by apply on_this_harmless | apply on_this_once].
  - apply invoke_closes_once;
      [apply emits_on_this | by apply on_this_harmless | apply on_this_once].
  - apply invoke_closes_once;
      [apply emits_on_this | by apply on_this_harmless | apply on_this_once].
  - apply invoke_closes_once;
      [apply emits_on_this | by apply on_this_harmless | apply on_this_once].
  - apply invoke_closes_once;
      [apply emits_on_this | by apply on_this_harmless | apply on_this_once].
  - apply invoke_closes_once;
      [apply emits_on_this | by apply on_this_harmless | apply on_this_once].
  - apply invoke_closes_once;
      [apply emits_on_this | by apply on_this_harmless | apply on_this_once].
  - apply invoke_closes_once; [|apply peer_listeners_harmless | apply peer_listeners_once].
    apply emits_bind; [apply emits_gets|]. intros c. apply times_own, on_peer_close_own.
  - apply fire_closes_once.
  - apply preserves_bind; [apply createComet_closes_once | intros; apply preserves_ret].
  - apply mapComet_closes_once.
  - intros w Hw. simpl. apply closes_once_env; [by destruct (wenv w) | done].
Qed.

Lemma steps_closes_once os w : closes_once w -> closes_once (steps os w).
Proof.
  revert w. induction os as [|o os IH]; intros w Hw; simpl; [done|].
  by apply IH, step_closes_once.
Qed.

(** X18.  Over every run of the manager from its initial state, by
    whatever operations (turns that throw included), no connection has its
    close callback called twice, nor its removal callback; and as long as
    a connection is live neither has been called.  A close is reported
    once, whichever of the peer, the timer and [del] come, and in whatever
    order. *)
Theorem X18_closed_at_most_once (os : list Op) (r : ref) :
  let w := steps os empty_world in
  (calls r SClose (trace (wenv w)) <= 1)%nat /\
  (calls r SRemove (trace (wenv w)) <= 1)%nat /\
  (forall c, heap w !! r = Some c -> closeFlag c = false ->
     calls r SClose (trace (wenv w)) = 0%nat /\ calls r SRemove (trace (wenv w)) = 0%nat).
Proof.
  intros w.
  assert (closes_once w) as Hw.
  { apply steps_closes_once. intros r0. simpl. split; [lia|done]. }
  destruct (Hw r) as [[H1 H2] Hzero]. split; [done|]. split; [done|].
  intros c Hc Hlive. apply Hzero. by rewrite Hc.
Qed.

End ClosedOnce.

(** ** A heartbeat that cannot be pushed *)

Section FailedHeartbeat.

Variable impl : Impl.
Variable JSON_stringify : Msg -> string.
Variable aesEnc : string -> string.

Abbreviation _send := (_send impl JSON_stringify aesEnc).
Abbreviation pongMsg := (pongMsg impl JSON_stringify aesEnc).

Lemma _send_no_heart msg p ct r c e :
  calls r SHeart (trace (env (final (_send msg p ct (mkFrame r c e))))) =
  calls r SHeart (trace e).
Proof.
  open_send. destruct c, e; simpl.
  destruct impl; [destruct pkFunc0 as [hook|]|]; run_meth;
    try (destruct (hook _) as [|[] [err|] data]; try destruct errFunc0); simpl;
    rewrite ?calls_app; simpl; rewrite ?andb_false_r; simpl; lia.
Qed.

(** X19.  When [pongMsg] throws on a connection whose key, if it has one,
    has its record, it is [_send] that has thrown, which only the file
    with the pack hook can do, and only with a hook in place.  By then
    [loopTimeout] has taken the interval of the ping, but the timer was
    not set again and the heartbeat callback was not called: the timer
    that was pending stays, with the duration it was set for. *)
Theorem X19_failed_heartbeat_keeps_the_old_timer (r : ref) (c : Comet) (e : Env)
    (m : Msg) (contentType : option string) :
  heart_safe c e ->
  returns (pongMsg m contentType (mkFrame r c e)) = false ->
  let f := final (pongMsg m contentType (mkFrame r c e)) in
  impl = WithPackHook /\ is_Some (pkFunc c) /\
  this f = paced m c /\
  loopTimeout (this f) = next_window m (loopTimeout c) /\
  timeId (this f) = timeId c /\
  timers (env f) = timers e /\ keyMap (env f) = keyMap e /\
  calls r SHeart (trace (env f)) = calls r SHeart (trace e).
Proof.
  intros Hsafe Hthrown f.
  assert (delivered impl aesEnc c (JSON_stringify m) = None) as Hnone.
  { destruct (delivered impl aesEnc c (JSON_stringify m)) as [data|] eqn:Hd; [|done].
    destruct (pongMsg_runs impl JSON_stringify aesEnc m contentType r c e data Hd Hsafe)
      as (e' & Hrun & _).
    by rewrite Hrun in Hthrown. }
  assert (impl = WithPackHook /\ is_Some (pkFunc c)) as [Himpl Hhook].
  { revert Hnone. open_delivered. destruct impl; [|done].
    destruct (pkFunc c); [eauto|done]. }
  split; [done|]. split; [done|].
  destruct (pongMsg_cases impl JSON_stringify aesEnc m contentType r c e)
    as (evs & Hsend & Hcases).
  pose proof (_send_no_heart m (Some "") contentType r (paced m c) e) as Hheart.
  subst f. rewrite Hcases in *. rewrite Hsend in Hheart.
  destruct (_send m (Some "") contentType (mkFrame r (paced m c) e)) as [[] f0|x f0].
  - exfalso.
    destruct (pong_tail_outcome r (paced m c) (logs evs e)) as (e' & _ & _ & _ & _ & _ & Hret).
    rewrite Hret in Hthrown; [done|].
    unfold heart_safe, paced in *.
    destruct (positive_interval _), c, e; simpl in *; done.
  - simpl in *. split; [done|]. split; [apply paced_loopTimeout|].
    split; [unfold paced; by destruct (positive_interval _), c|].
    split; [by destruct e|]. split; [by destruct e|]. done.
Qed.

End FailedHeartbeat.

(** * The further properties at work

    Each of the further properties that has premises, applied to a small
    run of the program. *)

Lemma X2_witness :
  truthy "a" = true /\
  comets (wenv empty_world) !! "a" = None /\
  exists w2,
    createComet (Some "a") "u0" (final (mapComet "k" "a" empty_world))
      = Normal (fresh (dom (heap empty_world))) w2 /\
    key (wire (new_Comet "a")) = None /\
    findComet "k" w2 = (FoundObject (fresh (dom (heap empty_world))), []).
Proof.
  split; [reflexivity|]. split; [reflexivity|].
  destruct (X2_bind_key_after_create empty_world "k" "a" "u0" eq_refl eq_refl)
    as [_ (w2 & Hrun & _ & Hkey & Hfind & _)].
  exists w2. split; [exact Hrun|]. split; [exact Hkey | exact Hfind].
Defined.

Lemma X3_witness :
  well_indexed stale_world /\
  exists exps,
    getCometsExp stale_world = Some exps /\
    exists x, x ∈ exps /\ exp_cid x = "a".
Proof.
  assert (well_indexed stale_world) as Hidx.
  { unfold stale_world, keyed_world, sample_world.
    repeat apply steps_well_formed. apply empty_well_formed. }
  split; [exact Hidx|].
  assert (comets (wenv stale_world) !! "a" = Some 0%nat) as H1 by (by vm_compute).
  assert (heap stale_world !! 0%nat = Some keyed_comet) as H2 by (by vm_compute).
  assert (keyMap (wenv stale_world) !! "k" = Some (mkKeyRec "a" 1 0 0)) as H3
    by (by vm_compute).
  destruct (X3_getCometsExp_lists_the_flagged stale_world Hidx) as (exps & Hrun & _ & Hidle).
  exists exps. split; [exact Hrun|].
  destruct (Hidle "a" 0%nat keyed_comet "k" (mkKeyRec "a" 1 0 0) H1 H2 eq_refl eq_refl H3)
    as [Hlisted _].
  apply Hlisted. reflexivity.
Defined.

Lemma X7_witness :
  createComet (Some "a") "u0" empty_world = Normal 0%nat created_world /\
  heap created_world !! 0%nat = Some (wire (new_Comet "a")) /\
  getComet "a" created_world = Some 0%nat /\
  getCometsCountLive created_world = 1%nat.
Proof.
  assert (createComet (Some "a") "u0" empty_world = Normal 0%nat created_world) as Hrun
    by (by vm_compute).
  split; [exact Hrun|].
  destruct (X7_createComet_then_getComet empty_world created_world (Some "a") "u0" 0%nat Hrun)
    as (_ & Hheap & Hget & Hnew).
  split; [exact Hheap|]. split; [exact Hget|].
  exact (proj1 (Hnew eq_refl)).
Defined.

Lemma X8_witness :
  heap keyed_world !! 0%nat = Some keyed_comet /\
  closeFlag keyed_comet = false /\ closeFunc keyed_comet = true /\
  rmFunc keyed_comet = Some Manager /\
  getComet (comet_id keyed_comet) keyed_world = Some 0%nat /\
  keyMap (wenv keyed_world) !! "k" = Some (mkKeyRec "a" 1 0 0) /\
  exists w1,
    invoke 0%nat del keyed_world = Normal tt w1 /\
    getComet "a" w1 = None /\
    findComet "k" w1 = (FoundUndefined, []).
Proof.
  assert (heap keyed_world !! 0%nat = Some keyed_comet) as H by (by vm_compute).
  assert (getComet (comet_id keyed_comet) keyed_world = Some 0%nat) as Hidx by (by vm_compute).
  assert (keyMap (wenv keyed_world) !! "k" = Some (mkKeyRec "a" 1 0 0)) as Hk
    by (by vm_compute).
  split; [exact H|]. split; [reflexivity|]. split; [reflexivity|]. split; [reflexivity|].
  split; [exact Hidx|]. split; [exact Hk|].
  destruct (X8_close_leaves_the_key_behind keyed_world 0%nat keyed_comet ExplicitDel
              H eq_refl eq_refl eq_refl Hidx)
    as (w1 & Hrun & Hgone & _ & _ & _ & _ & _ & Hstale).
  exists w1. split; [exact Hrun|]. split; [exact Hgone|].
  exact (Hstale "k" _ Hk eq_refl).
Defined.

Lemma X9_witness :
  heap started_world !! 0%nat = Some started_comet /\
  closeFlag started_comet = false /\ closeFunc started_comet = true /\
  respListeners started_comet = 1%nat /\
  exists w1, peer_close 0%nat started_world = Normal tt w1.
Proof.
  assert (heap started_world !! 0%nat = Some started_comet) as H by (by vm_compute).
  split; [exact H|]. split; [reflexivity|]. split; [reflexivity|]. split; [reflexivity|].
  destruct (X9_peer_close_runs_every_listener started_world 0%nat started_comet
              H eq_refl eq_refl) as [_ Hrun].
  eexists. exact (Hrun 0%nat eq_refl).
Defined.

Lemma X10_witness :
  delivered WithPackHook sample_enc (new_Comet "a") (sample_json connectOK) = Some "{}" /\
  exists e',
    start WithPackHook sample_json sample_enc fresh_frame =
      Normal tt (mkFrame 0%nat (set_timeId 1 (set_respListeners 1 (new_Comet "a"))) e') /\
    timers e' = <[1%nat := mkTimer 0%nat 300000]> ∅.
Proof.
  split; [reflexivity|].
  destruct (proj1 (X10_start_opens_the_stream WithPackHook sample_json sample_enc
                     0%nat (new_Comet "a") empty_env) "{}" eq_refl)
    as (e' & Hrun & _ & Htimers & _).
  exists e'. split; [exact Hrun | exact Htimers].
Defined.

Lemma X11_witness :
  pkFunc (this hooked_frame) = Some plain_hook /\
  plain_hook (sample_json (stamp "s1" plain_msg)) = PackCall Unbound None "{}" /\
  exists f1,
    sendMsg WithPackHook sample_json sample_enc plain_msg None true "s1" hooked_frame =
      Thrown (TypeError "Cannot read property resp of undefined") f1 /\
    forall m, sid m = Some "s1" -> echoMsg m f1 = Normal tt f1.
Proof.
  split; [reflexivity|]. split; [reflexivity|].
  destruct (X11_unbound_pack_callback sample_json sample_enc 0%nat
              (onPack (Some plain_hook) (new_Comet "a")) empty_env plain_msg None true "s1"
              plain_hook None "{}" eq_refl eq_refl)
    as (f1 & Hrun & _ & _ & _ & _ & Hecho).
  exists f1. split; [exact Hrun | exact Hecho].
Defined.

Lemma X12_witness :
  sid echo_s1 = Some "s1" /\
  sendMsg WithPackHook sample_json sample_enc plain_msg None false "s1" fresh_frame
    = Normal tt unheard_frame /\
  echoMsg echo_s1 unheard_frame = Thrown (TypeError "echoCb is not a function") unheard_frame.
Proof.
  assert (sendMsg WithPackHook sample_json sample_enc plain_msg None false "s1" fresh_frame
            = Normal tt unheard_frame) as Hrun by (by vm_compute).
  split; [reflexivity|]. split; [exact Hrun|].
  exact (proj2 (proj2 (X12_echo_without_callback WithPackHook sample_json sample_enc
                         0%nat (new_Comet "a") empty_env unheard_frame plain_msg echo_s1
                         None "s1" eq_refl Hrun))).
Defined.

Lemma X13_witness :
  well_indexed keyed_world /\
  getComet "a" keyed_world = Some 0%nat /\
  heap keyed_world !! 0%nat = Some keyed_comet /\
  hbFunc keyed_comet = Some Manager /\ key keyed_comet = Some "k" /\ truthy "k" = true /\
  invoke 0%nat (pongMsg WithPackHook sample_json sample_enc ping5 None) keyed_world
    = Normal tt beaten_world /\
  exists exps,
    getCometsExp (tick 60001 beaten_world) = Some exps /\
    exists x, x ∈ exps /\ exp_cid x = "a".
Proof.
  assert (well_indexed keyed_world) as Hidx.
  { unfold keyed_world, sample_world.
    repeat apply steps_well_formed. apply empty_well_formed. }
  assert (getComet "a" keyed_world = Some 0%nat) as Hget by (by vm_compute).
  assert (heap keyed_world !! 0%nat = Some keyed_comet) as H by (by vm_compute).
  assert (invoke 0%nat (pongMsg WithPackHook sample_json sample_enc ping5 None) keyed_world
            = Normal tt beaten_world) as Hrun by (by vm_compute).
  split; [exact Hidx|]. split; [exact Hget|]. split; [exact H|].
  split; [reflexivity|]. split; [reflexivity|]. split; [reflexivity|]. split; [exact Hrun|].
  destruct (X13_heartbeat_postpones_expiry WithPackHook sample_json sample_enc
              keyed_world beaten_world 0%nat keyed_comet "k" "a" ping5 None 60001
              Hidx Hget H eq_refl eq_refl eq_refl Hrun)
    as (rec & exps & _ & _ & Hexps & Hlisted & _).
  exists exps. split; [exact Hexps|]. apply Hlisted. reflexivity.
Defined.

Lemma X15_witness :
  heap sample_world !! 0%nat = Some sample_comet /\
  sendFunc sample_comet = Some Manager /\ echoFunc sample_comet = Some Manager /\
  getComet (comet_id sample_comet) sample_world = Some 0%nat /\
  truthy (comet_id sample_comet) = true /\
  sid echo_s1 = Some "s1" /\
  invoke 0%nat (sendMsg WithPackHook sample_json sample_enc plain_msg None true "s1")
    sample_world = Normal tt sent_world /\
  getCometBySendId "s1" sent_world = Some 0%nat /\
  exists w2,
    invoke 0%nat (echoMsg echo_s1) sent_world = Normal tt w2 /\
    getCometBySendId "s1" w2 = None.
Proof.
  assert (heap sample_world !! 0%nat = Some sample_comet) as H by (by vm_compute).
  assert (getComet (comet_id sample_comet) sample_world = Some 0%nat) as Hget
    by (by vm_compute).
  assert (invoke 0%nat (sendMsg WithPackHook sample_json sample_enc plain_msg None true "s1")
            sample_world = Normal tt sent_world) as Hrun by (by vm_compute).
  split; [exact H|]. split; [reflexivity|]. split; [reflexivity|]. split; [exact Hget|].
  split; [reflexivity|]. split; [reflexivity|]. split; [exact Hrun|].
  destruct (X15_getCometBySendId_follows_the_transaction WithPackHook sample_json sample_enc
              sample_world sent_world 0%nat sample_comet plain_msg echo_s1 None "s1"
              H eq_refl eq_refl Hget eq_refl eq_refl Hrun)
    as (Hfound & _ & w2 & Hecho & Hgone & _).
  split; [exact Hfound|]. exists w2. split; [exact Hecho | exact Hgone].
Defined.

Lemma X16_witness :
  heap created_world !! 0%nat = Some bare_comet /\
  closeFlag bare_comet = false /\ closeFunc bare_comet = false /\
  exists x w1,
    invoke 0%nat (trigger PeerDisconnect) created_world = Thrown x w1 /\
    closed_as 0%nat (Some CLOSE_PEER) 0 0
      (steps WithPackHook sample_json sample_enc [ODel 0%nat] w1).
Proof.
  assert (heap created_world !! 0%nat = Some bare_comet) as H by (by vm_compute).
  split; [exact H|]. split; [reflexivity|]. split; [reflexivity|].
  destruct (X16_close_without_callback_is_never_finished WithPackHook sample_json sample_enc
              created_world 0%nat bare_comet PeerDisconnect H eq_refl eq_refl)
    as (x & w1 & evs & Hrun & _ & _ & _ & _ & _ & Hclosed).
  exists x, w1. split; [exact Hrun|]. exact (Hclosed [ODel 0%nat]).
Defined.

Lemma X17_witness :
  truthy "a" = true /\
  getComet "a" created_world = Some 0%nat /\
  heap created_world !! 0%nat = Some bare_comet /\
  closeFlag bare_comet = false /\ closeFunc bare_comet = false /\
  exists w1,
    createComet (Some "a") "u1" created_world =
      Thrown (TypeError "this.closeFunc is not a function") w1 /\
    exists r' w2, createComet (Some "a") "u2" w1 = Normal r' w2 /\ r' <> 0%nat.
Proof.
  assert (getComet "a" created_world = Some 0%nat) as Hget by (by vm_compute).
  assert (heap created_world !! 0%nat = Some bare_comet) as H by (by vm_compute).
  split; [reflexivity|]. split; [exact Hget|]. split; [exact H|].
  split; [reflexivity|]. split; [reflexivity|].
  destruct (X17_replacing_without_close_callback created_world "a" "u1" 0%nat bare_comet
              eq_refl Hget H eq_refl eq_refl) as [Hthrown Hagain].
  eexists. split; [exact Hthrown|].
  destruct (Hagain "u2") as [Hne Hrun].
  eexists _, _. split; [exact Hrun | exact Hne].
Defined.

Lemma X19_witness :
  heart_safe (this failing_frame) (env failing_frame) /\
  returns (pongMsg WithPackHook sample_json sample_enc ping5 None failing_frame) = false /\
  loopTimeout (this (final (pongMsg WithPackHook sample_json sample_enc ping5 None
                              failing_frame))) = 10000 /\
  timers (env (final (pongMsg WithPackHook sample_json sample_enc ping5 None
                        failing_frame))) = ∅.
Proof.
  split; [exact I|]. split; [reflexivity|].
  destruct (X19_failed_heartbeat_keeps_the_old_timer WithPackHook sample_json sample_enc
              0%nat (onPack (Some failing_hook) (new_Comet "a")) empty_env ping5 None
              I eq_refl)
    as (_ & _ & _ & Hwin & _ & Htimers & _).
  split; [exact Hwin | exact Htimers].
Defined.
